(** * file_agent: the browsing engine of the web file manager

    A shallow embedding of [sample/script.js] (class [HighSpeedFileManager]):
    the directory cache and the prefetch queue, navigation and its history,
    the search engine with its relevance ranking, the virtual list renderer
    and the waveform down-sampling.

    Conventions of the embedding.
    - A JavaScript string is a [string] of code units; the embedding covers
      the code units U+0000..U+00FF, on which [toLowerCase] and the
      white space of [trim] are written out.
    - A JavaScript [Map] is an association list in insertion order.
    - Integral JavaScript numbers (indices, sizes, pixel offsets) are [Z].
    - An [async] method is run to completion in one step; the answers of
      the backend that the method awaits are arguments of the embedded
      function ([ApiResult]), and every request it sends is appended to
      [apiLog].
    - The DOM is reduced to what the list pane shows ([Display]) and to the
      status line ([Status]). *)

From Stdlib Require Import ZArith List String Ascii Bool Lia.
From Stdlib Require Import Permutation Sorted QArith Qabs Qround Lqa.
From Stdlib Require Import DecimalString.
Import ListNotations.

Local Open Scope string_scope.
Local Open Scope Z_scope.

(** ** Strings *)

Module JSString.

Definition backslash : ascii := ascii_of_nat 92.
Definition slash : ascii := ascii_of_nat 47.
Definition colon : ascii := ascii_of_nat 58.

Definition isUpper (c : ascii) : bool :=
  let n := N_of_ascii c in
  (((65 <=? n) && (n <=? 90))
   || ((192 <=? n) && (n <=? 222) && negb (n =? 215)))%N.

Definition toLowerCaseChar (c : ascii) : ascii :=
  if isUpper c then ascii_of_N (N_of_ascii c + 32) else c.

(** [String.prototype.toLowerCase]. *)
Fixpoint toLowerCase (s : string) : string :=
  match s with
  | EmptyString => EmptyString
  | String c r => String (toLowerCaseChar c) (toLowerCase r)
  end.

(** [String.prototype.startsWith]. *)
Fixpoint startsWith (s q : string) {struct q} : bool :=
  match q, s with
  | EmptyString, _ => true
  | String _ _, EmptyString => false
  | String b q', String a s' => Ascii.eqb a b && startsWith s' q'
  end.

(** [String.prototype.includes]. *)
Fixpoint includes (s q : string) : bool :=
  startsWith s q
  || match s with
     | EmptyString => false
     | String _ r => includes r q
     end.

(** [String.prototype.endsWith] for a one-unit argument. *)
Fixpoint endsWithChar (s : string) (c : ascii) : bool :=
  match s with
  | EmptyString => false
  | String a EmptyString => Ascii.eqb a c
  | String _ r => endsWithChar r c
  end.

Definition isWhiteSpace (c : ascii) : bool :=
  let n := N_of_ascii c in
  (((9 <=? n) && (n <=? 13)) || (n =? 32) || (n =? 160))%N.

Fixpoint trimStart (s : string) : string :=
  match s with
  | EmptyString => EmptyString
  | String c r => if isWhiteSpace c then trimStart r else s
  end.

Fixpoint trimEnd (s : string) : string :=
  match s with
  | EmptyString => EmptyString
  | String c r =>
      match trimEnd r with
      | EmptyString => if isWhiteSpace c then EmptyString else String c EmptyString
      | r' => String c r'
      end
  end.

(** [String.prototype.trim]. *)
Definition trim (s : string) : string := trimEnd (trimStart s).

(** Truthiness of a string: [!s] is [negb (truthy s)]. *)
Definition truthy (s : string) : bool :=
  match s with EmptyString => false | _ => true end.

(** [s.replace(/\//g, '\\')]. *)
Fixpoint replaceSlashes (s : string) : string :=
  match s with
  | EmptyString => EmptyString
  | String c r =>
      String (if Ascii.eqb c slash then backslash else c) (replaceSlashes r)
  end.

(** [s.replace(/\\+$/, '')]. *)
Fixpoint stripTrailingBackslashes (s : string) : string :=
  match s with
  | EmptyString => EmptyString
  | String c r =>
      match stripTrailingBackslashes r with
      | EmptyString =>
          if Ascii.eqb c backslash then EmptyString else String c EmptyString
      | r' => String c r'
      end
  end.

Definition jsLength (s : string) : Z := Z.of_nat (String.length s).

End JSString.

Import JSString.

(** ** The insertion-ordered [Map] *)

Module JSMap.
Section WithValue.
Context {V : Type}.

Definition t := list (string * V).

Definition empty : t := [].

Fixpoint has (m : t) (k : string) : bool :=
  match m with
  | [] => false
  | (k', _) :: r => String.eqb k' k || has r k
  end.

Fixpoint get (m : t) (k : string) : option V :=
  match m with
  | [] => None
  | (k', v) :: r => if String.eqb k' k then Some v else get r k
  end.

(** [Map.prototype.set]: a present key keeps its place, a new key goes
    to the end. *)
Fixpoint set (m : t) (k : string) (v : V) : t :=
  match m with
  | [] => [(k, v)]
  | (k', v') :: r =>
      if String.eqb k' k then (k', v) :: r else (k', v') :: set r k v
  end.

Fixpoint delete (m : t) (k : string) : t :=
  match m with
  | [] => []
  | (k', v') :: r =>
      if String.eqb k' k then delete r k else (k', v') :: delete r k
  end.

Definition keys (m : t) : list string := map fst m.

Definition size (m : t) : Z := Z.of_nat (List.length m).

(** [m.keys().next().value]; [None] is [undefined]. *)
Definition firstKey (m : t) : option string := hd_error (keys m).

(** The size limit as both caches write it:
    [if (m.size > limit) m.delete(m.keys().next().value)]. *)
Definition evictOldest (limit : Z) (m : t) : t :=
  if size m >? limit then
    match firstKey m with
    | Some k => delete m k
    | None => m
    end
  else m.

End WithValue.
Arguments t : clear implicits.
End JSMap.

(** ** Data model *)

Record Item := mkItem {
  name : string;
  path : string;
  is_file : bool;
  size : Z
}.

(** The uniform envelope [{success, data, error}] of the backend. *)
Record Envelope := mkEnvelope {
  success : bool;
  data : list Item;
  error : string
}.

(** Outcome of one awaited [apiCall]: the promise rejects (network error,
    timeout, HTTP status) or resolves with an envelope. *)
Inductive ApiResult :=
| Rejected (message : string)
| Resolved (env : Envelope).

Inductive Request :=
| ReqList (path : string)
| ReqSearch (directory pattern : string).

Inductive View := ListView | GridView | DetailView.

Definition View_eqb (a b : View) : bool :=
  match a, b with
  | ListView, ListView | GridView, GridView | DetailView, DetailView => true
  | _, _ => false
  end.

(** What [fileList.innerHTML] holds: nothing yet, the empty-folder notice,
    one row per item, or a window between two spacers. *)
Inductive Display :=
| Untouched
| EmptyState
| Rows (detail : bool) (rows : list Item)
| VirtualRows (topPadding : Z) (rows : list Item) (bottomPadding : Z).

Inductive Severity := SevSuccess | SevError | SevLoading | SevInfo.

Inductive StatusText :=
| MsgConnected
| MsgOffline
| MsgLoadingPath (path : string)
| MsgItemCount (n : Z)
| MsgNavigationError (message : string)
| MsgSearching (query : string)
| MsgFound (n : Z) (fromCache : bool)
| MsgSearchError (message : string).

Record VirtualScroll := mkVirtualScroll {
  itemHeight : Z;
  visibleItems : Z;
  bufferItems : Z
}.

Record State := mkState {
  isOnline : bool;
  cache : JSMap.t Envelope;
  prefetchQueue : list string;
  virtualScrollThreshold : Z;
  history : list string;
  historyIndex : Z;
  currentPath : option string;
  currentView : View;
  searchQuery : string;
  isSearchMode : bool;
  searchCache : JSMap.t (list Item);
  virtualScroll : VirtualScroll;
  currentItems : option (list Item);
  display : Display;
  status : option (Severity * StatusText);
  apiLog : list Request
}.

(** The constructor of [HighSpeedFileManager]. *)
Definition initialState : State := {|
  isOnline := false;
  cache := JSMap.empty;
  prefetchQueue := [];
  virtualScrollThreshold := 1000;
  history := [];
  historyIndex := -1;
  currentPath := None;
  currentView := ListView;
  searchQuery := "";
  isSearchMode := false;
  searchCache := JSMap.empty;
  virtualScroll := {| itemHeight := 36; visibleItems := 50; bufferItems := 10 |};
  currentItems := None;
  display := Untouched;
  status := None;
  apiLog := []
|}.

(** Field updates of [State]. *)

Definition set_isOnline (st : State) (b : bool) : State :=
  mkState b (cache st) (prefetchQueue st) (virtualScrollThreshold st)
    (history st) (historyIndex st) (currentPath st) (currentView st)
    (searchQuery st) (isSearchMode st) (searchCache st) (virtualScroll st)
    (currentItems st) (display st) (status st) (apiLog st).

Definition set_cache (st : State) (c : JSMap.t Envelope) : State :=
  mkState (isOnline st) c (prefetchQueue st) (virtualScrollThreshold st)
    (history st) (historyIndex st) (currentPath st) (currentView st)
    (searchQuery st) (isSearchMode st) (searchCache st) (virtualScroll st)
    (currentItems st) (display st) (status st) (apiLog st).

Definition set_prefetchQueue (st : State) (q : list string) : State :=
  mkState (isOnline st) (cache st) q (virtualScrollThreshold st)
    (history st) (historyIndex st) (currentPath st) (currentView st)
    (searchQuery st) (isSearchMode st) (searchCache st) (virtualScroll st)
    (currentItems st) (display st) (status st) (apiLog st).

Definition set_history (st : State) (h : list string) (i : Z) : State :=
  mkState (isOnline st) (cache st) (prefetchQueue st)
    (virtualScrollThreshold st) h i (currentPath st) (currentView st)
    (searchQuery st) (isSearchMode st) (searchCache st) (virtualScroll st)
    (currentItems st) (display st) (status st) (apiLog st).

Definition set_historyIndex (st : State) (i : Z) : State :=
  set_history st (history st) i.

Definition set_currentPath (st : State) (p : option string) : State :=
  mkState (isOnline st) (cache st) (prefetchQueue st)
    (virtualScrollThreshold st) (history st) (historyIndex st) p
    (currentView st) (searchQuery st) (isSearchMode st) (searchCache st)
    (virtualScroll st) (currentItems st) (display st) (status st) (apiLog st).

Definition set_currentView (st : State) (v : View) : State :=
  mkState (isOnline st) (cache st) (prefetchQueue st)
    (virtualScrollThreshold st) (history st) (historyIndex st)
    (currentPath st) v (searchQuery st) (isSearchMode st) (searchCache st)
    (virtualScroll st) (currentItems st) (display st) (status st) (apiLog st).

Definition set_searchQuery (st : State) (q : string) : State :=
  mkState (isOnline st) (cache st) (prefetchQueue st)
    (virtualScrollThreshold st) (history st) (historyIndex st)
    (currentPath st) (currentView st) q (isSearchMode st) (searchCache st)
    (virtualScroll st) (currentItems st) (display st) (status st) (apiLog st).

Definition set_isSearchMode (st : State) (b : bool) : State :=
  mkState (isOnline st) (cache st) (prefetchQueue st)
    (virtualScrollThreshold st) (history st) (historyIndex st)
    (currentPath st) (currentView st) (searchQuery st) b (searchCache st)
    (virtualScroll st) (currentItems st) (display st) (status st) (apiLog st).

Definition set_searchCache (st : State) (c : JSMap.t (list Item)) : State :=
  mkState (isOnline st) (cache st) (prefetchQueue st)
    (virtualScrollThreshold st) (history st) (historyIndex st)
    (currentPath st) (currentView st) (searchQuery st) (isSearchMode st) c
    (virtualScroll st) (currentItems st) (display st) (status st) (apiLog st).

Definition set_visibleItems (st : State) (n : Z) : State :=
  mkState (isOnline st) (cache st) (prefetchQueue st)
    (virtualScrollThreshold st) (history st) (historyIndex st)
    (currentPath st) (currentView st) (searchQuery st) (isSearchMode st)
    (searchCache st)
    (mkVirtualScroll (itemHeight (virtualScroll st)) n
       (bufferItems (virtualScroll st)))
    (currentItems st) (display st) (status st) (apiLog st).

Definition set_currentItems (st : State) (l : option (list Item)) : State :=
  mkState (isOnline st) (cache st) (prefetchQueue st)
    (virtualScrollThreshold st) (history st) (historyIndex st)
    (currentPath st) (currentView st) (searchQuery st) (isSearchMode st)
    (searchCache st) (virtualScroll st) l (display st) (status st) (apiLog st).

Definition set_display (st : State) (d : Display) : State :=
  mkState (isOnline st) (cache st) (prefetchQueue st)
    (virtualScrollThreshold st) (history st) (historyIndex st)
    (currentPath st) (currentView st) (searchQuery st) (isSearchMode st)
    (searchCache st) (virtualScroll st) (currentItems st) d (status st)
    (apiLog st).

(** [showStatus(message, type)]. *)
Definition showStatus (st : State) (m : StatusText) (sev : Severity) : State :=
  mkState (isOnline st) (cache st) (prefetchQueue st)
    (virtualScrollThreshold st) (history st) (historyIndex st)
    (currentPath st) (currentView st) (searchQuery st) (isSearchMode st)
    (searchCache st) (virtualScroll st) (currentItems st) (display st)
    (Some (sev, m)) (apiLog st).

(** [apiCall(endpoint, params)] as far as the client state sees it: the
    request leaves. *)
Definition apiCall (st : State) (r : Request) : State :=
  mkState (isOnline st) (cache st) (prefetchQueue st)
    (virtualScrollThreshold st) (history st) (historyIndex st)
    (currentPath st) (currentView st) (searchQuery st) (isSearchMode st)
    (searchCache st) (virtualScroll st) (currentItems st) (display st)
    (status st) (apiLog st ++ [r]).

(** ** Arrays *)

Definition jsLen {A} (l : list A) : Z := Z.of_nat (List.length l).

(** [Array.prototype.slice(start, end)], negative indices counted from the
    end as the language defines them. *)
Definition slice {A} (l : list A) (startIndex endIndex : Z) : list A :=
  let len := jsLen l in
  let k := if startIndex <? 0 then Z.max (len + startIndex) 0
           else Z.min startIndex len in
  let e := if endIndex <? 0 then Z.max (len + endIndex) 0
           else Z.min endIndex len in
  firstn (Z.to_nat (Z.max (e - k) 0)) (skipn (Z.to_nat k) l).

(** [Array.prototype.splice(start)]: drops everything from [start] on. *)
Definition spliceFrom {A} (l : list A) (start : Z) : list A :=
  let len := jsLen l in
  let k := if start <? 0 then Z.max (len + start) 0 else Z.min start len in
  firstn (Z.to_nat k) l.

(** [a[i]]; [None] is [undefined]. *)
Definition at_index {A} (l : list A) (i : Z) : option A :=
  if i <? 0 then None else nth_error l (Z.to_nat i).

(** [Array.prototype.sort(compare)].  The language requires the sort to be
    stable; for a comparator that is a consistent ordering every conforming
    engine returns the list computed here (stable insertion). *)
Fixpoint insertBy {A} (compare : A -> A -> Z) (x : A) (l : list A) : list A :=
  match l with
  | [] => [x]
  | y :: r => if compare x y >? 0 then y :: insertBy compare x r
              else x :: y :: r
  end.

Definition sortBy {A} (compare : A -> A -> Z) (l : list A) : list A :=
  fold_right (insertBy compare) [] l.

(** [String.prototype.localeCompare] is the collation of the host. *)
Class Collation := localeCompare : string -> string -> Z.

(** Comparison by code units, the collation used in the examples. *)
Fixpoint codeUnitCompare (a b : string) : Z :=
  match a, b with
  | EmptyString, EmptyString => 0
  | EmptyString, String _ _ => -1
  | String _ _, EmptyString => 1
  | String x a', String y b' =>
      match N.compare (N_of_ascii x) (N_of_ascii y) with
      | Lt => -1
      | Gt => 1
      | Eq => codeUnitCompare a' b'
      end
  end.

Definition codeUnitCollation : Collation := codeUnitCompare.

(** ** Relevance of a search hit *)

(** [calculateRelevance(filename, query)]. *)
Definition calculateRelevance (filename query : string) : Z :=
  let name := toLowerCase filename in
  let q := toLowerCase query in
  if String.eqb name q then 1000
  else if startsWith name q then 800
  else if includes name ("_" ++ q) || includes name ("-" ++ q)
          || includes name (" " ++ q) then 600
  else if includes name q then 400
  else 0.

(** The comparator handed to [finalResults.sort]. *)
Definition byRelevance (query : string) (a b : Item) : Z :=
  calculateRelevance (name b) query - calculateRelevance (name a) query.

(** The merge loop of [performFastSearch]: every fulfilled and successful
    answer puts its items into a [Map] keyed by path. *)
Definition mergeAnswer (allItems : JSMap.t Item) (result : ApiResult)
  : JSMap.t Item :=
  match result with
  | Resolved value =>
      if success value then
        fold_left (fun m item => JSMap.set m (path item) item)
          (data value) allItems
      else allItems
  | Rejected _ => allItems
  end.

Definition mergeAnswers (results : list ApiResult) : list Item :=
  map snd (fold_left mergeAnswer results JSMap.empty).

Definition rankResults (query : string) (items : list Item) : list Item :=
  sortBy (byRelevance query) items.

(** ** The engine *)

Section Engine.
Context `{Collation}.

(** [renderVirtualItems(startIndex, endIndex)].  Both callers hold
    [currentItems]. *)
Definition renderVirtualItems (st : State) (startIndex endIndex : Z) : State :=
  match currentItems st with
  | None => st
  | Some all =>
      let items := slice all startIndex endIndex in
      let topPadding := startIndex * itemHeight (virtualScroll st) in
      let bottomPadding :=
        (jsLen all - endIndex) * itemHeight (virtualScroll st) in
      set_display st (VirtualRows topPadding items bottomPadding)
  end.

(** The order in which [renderAllItems] lays the rows out. *)
Definition sortedItems (items : list Item) : list Item :=
  let folders := filter (fun item => negb (is_file item)) items in
  let files := filter is_file items in
  sortBy (fun a b => localeCompare (name a) (name b)) folders
  ++ sortBy (fun a b => localeCompare (name a) (name b)) files.

(** [renderAllItems(items)]. *)
Definition renderAllItems (st : State) (items : list Item) : State :=
  set_display st
    (Rows (View_eqb (currentView st) DetailView) (sortedItems items)).

(** [renderFileList(items)]. *)
Definition renderFileList (st : State) (items : list Item) : State :=
  let st := set_currentItems st (Some items) in
  if jsLen items =? 0 then set_display st EmptyState
  else if View_eqb (currentView st) ListView
          && (jsLen items >? virtualScrollThreshold st)
  then renderVirtualItems st 0 (visibleItems (virtualScroll st))
  else renderAllItems st items.

(** [handleVirtualScroll(e)], [scrollTop] being [e.target.scrollTop]. *)
Definition handleVirtualScroll (st : State) (scrollTop : Z) : State :=
  match currentItems st with
  | None => st
  | Some all =>
      if negb (View_eqb (currentView st) ListView) then st
      else
        let startIndex := scrollTop / itemHeight (virtualScroll st) in
        let endIndex :=
          Z.min (startIndex + visibleItems (virtualScroll st)
                 + bufferItems (virtualScroll st))
                (jsLen all) in
        renderVirtualItems st startIndex endIndex
  end.

(** [handleResize()], [clientHeight] being that of the list pane;
    [Math.ceil(a / b)] is [- ((- a) / b)]. *)
Definition handleResize (st : State) (clientHeight : Z) : State :=
  match currentItems st with
  | Some all =>
      if View_eqb (currentView st) ListView
         && (jsLen all >? virtualScrollThreshold st)
      then set_visibleItems st
             (- ((- clientHeight) / itemHeight (virtualScroll st)))
      else st
  | None => st
  end.

(** [setView(view)]. *)
Definition setView (st : State) (v : View) : State :=
  let st := set_currentView st v in
  match currentItems st with
  | Some items => renderFileList st items
  | None => st
  end.

(** [setConnectionStatus(online)], reached from [checkConnection]. *)
Definition setConnectionStatus (st : State) (online : bool) : State :=
  if Bool.eqb (isOnline st) online then st
  else
    let st := set_isOnline st online in
    if online then showStatus st MsgConnected SevSuccess
    else showStatus st MsgOffline SevError.

(** The normalisation at the head of [navigateToPath]. *)
Definition normalizePath (p : string) : string :=
  let p := stripTrailingBackslashes (replaceSlashes p) in
  if (jsLength p =? 2) && endsWithChar p colon
  then p ++ String backslash EmptyString
  else p.

(** [addToHistory(path)]. *)
Definition addToHistory (st : State) (p : string) : State :=
  let atCurrent :=
    match at_index (history st) (historyIndex st) with
    | Some q => String.eqb q p
    | None => false
    end in
  if atCurrent then st
  else
    let h : list string :=
      (spliceFrom (history st) (historyIndex st + 1) ++ [p])%list in
    let i := jsLen h - 1 in
    if jsLen h >? 50 then set_history st (tl h) (i - 1)
    else set_history st h i.

(** [queuePrefetch(items)]. *)
Definition queuePrefetch (st : State) (items : list Item) : State :=
  let folders := slice (filter (fun item => negb (is_file item)) items) 0 5 in
  fold_left
    (fun st folder =>
       if JSMap.has (cache st) (path folder) then st
       else set_prefetchQueue st (prefetchQueue st ++ [path folder])%list)
    folders st.

(** [navigateToPath(path, addToHistory)]; [answer] is what the awaited
    [list] call gives, looked at only when the call is made. *)
Definition navigateToPath (st : State) (p : string) (addToHist : bool)
  (answer : ApiResult) : State :=
  if negb (truthy p) || negb (isOnline st) then st
  else
    let p := normalizePath p in
    let st := showStatus st (MsgLoadingPath p) SevLoading in
    let '(st, fetched) :=
      match JSMap.get (cache st) p with
      | Some cached => (st, Resolved cached)
      | None =>
          let st := apiCall st (ReqList p) in
          match answer with
          | Resolved d =>
              if success d then
                (set_cache st
                   (JSMap.evictOldest 100 (JSMap.set (cache st) p d)),
                 answer)
              else (st, answer)
          | Rejected _ => (st, answer)
          end
      end in
    match fetched with
    | Resolved d =>
        if success d then
          let st := set_currentPath st (Some p) in
          let st := if addToHist then addToHistory st p else st in
          let st := renderFileList st (data d) in
          let st := queuePrefetch st (data d) in
          showStatus st (MsgItemCount (jsLen (data d))) SevSuccess
        else showStatus st (MsgNavigationError (error d)) SevError
    | Rejected message => showStatus st (MsgNavigationError message) SevError
    end.

(** [prefetchDirectory(path)]. *)
Definition prefetchDirectory (st : State) (p : string) (answer : ApiResult)
  : State :=
  let st := apiCall st (ReqList p) in
  match answer with
  | Resolved d =>
      if success d then set_cache st (JSMap.set (cache st) p d) else st
  | Rejected _ => st
  end.

(** One turn of the loop in [setupIdleCallback]. *)
Definition prefetchWork (st : State) (answer : ApiResult) : State :=
  match prefetchQueue st with
  | [] => st
  | p :: rest => prefetchDirectory (set_prefetchQueue st rest) p answer
  end.

(** [goBack()]. *)
Definition goBack (st : State) (answer : ApiResult) : State :=
  if historyIndex st >? 0 then
    let st := set_historyIndex st (historyIndex st - 1) in
    match at_index (history st) (historyIndex st) with
    | Some p => navigateToPath st p false answer
    | None => st
    end
  else st.

(** [goForward()]. *)
Definition goForward (st : State) (answer : ApiResult) : State :=
  if historyIndex st <? jsLen (history st) - 1 then
    let st := set_historyIndex st (historyIndex st + 1) in
    match at_index (history st) (historyIndex st) with
    | Some p => navigateToPath st p false answer
    | None => st
    end
  else st.

(** [refreshTree()]; the test [if (this.currentPath)] on an empty string
    is the test [!path] that [navigateToPath] makes first. *)
Definition refreshTree (st : State) (answer : ApiResult) : State :=
  let st := set_cache st JSMap.empty in
  match currentPath st with
  | Some p => navigateToPath st p false answer
  | None => st
  end.

(** [this.currentPath || fallback]. *)
Definition currentPathOr (st : State) (fallback : string) : string :=
  match currentPath st with
  | Some p => if truthy p then p else fallback
  | None => fallback
  end.

(** The key of the search cache,
    [`${this.currentPath || 'root'}:${query.toLowerCase()}`]. *)
Definition searchCacheKey (st : State) (query : string) : string :=
  currentPathOr st "root" ++ ":" ++ toLowerCase query.

(** The requests [performFastSearch] builds on a cache miss. *)
Definition searchRequests (st : State) (query : string) : list Request :=
  ReqSearch (currentPathOr st "C:\") ("*" ++ query ++ "*")
  :: (if jsLength query >? 2
      then [ReqSearch (currentPathOr st "C:\") ("*." ++ query ++ "*")]
      else []).

(** [performFastSearch(query)]; [navAnswer] serves the navigation of the
    blank-query branch, [answers] are the settled search promises in the
    order of [searchPromises] (one or two are looked at). *)
Definition performFastSearch (st : State) (query : string)
  (navAnswer : ApiResult) (answers : ApiResult * ApiResult) : State :=
  if negb (truthy (trim query)) then
    let st := set_isSearchMode st false in
    let st := set_searchCache st JSMap.empty in
    match currentPath st with
    | Some p => navigateToPath st p false navAnswer
    | None => st
    end
  else
    let st := set_isSearchMode st true in
    let st := set_searchQuery st query in
    let cacheKey := searchCacheKey st query in
    match JSMap.get (searchCache st) cacheKey with
    | Some cachedResults =>
        let st := renderFileList st cachedResults in
        showStatus st (MsgFound (jsLen cachedResults) true) SevSuccess
    | None =>
        let st := showStatus st (MsgSearching query) SevLoading in
        let requests := searchRequests st query in
        let st := fold_left apiCall requests st in
        let results :=
          firstn (List.length requests) [fst answers; snd answers] in
        let finalResults := rankResults query (mergeAnswers results) in
        let st :=
          set_searchCache st
            (JSMap.evictOldest 50
               (JSMap.set (searchCache st) cacheKey finalResults)) in
        let st := renderFileList st finalResults in
        showStatus st (MsgFound (jsLen finalResults) false) SevSuccess
    end.

(** ** Runs of the engine

    One operation of a run is a user action or an event of the host,
    together with the answers of the backend it consumes.  Scroll offsets
    and pane heights are the non-negative integers the DOM reports. *)

Inductive Op :=
| OpConnection (online : bool)
| OpNavigate (p : string) (answer : ApiResult)
| OpBack (answer : ApiResult)
| OpForward (answer : ApiResult)
| OpRefresh (answer : ApiResult)
| OpSearch (query : string) (navAnswer : ApiResult)
    (answers : ApiResult * ApiResult)
| OpPrefetch (answer : ApiResult)
| OpSetView (v : View)
| OpScroll (scrollTop : N)
| OpResize (clientHeight : N).

Definition step (st : State) (op : Op) : State :=
  match op with
  | OpConnection online => setConnectionStatus st online
  | OpNavigate p answer => navigateToPath st p true answer
  | OpBack answer => goBack st answer
  | OpForward answer => goForward st answer
  | OpRefresh answer => refreshTree st answer
  | OpSearch query navAnswer answers =>
      performFastSearch st query navAnswer answers
  | OpPrefetch answer => prefetchWork st answer
  | OpSetView v => setView st v
  | OpScroll scrollTop => handleVirtualScroll st (Z.of_N scrollTop)
  | OpResize clientHeight => handleResize st (Z.of_N clientHeight)
  end.

Definition run (ops : list Op) (st : State) : State := fold_left step ops st.

End Engine.

(** ** Waveform down-sampling

    A JavaScript number is a finite value or one of [NaN], [Infinity],
    [-Infinity].  Finite values are exact rationals kept in lowest terms:
    rounding is not modelled, the special values and the division by zero
    are.  Zero is [+0]; the series below are built from absolute values. *)

Inductive JSNumber :=
| Finite (q : Q)
| NaN
| PosInfinity
| NegInfinity.

Definition fin (q : Q) : JSNumber := Finite (Qred q).

Definition isZero (q : Q) : bool := Qeq_bool q 0.
Definition isNegative (q : Q) : bool := negb (Qle_bool 0 q).

(** [Math.abs]. *)
Definition jsAbs (x : JSNumber) : JSNumber :=
  match x with
  | Finite q => fin (Qabs q)
  | NaN => NaN
  | PosInfinity | NegInfinity => PosInfinity
  end.

(** [x + y]. *)
Definition jsAdd (x y : JSNumber) : JSNumber :=
  match x, y with
  | NaN, _ | _, NaN => NaN
  | PosInfinity, NegInfinity | NegInfinity, PosInfinity => NaN
  | PosInfinity, _ | _, PosInfinity => PosInfinity
  | NegInfinity, _ | _, NegInfinity => NegInfinity
  | Finite a, Finite b => fin (a + b)
  end.

(** [x / y]. *)
Definition jsDiv (x y : JSNumber) : JSNumber :=
  match x, y with
  | NaN, _ | _, NaN => NaN
  | Finite a, Finite b =>
      if isZero b then
        if isZero a then NaN
        else if isNegative a then NegInfinity else PosInfinity
      else fin (a / b)
  | Finite _, (PosInfinity | NegInfinity) => Finite 0
  | (PosInfinity | NegInfinity), (PosInfinity | NegInfinity) => NaN
  | PosInfinity, Finite b => if isNegative b then NegInfinity else PosInfinity
  | NegInfinity, Finite b => if isNegative b then PosInfinity else NegInfinity
  end.

(** [Math.max(a, b)] on two arguments. *)
Definition jsMax2 (x y : JSNumber) : JSNumber :=
  match x, y with
  | NaN, _ | _, NaN => NaN
  | PosInfinity, _ | _, PosInfinity => PosInfinity
  | NegInfinity, z | z, NegInfinity => z
  | Finite a, Finite b => if Qle_bool a b then Finite b else Finite a
  end.

(** [Math.max(...values)]; no argument gives [-Infinity]. *)
Definition jsMax (values : list JSNumber) : JSNumber :=
  fold_left jsMax2 values NegInfinity.

(** [Math.abs(rawData[k])]; a read past the end is [undefined], whose
    absolute value is [NaN]. *)
Definition absAt (rawData : list JSNumber) (k : nat) : JSNumber :=
  match nth_error rawData k with
  | Some x => jsAbs x
  | None => NaN
  end.

(** One turn of the outer loop of the down-sampling: the mean absolute
    amplitude of block [i]. *)
Definition blockMean (rawData : list JSNumber) (blockSize i : nat)
  : JSNumber :=
  let blockStart := (blockSize * i)%nat in
  let sum :=
    fold_left (fun sum j => jsAdd sum (absAt rawData (blockStart + j)))
      (seq 0 blockSize) (Finite 0) in
  jsDiv sum (Finite (inject_Z (Z.of_nat blockSize))).

(** The loop [for (i = 0; i < samples; i++)] that fills [filteredData]. *)
Definition downsample (rawData : list JSNumber) (blockSize samples : nat)
  : list JSNumber :=
  map (blockMean rawData blockSize) (seq 0 samples).

(** [filteredData.map(val => val / Math.max(...filteredData))]. *)
Definition normalizeSeries (filteredData : list JSNumber) : list JSNumber :=
  let maxValue := jsMax filteredData in
  map (fun val => jsDiv val maxValue) filteredData.

(** The series [generateRealWaveform] draws: channel 0, and channel 1 when
    there is one, both with the block size of channel 0;
    [Math.floor(rawData.length / samples)] is taken at [samples > 0], the
    loops do not run otherwise. *)
Definition generateRealWaveform (channels : list (list JSNumber))
  (width : nat) : list (list JSNumber) :=
  match channels with
  | [] => []
  | rawData :: others =>
      let samples := width in
      let blockSize := (List.length rawData / samples)%nat in
      normalizeSeries (downsample rawData blockSize samples)
      :: match others with
         | [] => []
         | rightData :: _ =>
             [normalizeSeries (downsample rightData blockSize samples)]
         end
  end.

(** ** Specification-level notions *)

(** How a lower-cased name matches a lower-cased query, in the words of
    the ranking rule. *)
Inductive MatchKind :=
| ExactMatch
| PrefixMatch
| WordBoundaryMatch
| SubstringMatch
| NoMatch.

Definition scoreOf (k : MatchKind) : Z :=
  match k with
  | ExactMatch => 1000
  | PrefixMatch => 800
  | WordBoundaryMatch => 600
  | SubstringMatch => 400
  | NoMatch => 0
  end.

Definition isSeparator (c : ascii) : Prop :=
  c = "_"%char \/ c = "-"%char \/ c = " "%char.

Definition HasPrefix (n q : string) : Prop := exists post, n = q ++ post.

Definition HasSubstring (n q : string) : Prop :=
  exists pre post, n = pre ++ q ++ post.

Definition HasBoundaryMatch (n q : string) : Prop :=
  exists pre c post, isSeparator c /\ n = pre ++ String c (q ++ post).

Inductive Matches (n q : string) : MatchKind -> Prop :=
| matches_exact : n = q -> Matches n q ExactMatch
| matches_prefix : n <> q -> HasPrefix n q -> Matches n q PrefixMatch
| matches_boundary :
    ~ HasPrefix n q -> HasBoundaryMatch n q -> Matches n q WordBoundaryMatch
| matches_substring :
    ~ HasPrefix n q -> ~ HasBoundaryMatch n q -> HasSubstring n q ->
    Matches n q SubstringMatch
| matches_none : ~ HasSubstring n q -> Matches n q NoMatch.

Definition relevance (query : string) (item : Item) : Z :=
  calculateRelevance (name item) query.

(** A branch of the search failed: the promise was rejected, or the
    envelope says so. *)
Definition branchFailed (a : ApiResult) : bool :=
  match a with
  | Rejected _ => true
  | Resolved d => negb (success d)
  end.

Definition branchItems (a : ApiResult) : list Item :=
  match a with
  | Rejected _ => []
  | Resolved d => if success d then data d else []
  end.

(** A query is blank: empty, or white space only. *)
Fixpoint isBlank (q : string) : bool :=
  match q with
  | EmptyString => true
  | String c r => isWhiteSpace c && isBlank r
  end.

(** What holds of the engine in every run from [initialState]. *)
Record Invariant (st : State) : Prop := {
  inv_threshold : virtualScrollThreshold st = 1000;
  inv_itemHeight : itemHeight (virtualScroll st) = 36;
  inv_bufferItems : bufferItems (virtualScroll st) = 10;
  inv_cache : Forall (fun kv => success (snd kv) = true) (cache st);
  inv_searchCache : JSMap.size (searchCache st) <= 50;
  inv_history :
    -1 <= historyIndex st < jsLen (history st) /\ jsLen (history st) <= 50;
  inv_visibleItems : 0 <= visibleItems (virtualScroll st)
}.

(** Inputs of the examples. *)

Definition okEnvelope (items : list Item) : Envelope :=
  mkEnvelope true items "".

Definition decimal (n : nat) : string :=
  NilZero.string_of_uint (Nat.to_uint n).

Definition folderItem (p : string) : Item := mkItem p p false 0.
Definition fileItem (dir n : string) : Item := mkItem n (dir ++ n) true 1.

Definition onlineState : State := set_isOnline initialState true.

(** One hundred visits to distinct directories [C:\d0] .. [C:\d99], the
    last of which lists a sub-folder, and then one idle turn that
    prefetches it. *)
Definition hundredVisits : list Op :=
  map (fun n => OpNavigate ("C:\d" ++ decimal n) (Resolved (okEnvelope [])))
    (seq 0 99)
  ++ [OpNavigate "C:\d99"
        (Resolved (okEnvelope [folderItem "C:\d99\sub"]))].

Definition hundredVisitsThenPrefetch : list Op :=
  hundredVisits ++ [OpPrefetch (Resolved (okEnvelope []))].

(** The insertion that [navigateToPath] and [performFastSearch] make into
    their caches: [set], then the size test. *)
Definition putBounded {V} (limit : Z) (m : JSMap.t V) (kv : string * V)
  : JSMap.t V :=
  JSMap.evictOldest limit (JSMap.set m (fst kv) (snd kv)).

(** The step of the merge loop, one item at a time. *)
Definition putItem (m : JSMap.t Item) (item : Item) : JSMap.t Item :=
  JSMap.set m (path item) item.

Definition keyedByPath (m : JSMap.t Item) : Prop :=
  Forall (fun kv => fst kv = path (snd kv)) m.

(** The paths of a list in the order in which they are first seen. *)
Fixpoint firstSeen (seen l : list string) : list string :=
  match l with
  | [] => []
  | x :: r =>
      if existsb (String.eqb x) seen then firstSeen seen r
      else x :: firstSeen (x :: seen) r
  end.

(** What [navigateToPath] does once it holds a successful listing. *)
Definition afterSuccess `{Collation} (st : State) (p : string) (addToHist : bool)
  (d : Envelope) : State :=
  let st := set_currentPath st (Some p) in
  let st := if addToHist then addToHistory st p else st in
  let st := renderFileList st (data d) in
  let st := queuePrefetch st (data d) in
  showStatus st (MsgItemCount (jsLen (data d))) SevSuccess.

(** The message of a failed [list] call, as the [catch] block shows it. *)
Definition failureMessage (answer : ApiResult) : string :=
  match answer with
  | Rejected message => message
  | Resolved d => error d
  end.

(** Finite numbers, and bounds on them. *)
Definition isFiniteNumber (v : JSNumber) : Prop := exists q, v = Finite q.

Definition nonNegative (v : JSNumber) : Prop :=
  exists q, v = Finite q /\ (0 <= q)%Q.

Definition atMost (m : Q) (v : JSNumber) : Prop :=
  exists q, v = Finite q /\ (q <= m)%Q.

(** A block mean other than zero. *)
Definition nonZero (v : JSNumber) : bool :=
  match v with
  | Finite q => negb (isZero q)
  | _ => true
  end.

(** More inputs of the examples. *)

Definition threeEntries : list Item :=
  [folderItem "C:\Users"; fileItem "C:\" "a.txt"; fileItem "C:\" "b.txt"].

(** [C:\] is visited and cached, then [D:\], then the connection is lost. *)
Definition offlineAfterTwoVisits : State :=
  run (H := codeUnitCollation)
    [OpConnection true;
     OpNavigate "C:\" (Resolved (okEnvelope threeEntries));
     OpNavigate "D:\" (Resolved (okEnvelope [fileItem "D:\" "d.txt"]));
     OpConnection false]
    initialState.

(** A listing is cached under the empty path (the normal form of a lone
    separator), then [D:\] is visited. *)
Definition emptyPathCached : State :=
  run (H := codeUnitCollation)
    [OpConnection true;
     OpNavigate "\" (Resolved (okEnvelope threeEntries));
     OpNavigate "D:\" (Resolved (okEnvelope [fileItem "D:\" "d.txt"]))]
    initialState.

Definition numberedFiles (n : nat) : list Item :=
  map (fun i => fileItem "C:\big\" (decimal i)) (seq 0 n).

(** A directory of 5000 files is on display in the list view. *)
Definition bigListState : State :=
  run (H := codeUnitCollation)
    [OpConnection true;
     OpNavigate "C:\big" (Resolved (okEnvelope (numberedFiles 5000)))]
    initialState.

Definition logFile : Item := fileItem "C:\logs\" "log.txt".
Definition catalogFolder : Item := mkItem "catalog" "C:\logs\catalog" false 0.
Definition hyphenLogFile : Item := fileItem "C:\logs\" "a-log.txt".

Definition inLogs : State := set_currentPath onlineState (Some "C:\logs").

(** * The rest of the file manager

    The parts of [HighSpeedFileManager] around the browsing engine: parent
    paths and the breadcrumb, the drives, the selection, the clipboard and
    the file operations, the audio player and the size format.
    The engine state [State] is kept as it is; what these parts add to
    [this] is the record [Manager] around it. *)

(** ** More of the string library *)

(** [s.lastIndexOf(c)] for a one-unit argument; [-1] when [c] is absent. *)
Fixpoint lastIndexOfChar (s : string) (c : ascii) : Z :=
  match s with
  | EmptyString => -1
  | String a r =>
      let i := lastIndexOfChar r c in
      if i >=? 0 then i + 1 else if Ascii.eqb a c then 0 else -1
  end.

(** [s.substring(0, n)]: a negative [n] counts as 0, one past the end as
    the length. *)
Definition substringTo (s : string) (n : Z) : string :=
  String.substring 0 (Z.to_nat n) s.

(** [s.split(sep)] for a one-unit separator; the array is never empty. *)
Fixpoint splitOn (sep : ascii) (s : string) : list string :=
  match s with
  | EmptyString => [EmptyString]
  | String a r =>
      if Ascii.eqb a sep then EmptyString :: splitOn sep r
      else match splitOn sep r with
           | segment :: segments => String a segment :: segments
           | [] => [String a EmptyString]
           end
  end.

(** [s.split(sep).pop()]. *)
Definition lastSegment (sep : ascii) (s : string) : string :=
  List.last (splitOn sep s) EmptyString.

Definition dot : ascii := ascii_of_nat 46.

(** [path.split('.').pop()?.toLowerCase()]; the array that [split] gives
    is never empty, so [pop] always gives a string. *)
Definition extensionOf (p : string) : string :=
  toLowerCase (lastSegment dot p).


(** ** Parent paths *)

(** [getParentPath(path)] on a string; [None] is [null]. *)
Definition getParentPath (p : string) : option string :=
  if negb (truthy p) || (jsLength p <=? 3) then None
  else
    let lastSlash :=
      Z.max (lastIndexOfChar p backslash) (lastIndexOfChar p slash) in
    if lastSlash <=? 2 then Some (substringTo p 3)
    else Some (substringTo p lastSlash).

(** The [data-path] of every item of the breadcrumb that
    [updateBreadcrumb(path)] draws, in order; all but the last navigate to
    it on a click. *)
Definition breadcrumbPaths (p : string) : list string :=
  let parts := filter truthy (splitOn backslash p) in
  snd (fold_left
         (fun acc part =>
            let currentPath := fst acc ++ part ++ String backslash "" in
            (currentPath, (snd acc ++ [currentPath])%list))
         parts (EmptyString, [])).

(** ** File types *)

(** [isAudioFile(path)]. *)
Definition audioExtensions : list string :=
  ["mp3"; "wav"; "aif"; "aiff"; "ogg"; "flac"; "m4a"; "aac"].

Definition isAudioFile (p : string) : bool :=
  existsb (String.eqb (extensionOf p)) audioExtensions.

(** The members that every object literal inherits from
    [Object.prototype]: a lookup [table[key]] with one of these keys finds
    the inherited member when the table has no entry of its own. *)
Definition objectPrototypeKeys : list string :=
  ["constructor"; "__defineGetter__"; "__defineSetter__"; "hasOwnProperty";
   "__lookupGetter__"; "__lookupSetter__"; "isPrototypeOf";
   "propertyIsEnumerable"; "toString"; "valueOf"; "__proto__";
   "toLocaleString"].

Inductive Looked :=
| OwnEntry (value : string)
| InheritedMember (key : string)
| NoEntry.

(** [table[key]] for an object literal with string values. *)
Definition lookupLiteral (table : list (string * string)) (key : string)
  : Looked :=
  match JSMap.get table key with
  | Some value => OwnEntry value
  | None =>
      if existsb (String.eqb key) objectPrototypeKeys
      then InheritedMember key
      else NoEntry
  end.

Definition mimeTypes : list (string * string) :=
  [("mp3", "audio/mpeg"); ("wav", "audio/wav"); ("aif", "audio/aiff");
   ("aiff", "audio/aiff"); ("ogg", "audio/ogg"); ("flac", "audio/flac");
   ("m4a", "audio/mp4"); ("aac", "audio/aac")].

(** [getMimeTypeFromExtension(ext)]: [mimeTypes[ext] || 'audio/mpeg'].
    Every entry of the table and every inherited member is truthy. *)
Definition getMimeTypeFromExtension (ext : string) : Looked :=
  match lookupLiteral mimeTypes ext with
  | NoEntry => OwnEntry "audio/mpeg"
  | found => found
  end.

(** ** Sizes *)






(** ** The manager around the engine *)

Inductive ClipboardOperation := OperationCopy | OperationCut.

(** The requests of the file operations; the [list] and [search] requests
    stay in [apiLog] of the engine. *)
Inductive FileRequest :=
| ReqCopy (source destination : string)
| ReqMove (source destination : string)
| ReqDelete (target : string)
| ReqCreate (target : string) (is_directory : bool)
| ReqReadBinary (target : string).

(** The texts that the methods below hand to [showStatus]. *)
Inductive Notice :=
| NoticeSearchingDrives
| NoticeDrivesFound (n : Z)
| NoticeCopied (n : Z)
| NoticeCut (n : Z)
| NoticePasting
| NoticePasted
| NoticePasteError (message : string)
| NoticeDeleting
| NoticeDeleted (n : Z)
| NoticeDeleteError (message : string)
| NoticeFolderCreated
| NoticeFolderError (message : string)
| NoticeFileCreated
| NoticeFileError (message : string)
| NoticeAudioLoading
| NoticeAudioLoaded
| NoticeAudioError (message : string).

Record Drive := mkDrive {
  letter : string;
  drivePath : string
}.

(** [selectedItems] is a [Set] of paths, kept in insertion order.  The
    [Audio] element is known by the type of the blob it plays.  [fileLog]
    holds the requests of the file operations and [notices] the messages
    these methods hand to [showStatus], both in the order of the calls. *)
Record Manager := mkManager {
  engine : State;
  drives : list Drive;
  activeDrive : option Drive;
  selectedItems : list string;
  clipboardItems : list string;
  clipboardOperation : option ClipboardOperation;
  audio : option Looked;
  isPlaying : bool;
  currentFile : option string;
  fileLog : list FileRequest;
  notices : list (Severity * Notice)
}.

(** The constructor, around the engine state. *)
Definition initialManager : Manager := {|
  engine := initialState;
  drives := [];
  activeDrive := None;
  selectedItems := [];
  clipboardItems := [];
  clipboardOperation := None;
  audio := None;
  isPlaying := false;
  currentFile := None;
  fileLog := [];
  notices := []
|}.

Definition set_engine (m : Manager) (st : State) : Manager :=
  mkManager st (drives m) (activeDrive m) (selectedItems m)
    (clipboardItems m) (clipboardOperation m) (audio m) (isPlaying m)
    (currentFile m) (fileLog m) (notices m).

Definition set_drives (m : Manager) (ds : list Drive) : Manager :=
  mkManager (engine m) ds (activeDrive m) (selectedItems m)
    (clipboardItems m) (clipboardOperation m) (audio m) (isPlaying m)
    (currentFile m) (fileLog m) (notices m).

Definition set_activeDrive (m : Manager) (d : option Drive) : Manager :=
  mkManager (engine m) (drives m) d (selectedItems m)
    (clipboardItems m) (clipboardOperation m) (audio m) (isPlaying m)
    (currentFile m) (fileLog m) (notices m).

Definition set_selectedItems (m : Manager) (s : list string) : Manager :=
  mkManager (engine m) (drives m) (activeDrive m) s
    (clipboardItems m) (clipboardOperation m) (audio m) (isPlaying m)
    (currentFile m) (fileLog m) (notices m).

Definition set_clipboard (m : Manager) (items : list string)
  (operation : option ClipboardOperation) : Manager :=
  mkManager (engine m) (drives m) (activeDrive m) (selectedItems m)
    items operation (audio m) (isPlaying m)
    (currentFile m) (fileLog m) (notices m).

Definition set_audioPlayer (m : Manager) (element : option Looked)
  (playing : bool) (file : option string) : Manager :=
  mkManager (engine m) (drives m) (activeDrive m) (selectedItems m)
    (clipboardItems m) (clipboardOperation m) element playing file
    (fileLog m) (notices m).

Definition set_isPlaying (m : Manager) (playing : bool) : Manager :=
  set_audioPlayer m (audio m) playing (currentFile m).

(** A file request leaves. *)
Definition fileCall (m : Manager) (r : FileRequest) : Manager :=
  mkManager (engine m) (drives m) (activeDrive m) (selectedItems m)
    (clipboardItems m) (clipboardOperation m) (audio m) (isPlaying m)
    (currentFile m) (fileLog m ++ [r]) (notices m).

(** [showStatus] called by a method of this part. *)
Definition showNotice (m : Manager) (n : Notice) (sev : Severity) : Manager :=
  mkManager (engine m) (drives m) (activeDrive m) (selectedItems m)
    (clipboardItems m) (clipboardOperation m) (audio m) (isPlaying m)
    (currentFile m) (fileLog m) (notices m ++ [(sev, n)]).

(** [Set.prototype.has], [add] and [delete] on the selection. *)
Definition setHas (s : list string) (x : string) : bool :=
  existsb (String.eqb x) s.

Definition setAdd (s : list string) (x : string) : list string :=
  if setHas s x then s else (s ++ [x])%list.

Definition setDelete (s : list string) (x : string) : list string :=
  filter (fun y => negb (String.eqb x y)) s.

(** [selectSingle(item)], [p] being [item.dataset.path]. *)
Definition selectSingle (m : Manager) (p : string) : Manager :=
  set_selectedItems m (setAdd [] p).

(** [toggleSelection(item)]. *)
Definition toggleSelection (m : Manager) (p : string) : Manager :=
  if setHas (selectedItems m) p
  then set_selectedItems m (setDelete (selectedItems m) p)
  else set_selectedItems m (setAdd (selectedItems m) p).

(** [copySelectedItems()] and [cutSelectedItems()]. *)
Definition copySelectedItems (m : Manager) : Manager :=
  let m := set_clipboard m (selectedItems m) (Some OperationCopy) in
  showNotice m (NoticeCopied (jsLen (clipboardItems m))) SevSuccess.

Definition cutSelectedItems (m : Manager) : Manager :=
  let m := set_clipboard m (selectedItems m) (Some OperationCut) in
  showNotice m (NoticeCut (jsLen (clipboardItems m))) SevSuccess.

(** A [for] loop that awaits one file request per turn inside a [try]:
    the requests leave in order, a rejected one ends the loop with its
    message, and the envelope of a resolved one is not looked at.
    [answers i] is the outcome of the call awaited in turn [i]. *)
Fixpoint awaitEach (m : Manager) (requests : list FileRequest)
  (answers : nat -> ApiResult) (i : nat) : Manager * option string :=
  match requests with
  | [] => (m, None)
  | r :: rest =>
      let m := fileCall m r in
      match answers i with
      | Rejected message => (m, Some message)
      | Resolved _ => awaitEach m rest answers (S i)
      end
  end.

(** The destination that [pasteItems] builds for a source path. *)
Definition destinationOf (current sourcePath : string) : string :=
  current ++ String backslash "" ++ lastSegment backslash sourcePath.

(** The requests of the loop of [pasteItems]; a turn makes none when the
    operation is neither a copy nor a cut. *)
Definition pasteRequests (operation : option ClipboardOperation)
  (current : string) (sources : list string) : list FileRequest :=
  match operation with
  | Some OperationCopy =>
      map (fun s => ReqCopy s (destinationOf current s)) sources
  | Some OperationCut =>
      map (fun s => ReqMove s (destinationOf current s)) sources
  | None => []
  end.

(** The outcome of the [read_binary] call and of [atob] on its data. *)
Inductive Payload := Decodable | Undecodable (thrown : string).

Record BinaryEnvelope := mkBinaryEnvelope {
  binarySuccess : bool;
  binaryData : Payload;
  binaryError : string
}.

Inductive BinaryResult :=
| BinaryRejected (message : string)
| BinaryResolved (env : BinaryEnvelope).

(** [loadAudioFile(path)]; the canvas of the player is in place, so
    drawing the waveform does not throw. *)
Definition loadAudioFile (m : Manager) (p : string) (answer : BinaryResult)
  : Manager :=
  let m := showNotice m NoticeAudioLoading SevLoading in
  let m := fileCall m (ReqReadBinary p) in
  match answer with
  | BinaryRejected message => showNotice m (NoticeAudioError message) SevError
  | BinaryResolved fileData =>
      if negb (binarySuccess fileData)
      then showNotice m (NoticeAudioError (binaryError fileData)) SevError
      else
        match binaryData fileData with
        | Undecodable thrown => showNotice m (NoticeAudioError thrown) SevError
        | Decodable =>
            let mimeType := getMimeTypeFromExtension (extensionOf p) in
            let m := set_audioPlayer m (Some mimeType) false (Some p) in
            showNotice m NoticeAudioLoaded SevSuccess
        end
  end.

(** [togglePlayPause()], [stopAudio()], [closeAudioPlayer()] and the
    listener of the [ended] event. *)
Definition togglePlayPause (m : Manager) : Manager :=
  match audio m with
  | None => m
  | Some _ => set_isPlaying m (negb (isPlaying m))
  end.

Definition stopAudio (m : Manager) : Manager :=
  match audio m with
  | None => m
  | Some _ => set_isPlaying m false
  end.

Definition closeAudioPlayer (m : Manager) : Manager :=
  set_audioPlayer m None false None.

Definition audioEnded (m : Manager) : Manager := set_isPlaying m false.

Section ManagerMethods.
Context `{Collation}.

(** [goUp()]. *)
Definition goUp (st : State) (answer : ApiResult) : State :=
  match currentPath st with
  | None => st
  | Some current =>
      if negb (truthy current) then st
      else
        match getParentPath current with
        | Some parentPath =>
            if truthy parentPath && negb (String.eqb parentPath current)
            then navigateToPath st parentPath true answer
            else st
        | None => st
        end
  end.

(** [navigateToPath] called from this part. *)
Definition navigate (m : Manager) (p : string) (addToHist : bool)
  (answer : ApiResult) : Manager :=
  set_engine m (navigateToPath (engine m) p addToHist answer).

(** [selectDrive(drive)]. *)
Definition selectDrive (m : Manager) (drive : Drive) (answer : ApiResult)
  : Manager :=
  navigate (set_activeDrive m (Some drive)) (drivePath drive) true answer.

(** [goHome()]. *)
Definition goHome (m : Manager) (answer : ApiResult) : Manager :=
  match activeDrive m with
  | Some drive => navigate m (drivePath drive) true answer
  | None => m
  end.

Definition driveLetters : list string := ["C"; "D"; "E"; "F"; "G"; "H"].

Definition driveOf (l : string) : Drive :=
  mkDrive l (l ++ ":" ++ String backslash "").

(** [loadDrives()]; [probe l] is the outcome of the [list] call for the
    root of letter [l], [answer] serves the navigation to the first drive
    found. *)
Definition loadDrives (m : Manager) (probe : string -> ApiResult)
  (answer : ApiResult) : Manager :=
  let m := showNotice m NoticeSearchingDrives SevLoading in
  let m :=
    set_engine m
      (fold_left apiCall
         (map (fun l => ReqList (drivePath (driveOf l))) driveLetters)
         (engine m)) in
  let found :=
    map driveOf
      (filter (fun l => negb (branchFailed (probe l))) driveLetters) in
  let m := set_drives m found in
  let m :=
    match found with
    | first :: _ => selectDrive m first answer
    | [] => m
    end in
  showNotice m (NoticeDrivesFound (jsLen found)) SevSuccess.

(** [pasteItems()]. *)
Definition pasteItems (m : Manager) (answers : nat -> ApiResult)
  (navAnswer : ApiResult) : Manager :=
  match currentPath (engine m) with
  | None => m
  | Some current =>
      if (jsLen (clipboardItems m) =? 0) || negb (truthy current) then m
      else
        let m := showNotice m NoticePasting SevLoading in
        let '(m, failure) :=
          awaitEach m
            (pasteRequests (clipboardOperation m) current (clipboardItems m))
            answers 0 in
        match failure with
        | Some message => showNotice m (NoticePasteError message) SevError
        | None =>
            let m :=
              match clipboardOperation m with
              | Some OperationCut => set_clipboard m [] (clipboardOperation m)
              | _ => m
              end in
            let m := navigate m current false navAnswer in
            showNotice m NoticePasted SevSuccess
        end
  end.

(** [deleteSelectedItems()]; [confirmed] is the answer to the
    confirmation dialog, asked only of a selection that is not empty. *)
Definition deleteSelectedItems (m : Manager) (confirmed : bool)
  (answers : nat -> ApiResult) (navAnswer : ApiResult) : Manager :=
  if jsLen (selectedItems m) =? 0 then m
  else if negb confirmed then m
  else
    let count := jsLen (selectedItems m) in
    let m := showNotice m NoticeDeleting SevLoading in
    let '(m, failure) :=
      awaitEach m (map ReqDelete (selectedItems m)) answers 0 in
    match failure with
    | Some message => showNotice m (NoticeDeleteError message) SevError
    | None =>
        let m := set_selectedItems m [] in
        let m :=
          match currentPath (engine m) with
          | Some current => navigate m current false navAnswer
          | None => m
          end in
        showNotice m (NoticeDeleted count) SevSuccess
    end.

(** [createNewFolder()] and [createNewFile()], which differ in the flag
    [is_directory] and in their messages; [name] is what the prompt
    returns, [None] when it is cancelled. *)
Definition createNew (isDirectory : bool) (m : Manager) (name : option string)
  (answer navAnswer : ApiResult) : Manager :=
  match name, currentPath (engine m) with
  | Some name, Some current =>
      if negb (truthy name) || negb (truthy current) then m
      else
        let target := current ++ String backslash "" ++ name in
        let m := fileCall m (ReqCreate target isDirectory) in
        match answer with
        | Rejected message =>
            showNotice m
              (if isDirectory then NoticeFolderError message
               else NoticeFileError message) SevError
        | Resolved _ =>
            let m := navigate m current false navAnswer in
            showNotice m
              (if isDirectory then NoticeFolderCreated else NoticeFileCreated)
              SevSuccess
        end
  | _, _ => m
  end.

Definition createNewFolder := createNew true.
Definition createNewFile := createNew false.

(** The case ['open'] of [handleContextMenuAction]: the first selected path
    is navigated to when the item collection holds it as a folder.  With
    no item collection the lookup throws and nothing happens. *)
Definition contextMenuOpen (m : Manager) (answer : ApiResult) : Manager :=
  match selectedItems m with
  | selectedPath :: _ =>
      if negb (truthy selectedPath) then m
      else
        match currentItems (engine m) with
        | Some items =>
            match find (fun i => String.eqb (path i) selectedPath) items with
            | Some item =>
                if negb (is_file item) then navigate m selectedPath true answer
                else m
            | None => m
            end
        | None => m
        end
  | [] => m
  end.

(** The [dblclick] listener of a row: [p] and [isFile] are the data of
    the row. *)
Definition doubleClick (m : Manager) (p : string) (isFile : bool)
  (answer : ApiResult) (binary : BinaryResult) : Manager :=
  if isFile then
    if isAudioFile p then loadAudioFile m p binary else m
  else navigate m p true answer.

(** ** Runs of the manager *)

Inductive ManagerOp :=
| OpEngine (op : Op)
| OpUp (answer : ApiResult)
| OpHome (answer : ApiResult)
| OpLoadDrives (probe : string -> ApiResult) (answer : ApiResult)
| OpSelectDrive (drive : Drive) (answer : ApiResult)
| OpSelectSingle (p : string)
| OpToggleSelection (p : string)
| OpCopy
| OpCut
| OpPaste (answers : nat -> ApiResult) (navAnswer : ApiResult)
| OpDelete (confirmed : bool) (answers : nat -> ApiResult)
    (navAnswer : ApiResult)
| OpNewFolder (name : option string) (answer navAnswer : ApiResult)
| OpNewFile (name : option string) (answer navAnswer : ApiResult)
| OpOpen (answer : ApiResult)
| OpDoubleClick (p : string) (isFile : bool) (answer : ApiResult)
    (binary : BinaryResult)
| OpPlayPause
| OpStop
| OpClosePlayer
| OpEnded.

Definition managerStep (m : Manager) (op : ManagerOp) : Manager :=
  match op with
  | OpEngine op => set_engine m (step (engine m) op)
  | OpUp answer => set_engine m (goUp (engine m) answer)
  | OpHome answer => goHome m answer
  | OpLoadDrives probe answer => loadDrives m probe answer
  | OpSelectDrive drive answer => selectDrive m drive answer
  | OpSelectSingle p => selectSingle m p
  | OpToggleSelection p => toggleSelection m p
  | OpCopy => copySelectedItems m
  | OpCut => cutSelectedItems m
  | OpPaste answers navAnswer => pasteItems m answers navAnswer
  | OpDelete confirmed answers navAnswer =>
      deleteSelectedItems m confirmed answers navAnswer
  | OpNewFolder name answer navAnswer =>
      createNewFolder m name answer navAnswer
  | OpNewFile name answer navAnswer => createNewFile m name answer navAnswer
  | OpOpen answer => contextMenuOpen m answer
  | OpDoubleClick p isFile answer binary =>
      doubleClick m p isFile answer binary
  | OpPlayPause => togglePlayPause m
  | OpStop => stopAudio m
  | OpClosePlayer => closeAudioPlayer m
  | OpEnded => audioEnded m
  end.

Definition managerRun (ops : list ManagerOp) (m : Manager) : Manager :=
  fold_left managerStep ops m.

End ManagerMethods.

(** ** Start-up *)

(** The start of the application, [init()]: the connection is checked,
    then the drives are loaded; [health] tells whether the backend answers
    the health check.  The rest of [init] wires the listeners. *)
Definition init `{Collation} (health : bool) (probe : string -> ApiResult)
  (answer : ApiResult) : Manager :=
  loadDrives
    (set_engine initialManager (setConnectionStatus initialState health))
    probe answer.

(** ** Notions of the statements about this part

    The outcomes of the awaited calls of a loop: every one of the first
    [n] resolves, or the one of turn [k] is the first that is rejected. *)
Definition allResolved (answers : nat -> ApiResult) (n : nat) : Prop :=
  forall i, (i < n)%nat -> exists env, answers i = Resolved env.

Definition firstRejected (answers : nat -> ApiResult) (k : nat)
  (message : string) : Prop :=
  allResolved answers k /\ answers k = Rejected message.

(** The probes that [loadDrives] sends. *)
Definition driveProbes : list Request :=
  map (fun l => ReqList (drivePath (driveOf l))) driveLetters.


(** The paths that the engine records are normal forms. *)
Definition canonicalPaths (st : State) : Prop :=
  (forall p, currentPath st = Some p -> normalizePath p = p)
  /\ Forall (fun q => normalizePath q = q) (history st).


(** The operations that act on the selection, on the clipboard and on the
    audio player. *)
Definition actsOnSelection (op : ManagerOp) : bool :=
  match op with
  | OpSelectSingle _ | OpToggleSelection _ | OpDelete _ _ _ => true
  | _ => false
  end.

Definition actsOnClipboard (op : ManagerOp) : bool :=
  match op with
  | OpCopy | OpCut | OpPaste _ _ => true
  | _ => false
  end.

Definition actsOnPlayer (op : ManagerOp) : bool :=
  match op with
  | OpDoubleClick _ _ _ _ | OpPlayPause | OpStop | OpClosePlayer | OpEnded =>
      true
  | _ => false
  end.

(** ** Inputs of the examples of this part *)

(** Fifty visits to distinct directories [C:\d0] .. [C:\d49]. *)
Definition fiftyVisits : State :=
  run (H := codeUnitCollation)
    (map (fun n => OpNavigate ("C:\d" ++ decimal n) (Resolved (okEnvelope [])))
       (seq 0 50))
    onlineState.

(** [C:\a] and [C:\b] are visited, then a refresh empties the cache and
    fails to list [C:\b] again. *)
Definition twoVisitsForgotten : State :=
  run (H := codeUnitCollation)
    [OpNavigate "C:\a" (Resolved (okEnvelope []));
     OpNavigate "C:\b" (Resolved (okEnvelope []));
     OpRefresh (Rejected "timeout")]
    onlineState.

(** An answer of the backend that refuses the operation. *)
Definition refused : ApiResult :=
  Resolved (mkEnvelope false [] "access denied").

(** The manager in [C:\logs] with two files of [C:\a] selected, and the
    same after a cut. *)
Definition twoSelected : Manager :=
  toggleSelection
    (selectSingle (set_engine initialManager inLogs) "C:\a\x.txt")
    "C:\a\y.txt".

Definition cutTwo : Manager := cutSelectedItems twoSelected.

(** The manager after a first visit to [C:\], which lists three entries. *)
Definition visitedRoot : Manager :=
  set_engine initialManager
    (navigateToPath (H := codeUnitCollation) onlineState "C:\" true
       (Resolved (okEnvelope threeEntries))).

(** Only drive [D] answers the probe. *)
Definition onlyD (l : string) : ApiResult :=
  if String.eqb l "D" then Resolved (okEnvelope []) else Rejected "not found".

(** * Properties *)

(** ** Strings *)

Lemma startsWith_spec (s q : string) :
  startsWith s q = true <-> HasPrefix s q.
Proof.
  revert s; induction q as [|b q IH]; intros s; simpl.
  - split; [intros _; now exists s | reflexivity].
  - destruct s as [|a s].
    + split; [discriminate | intros [post E]; discriminate].
    + rewrite andb_true_iff, Ascii.eqb_eq, IH. split.
      * intros [-> [post ->]]. now exists post.
      * intros [post E]. simpl in E. injection E as -> ->.
        split; [reflexivity | now exists post].
Qed.

Lemma includes_spec (s q : string) :
  includes s q = true <-> HasSubstring s q.
Proof.
  induction s as [|a s IH].
  - simpl. rewrite orb_false_r, startsWith_spec. split.
    + intros [post E]. now exists EmptyString, post.
    + intros [[|c pre] [post E]]; [now exists post | discriminate].
  - cbn [includes]. rewrite orb_true_iff, startsWith_spec, IH. split.
    + intros [[post E] | [pre [post E]]].
      * now exists EmptyString, post.
      * exists (String a pre), post. simpl. now rewrite E.
    + intros [[|c pre] [post E]].
      * left. now exists post.
      * right. simpl in E. injection E as -> ->. now exists pre, post.
Qed.

Lemma boundary_spec (n q : string) :
  includes n ("_" ++ q) || includes n ("-" ++ q) || includes n (" " ++ q)
  = true
  <-> HasBoundaryMatch n q.
Proof.
  rewrite !orb_true_iff, !includes_spec. unfold HasSubstring, HasBoundaryMatch.
  simpl. split.
  - intros [[(pre & post & E) | (pre & post & E)] | (pre & post & E)];
      eexists pre, _, post; (split; [|exact E]); unfold isSeparator; auto.
  - intros (pre & c & post & [-> | [-> | ->]] & E); eauto.
Qed.

Lemma isBlank_trimStart (q : string) :
  isBlank q = true -> trimStart q = EmptyString.
Proof.
  induction q as [|c q IH]; simpl; [reflexivity|].
  intros [Hc Hq]%andb_true_iff. now rewrite Hc, IH.
Qed.

Lemma trimEnd_empty_blank (q : string) :
  trimEnd q = EmptyString -> isBlank q = true.
Proof.
  induction q as [|c q IH]; simpl; [reflexivity|].
  destruct (trimEnd q); [|discriminate].
  destruct (isWhiteSpace c); [|discriminate].
  intros _. now rewrite IH.
Qed.

Lemma trimStart_nonblank (q : string) :
  isBlank q = false -> isBlank (trimStart q) = false.
Proof.
  induction q as [|c q IH]; simpl; [discriminate|].
  destruct (isWhiteSpace c) eqn:Hc; simpl; [exact IH|].
  intros _. now rewrite Hc.
Qed.

(** [!query.trim()] holds exactly of the blank queries. *)
Lemma trim_blank (q : string) : truthy (trim q) = negb (isBlank q).
Proof.
  unfold trim. destruct (isBlank q) eqn:B.
  - now rewrite (isBlank_trimStart _ B).
  - apply trimStart_nonblank in B. simpl.
    destruct (trimEnd (trimStart q)) eqn:E; [|reflexivity].
    apply trimEnd_empty_blank in E. congruence.
Qed.

(** ** Sorting *)

Section SortFacts.
Context {A : Type} (compare : A -> A -> Z).

Lemma insertBy_perm (x : A) (l : list A) :
  Permutation (x :: l) (insertBy compare x l).
Proof.
  induction l as [|y l IH]; simpl; [reflexivity|].
  destruct (compare x y >? 0); [|reflexivity].
  rewrite perm_swap. now apply perm_skip.
Qed.

Lemma sortBy_perm (l : list A) : Permutation l (sortBy compare l).
Proof.
  induction l as [|x l IH]; simpl; [reflexivity|].
  rewrite <- insertBy_perm. now apply perm_skip.
Qed.

End SortFacts.

(** Sorting by a key, largest first. *)

Section SortByKey.
Context {A : Type} (key : A -> Z).

Let compare (a b : A) : Z := key b - key a.

Lemma insertBy_sorted (x : A) (l : list A) :
  StronglySorted (fun a b => key b <= key a) l ->
  StronglySorted (fun a b => key b <= key a) (insertBy compare x l).
Proof.
  induction 1 as [|y l Hs IH Hy]; simpl.
  - constructor; constructor.
  - unfold compare at 1. destruct (key y - key x >? 0) eqn:E.
    + constructor; [exact IH|].
      rewrite <- insertBy_perm. constructor; [lia | exact Hy].
    + constructor; [now constructor|].
      constructor; [lia|].
      eapply Forall_impl; [|exact Hy]. simpl. intros; lia.
Qed.

Lemma sortBy_sorted (l : list A) :
  StronglySorted (fun a b => key b <= key a) (sortBy compare l).
Proof.
  induction l as [|x l IH]; simpl; [constructor | now apply insertBy_sorted].
Qed.

Lemma insertBy_stable (s : Z) (x : A) (l : list A) :
  filter (fun a => key a =? s) (insertBy compare x l)
  = filter (fun a => key a =? s) (x :: l).
Proof.
  induction l as [|y l IH]; [reflexivity|].
  cbn [insertBy]. unfold compare at 1.
  destruct (key y - key x >? 0) eqn:E; [|reflexivity].
  cbn [filter] in *. rewrite IH.
  destruct (key x =? s) eqn:Ex, (key y =? s) eqn:Ey; try reflexivity. lia.
Qed.

Lemma sortBy_stable (s : Z) (l : list A) :
  filter (fun a => key a =? s) (sortBy compare l)
  = filter (fun a => key a =? s) l.
Proof.
  induction l as [|x l IH]; [reflexivity|].
  cbn [sortBy fold_right]. fold (sortBy compare l).
  rewrite insertBy_stable. cbn [filter]. now rewrite IH.
Qed.

End SortByKey.

(** ** The insertion-ordered map *)

Section MapFacts.
Context {V : Type}.
Implicit Types (m : JSMap.t V) (k : string) (v : V).

Lemma has_get m k : JSMap.has m k = true <-> exists v, JSMap.get m k = Some v.
Proof.
  induction m as [|[k' v'] m IH]; simpl.
  - split; [discriminate | intros [v E]; discriminate].
  - destruct (String.eqb k' k); simpl; [|exact IH].
    split; [intros _; now exists v' | reflexivity].
Qed.

Lemma has_false_get m k : JSMap.has m k = false <-> JSMap.get m k = None.
Proof.
  induction m as [|[k' v'] m IH]; simpl; [tauto|].
  destruct (String.eqb k' k); simpl; [|exact IH].
  split; discriminate.
Qed.

Lemma keys_set m k v :
  JSMap.keys (JSMap.set m k v)
  = if JSMap.has m k then JSMap.keys m else (JSMap.keys m ++ [k])%list.
Proof.
  unfold JSMap.keys.
  induction m as [|[k' v'] m IH]; simpl; [reflexivity|].
  destruct (String.eqb k' k); simpl; [reflexivity|].
  rewrite IH. now destruct (JSMap.has m k).
Qed.

Lemma set_new m k v :
  JSMap.has m k = false -> JSMap.set m k v = (m ++ [(k, v)])%list.
Proof.
  induction m as [|[k' v'] m IH]; simpl; [reflexivity|].
  destruct (String.eqb k' k); simpl; [discriminate|].
  intros E. now rewrite IH.
Qed.

Lemma size_set m k v :
  JSMap.size (JSMap.set m k v)
  = if JSMap.has m k then JSMap.size m else JSMap.size m + 1.
Proof.
  unfold JSMap.size.
  rewrite <- (length_map fst (JSMap.set m k v)), <- (length_map fst m).
  fold (JSMap.keys (JSMap.set m k v)). fold (JSMap.keys m).
  rewrite keys_set. destruct (JSMap.has m k); [reflexivity|].
  rewrite length_app. simpl. lia.
Qed.

Lemma get_set_same m k v : JSMap.get (JSMap.set m k v) k = Some v.
Proof.
  induction m as [|[k' v'] m IH]; simpl.
  - now rewrite String.eqb_refl.
  - destruct (String.eqb k' k) eqn:E; simpl; now rewrite E.
Qed.

Lemma get_set_other m k k' v :
  k <> k' -> JSMap.get (JSMap.set m k v) k' = JSMap.get m k'.
Proof.
  intros N. induction m as [|[k0 v0] m IH]; simpl.
  - apply String.eqb_neq in N. now rewrite N.
  - destruct (String.eqb k0 k) eqn:E; simpl; [|now rewrite IH].
    apply String.eqb_eq in E. subst k0.
    apply String.eqb_neq in N. now rewrite N.
Qed.

Lemma get_delete_other m k k' :
  k <> k' -> JSMap.get (JSMap.delete m k) k' = JSMap.get m k'.
Proof.
  intros N. induction m as [|[k0 v0] m IH]; simpl; [reflexivity|].
  destruct (String.eqb k0 k) eqn:E; simpl; [|now rewrite IH].
  apply String.eqb_eq in E. subst k0.
  apply String.eqb_neq in N. now rewrite N.
Qed.

Lemma length_delete m k :
  (List.length (JSMap.delete m k) <= List.length m)%nat.
Proof.
  induction m as [|[k' v'] m IH]; simpl; [lia|].
  destruct (String.eqb k' k); simpl; lia.
Qed.

Lemma Forall_set (P : string * V -> Prop) m k v :
  Forall P m -> P (k, v) -> Forall P (JSMap.set m k v).
Proof.
  intros Hm Hk. induction Hm as [|[k' v'] m Hx Hm IH]; simpl.
  - now constructor.
  - destruct (String.eqb k' k) eqn:E; constructor; auto.
    apply String.eqb_eq in E. now subst.
Qed.

Lemma Forall_delete (P : string * V -> Prop) m k :
  Forall P m -> Forall P (JSMap.delete m k).
Proof.
  induction 1 as [|[k' v'] m Hx Hm IH]; simpl; [constructor|].
  destruct (String.eqb k' k); [exact IH | now constructor].
Qed.

Lemma Forall_evictOldest (P : string * V -> Prop) limit m :
  Forall P m -> Forall P (JSMap.evictOldest limit m).
Proof.
  intros Hm. unfold JSMap.evictOldest.
  destruct (JSMap.size m >? limit); [|exact Hm].
  destruct (JSMap.firstKey m); [now apply Forall_delete | exact Hm].
Qed.

(** One insertion followed by the size test never leaves more than
    [limit] entries in a map that held at most [limit]. *)
Lemma size_evictOldest_set limit m k v :
  JSMap.size m <= limit ->
  JSMap.size (JSMap.evictOldest limit (JSMap.set m k v)) <= limit.
Proof.
  intros Hm. unfold JSMap.evictOldest.
  destruct (JSMap.size (JSMap.set m k v) >? limit) eqn:E; [|lia].
  pose proof (size_set m k v) as Hs.
  destruct (JSMap.set m k v) as [|[k0 v0] r] eqn:Es.
  - simpl. unfold JSMap.size in *. simpl in *. lia.
  - cbn [JSMap.firstKey JSMap.keys map hd_error fst JSMap.delete].
    rewrite String.eqb_refl.
    pose proof (length_delete r k0). unfold JSMap.size in *.
    cbn [List.length] in *. destruct (JSMap.has m k); lia.
Qed.

(** Eviction is by insertion order: a new key put into a full map drops
    the head and goes to the end. *)
Lemma evictOldest_set_full limit m k v k0 v0 r :
  m = (k0, v0) :: r -> NoDup (JSMap.keys m) -> JSMap.has m k = false ->
  JSMap.size m = limit ->
  JSMap.evictOldest limit (JSMap.set m k v) = (r ++ [(k, v)])%list.
Proof.
  intros -> Hnd Hk Hsz. rewrite set_new by exact Hk.
  unfold JSMap.evictOldest, JSMap.size in *.
  rewrite length_app. cbn [List.length Nat.add app] in *.
  destruct (Z.gtb_spec (Z.of_nat (S (List.length r + 1))) limit) as [E|E];
    [|exfalso; lia].
  cbn [JSMap.firstKey JSMap.keys map hd_error fst JSMap.delete].
  rewrite String.eqb_refl.
  assert (Hnot : forall x, In x (JSMap.keys (r ++ [(k, v)])%list) -> x <> k0).
  { intros x Hx <-. unfold JSMap.keys in Hx. rewrite map_app in Hx.
    apply in_app_or in Hx. destruct Hx as [Hx | [Hx | []]].
    - inversion Hnd. contradiction.
    - simpl in Hx, Hk. subst x. now rewrite String.eqb_refl in Hk. }
  clear -Hnot. induction (r ++ [(k, v)])%list as [|[k' v'] l IH];
    [reflexivity|].
  simpl. destruct (String.eqb k' k0) eqn:E.
  - apply String.eqb_eq in E. exfalso. apply (Hnot k'); [now left | exact E].
  - f_equal. apply IH. intros x Hx. apply Hnot. now right.
Qed.

End MapFacts.

Lemma has_In_keys {V} (m : JSMap.t V) k :
  JSMap.has m k = true <-> In k (JSMap.keys m).
Proof.
  induction m as [|[k' v'] m IH]; simpl; [split; [discriminate | tauto]|].
  rewrite orb_true_iff, String.eqb_eq, IH. tauto.
Qed.


(** ** Insertion order decides eviction *)

Section BoundedInsertion.
Context {V : Type}.

Lemma skipn_S_tl {A} n (l : list A) : skipn (S n) l = tl (skipn n l).
Proof.
  revert l. induction n as [|n IH]; intros [|x l]; try reflexivity.
  cbn [skipn]. now rewrite <- IH.
Qed.

Lemma NoDup_skipn {A} n (l : list A) : NoDup l -> NoDup (skipn n l).
Proof.
  intros Hl. rewrite <- (firstn_skipn n l) in Hl.
  now apply NoDup_app_remove_l in Hl.
Qed.

Lemma In_skipn {A} n (l : list A) x : In x (skipn n l) -> In x l.
Proof.
  intros Hx. rewrite <- (firstn_skipn n l). apply in_or_app. now right.
Qed.

Lemma putBounded_keys (m : JSMap.t V) k v (capacity : nat) :
  NoDup (JSMap.keys m) -> ~ In k (JSMap.keys m) ->
  (List.length m <= capacity)%nat -> (1 <= capacity)%nat ->
  JSMap.keys (putBounded (Z.of_nat capacity) m (k, v))
  = if (List.length m <? capacity)%nat
    then (JSMap.keys m ++ [k])%list
    else (tl (JSMap.keys m) ++ [k])%list.
Proof.
  intros Hnd Hk Hm Hc.
  assert (JSMap.has m k = false) as Hhas.
  { destruct (JSMap.has m k) eqn:E; [|reflexivity].
    apply has_In_keys in E. contradiction. }
  unfold putBounded. cbn [fst snd].
  destruct (Nat.ltb_spec (List.length m) capacity) as [L|L].
  - rewrite set_new by exact Hhas. unfold JSMap.evictOldest, JSMap.size.
    rewrite length_app. cbn [List.length].
    destruct (Z.gtb_spec (Z.of_nat (List.length m + 1)) (Z.of_nat capacity));
      [lia|].
    unfold JSMap.keys. now rewrite map_app.
  - destruct m as [|[k0 v0] r]; [simpl in L; lia|].
    rewrite (evictOldest_set_full (Z.of_nat capacity) ((k0, v0) :: r) k v
               k0 v0 r eq_refl Hnd Hhas)
      by (unfold JSMap.size; lia).
    unfold JSMap.keys. now rewrite map_app.
Qed.

(** Inserting distinct keys one after the other into an empty cache of
    capacity [capacity] leaves exactly the [capacity] keys inserted last,
    in the order of their insertion. *)
Lemma insertions_keep_most_recent (entries : list (string * V))
  (capacity : nat) :
  (1 <= capacity)%nat -> NoDup (map fst entries) ->
  JSMap.keys
    (fold_left (putBounded (Z.of_nat capacity)) entries JSMap.empty)
  = skipn (List.length entries - capacity) (map fst entries).
Proof.
  intros Hc. induction entries as [|[k v] entries IH] using rev_ind;
    intros Hnd; [reflexivity|].
  rewrite map_app in Hnd. cbn [map fst] in Hnd.
  pose proof (NoDup_app_remove_r _ _ Hnd) as Hnd'.
  assert (~ In k (map fst entries)) as Hk.
  { intros Hin. apply NoDup_remove_2 in Hnd. apply Hnd.
    rewrite app_nil_r. exact Hin. }
  specialize (IH Hnd'). rewrite fold_left_app. cbn [fold_left].
  set (m := fold_left (putBounded (Z.of_nat capacity)) entries JSMap.empty)
    in *.
  assert (List.length m
          = (List.length entries - (List.length entries - capacity))%nat)
    as Hlen.
  { rewrite <- (length_map fst m). fold (JSMap.keys m). rewrite IH.
    now rewrite length_skipn, length_map. }
  rewrite putBounded_keys; [| rewrite IH; now apply NoDup_skipn
                            | rewrite IH; intros Hin;
                              now apply In_skipn in Hin
                            | lia | exact Hc].
  rewrite map_app, length_app. cbn [map fst List.length].
  destruct (Nat.ltb_spec (List.length m) capacity) as [L|L]; rewrite IH.
  - replace (List.length entries - capacity)%nat with 0%nat by lia.
    replace (List.length entries + 1 - capacity)%nat with 0%nat by lia.
    reflexivity.
  - replace (List.length entries + 1 - capacity)%nat
      with (S (List.length entries - capacity)) by lia.
    rewrite skipn_app, skipn_S_tl, length_map.
    replace (S (List.length entries - capacity) - List.length entries)%nat
      with 0%nat by lia.
    reflexivity.
Qed.

End BoundedInsertion.

(** ** Merging the answers of a search *)

Lemma mergeAnswer_branchItems m a :
  mergeAnswer m a = fold_left putItem (branchItems a) m.
Proof.
  destruct a as [msg|d]; simpl; [reflexivity|].
  now destruct (success d).
Qed.

Lemma fold_mergeAnswer results m :
  fold_left mergeAnswer results m
  = fold_left putItem (List.concat (map branchItems results)) m.
Proof.
  revert m; induction results as [|a results IH]; intros m; simpl;
    [reflexivity|].
  now rewrite fold_left_app, IH, mergeAnswer_branchItems.
Qed.



Lemma fold_putItem_keyed items m :
  keyedByPath m -> keyedByPath (fold_left putItem items m).
Proof.
  revert m; induction items as [|item items IH]; intros m Hm; simpl;
    [exact Hm|].
  apply IH. unfold putItem. now apply Forall_set.
Qed.




Lemma existsb_eqb_In x seen :
  existsb (String.eqb x) seen = true <-> In x seen.
Proof.
  rewrite existsb_exists. split.
  - intros (y & Hy & E). apply String.eqb_eq in E. now subst.
  - intros Hx. exists x. split; [exact Hx | apply String.eqb_refl].
Qed.

Lemma firstSeen_ext seen1 seen2 l :
  (forall x, In x seen1 <-> In x seen2) ->
  firstSeen seen1 l = firstSeen seen2 l.
Proof.
  revert seen1 seen2. induction l as [|x l IH]; intros seen1 seen2 Hs;
    [reflexivity|].
  simpl.
  assert (existsb (String.eqb x) seen1 = existsb (String.eqb x) seen2) as ->.
  { apply eq_true_iff_eq. rewrite !existsb_eqb_In. apply Hs. }
  destruct (existsb (String.eqb x) seen2); [now apply IH|].
  f_equal. apply IH. intros y. simpl. rewrite Hs. tauto.
Qed.

Lemma keys_fold_putItem items m :
  JSMap.keys (fold_left putItem items m)
  = (JSMap.keys m ++ firstSeen (JSMap.keys m) (map path items))%list.
Proof.
  revert m. induction items as [|item items IH]; intros m; simpl.
  - now rewrite app_nil_r.
  - rewrite IH. unfold putItem. rewrite keys_set.
    destruct (JSMap.has m (path item)) eqn:E.
    + apply has_In_keys, existsb_eqb_In in E. now rewrite E.
    + assert (existsb (String.eqb (path item)) (JSMap.keys m) = false) as ->.
      { destruct (existsb _ _) eqn:X; [|reflexivity].
        apply existsb_eqb_In, has_In_keys in X. congruence. }
      rewrite <- app_assoc. simpl. do 2 f_equal.
      apply firstSeen_ext. intros x. rewrite in_app_iff. simpl. tauto.
Qed.

(** The merged collection lists the paths in the order in which the
    succeeded branches first name them. *)
Lemma mergeAnswers_order results :
  map path (mergeAnswers results)
  = firstSeen [] (map path (List.concat (map branchItems results))).
Proof.
  unfold mergeAnswers. rewrite fold_mergeAnswer.
  set (items := List.concat (map branchItems results)).
  pose proof (fold_putItem_keyed items JSMap.empty (Forall_nil _)) as Hk.
  change (firstSeen [] (map path items))
    with (JSMap.keys (@JSMap.empty Item)
          ++ firstSeen (JSMap.keys (@JSMap.empty Item)) (map path items))%list.
  rewrite <- (keys_fold_putItem items JSMap.empty).
  unfold JSMap.keys. rewrite map_map. symmetry. apply map_ext_Forall.
  eapply Forall_impl; [|exact Hk]. auto.
Qed.

(** ** Relevance and ranking *)

Lemma append_nil_r (s : string) : s ++ "" = s.
Proof. induction s as [|c s IH]; simpl; [reflexivity | now rewrite IH]. Qed.

Lemma append_assoc (a b c : string) : (a ++ b) ++ c = a ++ (b ++ c).
Proof. induction a as [|x a IH]; simpl; [reflexivity | now rewrite IH]. Qed.

Lemma HasPrefix_HasSubstring n q : HasPrefix n q -> HasSubstring n q.
Proof. intros [post E]. now exists "", post. Qed.

Lemma HasBoundaryMatch_HasSubstring n q :
  HasBoundaryMatch n q -> HasSubstring n q.
Proof.
  intros (pre & c & post & _ & E). exists (pre ++ String c ""), post.
  now rewrite append_assoc.
Qed.

(** The five ways of matching exclude one another. *)
Lemma Matches_functional n q k1 k2 :
  Matches n q k1 -> Matches n q k2 -> k1 = k2.
Proof.
  assert (n = q -> HasPrefix n q) as Hexact
    by (intros ->; exists ""; now rewrite append_nil_r).
  intros M1 M2.
  pose proof (HasPrefix_HasSubstring n q) as Hprefix.
  pose proof (HasBoundaryMatch_HasSubstring n q) as Hboundary.
  destruct M1, M2; try reflexivity; exfalso; tauto.
Qed.

Lemma calculateRelevance_kind (filename query : string) :
  exists k,
    Matches (toLowerCase filename) (toLowerCase query) k
    /\ calculateRelevance filename query = scoreOf k.
Proof.
  unfold calculateRelevance.
  set (n := toLowerCase filename). set (q := toLowerCase query).
  destruct (String.eqb n q) eqn:E1.
  { exists ExactMatch. split; [|reflexivity].
    constructor. now apply String.eqb_eq. }
  apply String.eqb_neq in E1.
  destruct (startsWith n q) eqn:E2.
  { exists PrefixMatch. split; [|reflexivity].
    constructor; [exact E1 | now apply startsWith_spec]. }
  assert (N2 : ~ HasPrefix n q).
  { rewrite <- startsWith_spec. congruence. }
  destruct (includes n ("_" ++ q) || includes n ("-" ++ q)
            || includes n (" " ++ q)) eqn:E3.
  { exists WordBoundaryMatch. split; [|reflexivity].
    constructor; [exact N2 | now apply boundary_spec]. }
  assert (N3 : ~ HasBoundaryMatch n q).
  { rewrite <- boundary_spec. congruence. }
  destruct (includes n q) eqn:E4.
  { exists SubstringMatch. split; [|reflexivity].
    constructor; [exact N2 | exact N3 | now apply includes_spec]. }
  exists NoMatch. split; [|reflexivity].
  constructor. rewrite <- includes_spec. congruence.
Qed.

(** C4.  The relevance of a name for a query is the score of the way the
    lower-cased name matches the lower-cased query: 1000 for equality, 800
    for a prefix, 600 for an occurrence preceded by [_], [-] or a space,
    400 for any other occurrence, 0 for none, and a name matches in one
    of these ways only.  The merged results list
    the paths in the order in which they are first seen; they are ranked
    by a permutation that is sorted by decreasing score and keeps, among
    the items of one score, that order.  For the query [log] the names [log.txt], [catalog.txt],
    [my-log-file.txt], [backlog.txt] come out as [log.txt],
    [my-log-file.txt], [catalog.txt], [backlog.txt]. *)
Theorem relevance_ranking :
  (forall filename query,
      exists k,
        Matches (toLowerCase filename) (toLowerCase query) k
        /\ calculateRelevance filename query = scoreOf k
        /\ forall k',
            Matches (toLowerCase filename) (toLowerCase query) k' -> k' = k)
  /\ (forall query results,
         let merged := mergeAnswers results in
         let ranked := rankResults query merged in
         map path merged
         = firstSeen [] (map path (List.concat (map branchItems results)))
         /\ Permutation merged ranked
         /\ StronglySorted
              (fun a b => relevance query b <= relevance query a) ranked
         /\ forall s,
              filter (fun item => relevance query item =? s) ranked
              = filter (fun item => relevance query item =? s) merged)
  /\ map name
       (rankResults "log"
          (mergeAnswers
             [Resolved
                (okEnvelope
                   (map (fileItem "C:\logs\")
                      ["log.txt"; "catalog.txt"; "my-log-file.txt";
                       "backlog.txt"]))]))
     = ["log.txt"; "my-log-file.txt"; "catalog.txt"; "backlog.txt"].
Proof.
  split.
  { intros filename query.
    destruct (calculateRelevance_kind filename query) as (k & Hk & E).
    exists k. split; [exact Hk | split; [exact E|]].
    intros k' Hk'. exact (Matches_functional _ _ _ _ Hk' Hk). }
  split; [|reflexivity].
  intros query results merged ranked. unfold ranked, rankResults.
  split; [apply mergeAnswers_order|]. split; [|split].
  - apply sortBy_perm.
  - apply (sortBy_sorted (relevance query)).
  - intros s. apply (sortBy_stable (relevance query)).
Qed.

(** ** What each method of the engine touches *)

Section EngineFacts.
Context `{Collation}.

Lemma set_prefetchQueue_same st : set_prefetchQueue st (prefetchQueue st) = st.
Proof. now destruct st. Qed.

Lemma set_history_same st : set_history st (history st) (historyIndex st) = st.
Proof. now destruct st. Qed.

Lemma renderFileList_frame st items :
  renderFileList st items
  = set_display (set_currentItems st (Some items))
      (display (renderFileList st items)).
Proof.
  unfold renderFileList, renderVirtualItems, renderAllItems.
  destruct (jsLen items =? 0); [reflexivity|].
  destruct (View_eqb _ ListView && _); reflexivity.
Qed.

Lemma queuePrefetch_frame st items :
  queuePrefetch st items
  = set_prefetchQueue st (prefetchQueue (queuePrefetch st items)).
Proof.
  unfold queuePrefetch.
  generalize (slice (filter (fun item => negb (is_file item)) items) 0 5).
  intros folders. revert st.
  induction folders as [|folder folders IH]; intros st; simpl.
  - symmetry. apply set_prefetchQueue_same.
  - rewrite IH. destruct (JSMap.has (cache st) (path folder)); reflexivity.
Qed.

Lemma addToHistory_frame st p :
  addToHistory st p
  = set_history st (history (addToHistory st p))
      (historyIndex (addToHistory st p)).
Proof.
  unfold addToHistory.
  repeat match goal with
         | |- context [if ?b then _ else _] => destruct b
         end; simpl; try reflexivity; symmetry; apply set_history_same.
Qed.

(** The three ways [navigateToPath] ends. *)

Lemma navigateToPath_skipped st p addToHist answer :
  truthy p = false \/ isOnline st = false ->
  navigateToPath st p addToHist answer = st.
Proof.
  unfold navigateToPath. intros [-> | ->]; simpl; [reflexivity|].
  now rewrite orb_true_r.
Qed.

Lemma navigateToPath_hit st p addToHist answer d :
  truthy p = true -> isOnline st = true ->
  JSMap.get (cache st) (normalizePath p) = Some d -> success d = true ->
  navigateToPath st p addToHist answer
  = afterSuccess
      (showStatus st (MsgLoadingPath (normalizePath p)) SevLoading)
      (normalizePath p) addToHist d.
Proof.
  intros Hp Ho Hg Hs. unfold navigateToPath, afterSuccess.
  rewrite Hp, Ho. cbn [negb orb]. cbn [showStatus cache]. rewrite Hg.
  rewrite ?Hs. cbn [cache apiCall showStatus]. now rewrite ?Hs.
Qed.

Lemma navigateToPath_fetched st p addToHist d :
  truthy p = true -> isOnline st = true ->
  JSMap.get (cache st) (normalizePath p) = None -> success d = true ->
  navigateToPath st p addToHist (Resolved d)
  = afterSuccess
      (set_cache
         (apiCall (showStatus st (MsgLoadingPath (normalizePath p)) SevLoading)
            (ReqList (normalizePath p)))
         (JSMap.evictOldest 100
            (JSMap.set (cache st) (normalizePath p) d)))
      (normalizePath p) addToHist d.
Proof.
  intros Hp Ho Hg Hs. unfold navigateToPath, afterSuccess.
  rewrite Hp, Ho. cbn [negb orb]. cbn [showStatus cache]. rewrite Hg.
  rewrite ?Hs. cbn [cache apiCall showStatus]. now rewrite ?Hs.
Qed.

Lemma navigateToPath_failed st p addToHist answer :
  truthy p = true -> isOnline st = true ->
  JSMap.get (cache st) (normalizePath p) = None ->
  branchFailed answer = true ->
  navigateToPath st p addToHist answer
  = showStatus
      (apiCall (showStatus st (MsgLoadingPath (normalizePath p)) SevLoading)
         (ReqList (normalizePath p)))
      (MsgNavigationError (failureMessage answer)) SevError.
Proof.
  intros Hp Ho Hg Hf. unfold navigateToPath.
  rewrite Hp, Ho. cbn [negb orb]. cbn [showStatus cache]. rewrite Hg.
  destruct answer as [message|d]; simpl in *; [reflexivity|].
  apply negb_true_iff in Hf. rewrite Hf. cbn iota. now rewrite Hf.
Qed.

(** What the pane shows after [renderFileList] depends on the view and on
    the configuration of the virtual list only. *)
Lemma renderFileList_display st1 st2 items :
  currentView st1 = currentView st2 ->
  virtualScrollThreshold st1 = virtualScrollThreshold st2 ->
  virtualScroll st1 = virtualScroll st2 ->
  display (renderFileList st1 items) = display (renderFileList st2 items).
Proof.
  intros Hv Ht Hs. unfold renderFileList, renderVirtualItems, renderAllItems.
  cbn [set_currentItems currentView virtualScrollThreshold virtualScroll
       currentItems].
  rewrite Hv, Ht, Hs.
  destruct (jsLen items =? 0); [reflexivity|].
  destruct (View_eqb _ ListView && _); reflexivity.
Qed.

End EngineFacts.

Ltac frame_queuePrefetch :=
  match goal with
  | |- context [queuePrefetch ?st ?items] =>
      rewrite (queuePrefetch_frame st items);
      generalize (prefetchQueue (queuePrefetch st items)); intro
  end.

Ltac frame_renderFileList :=
  match goal with
  | |- context [renderFileList ?st ?items] =>
      rewrite (renderFileList_frame st items);
      generalize (display (renderFileList st items)); intro
  end.

Ltac frame_addToHistory :=
  match goal with
  | |- context [addToHistory ?st ?p] =>
      rewrite (addToHistory_frame st p);
      generalize (history (addToHistory st p));
      generalize (historyIndex (addToHistory st p)); intros
  end.

Section NavigationFacts.
Context `{Collation}.

Lemma afterSuccess_shown st p addToHist d :
  currentPath (afterSuccess st p addToHist d) = Some p
  /\ currentItems (afterSuccess st p addToHist d) = Some (data d)
  /\ display (afterSuccess st p addToHist d)
     = display (renderFileList st (data d))
  /\ status (afterSuccess st p addToHist d)
     = Some (SevSuccess, MsgItemCount (jsLen (data d))).
Proof.
  unfold afterSuccess. repeat split.
  - frame_queuePrefetch. frame_renderFileList.
    destruct addToHist; [frame_addToHistory|]; reflexivity.
  - frame_queuePrefetch. frame_renderFileList.
    destruct addToHist; [frame_addToHistory|]; reflexivity.
  - rewrite queuePrefetch_frame. cbn [showStatus set_prefetchQueue display].
    apply renderFileList_display;
      (destruct addToHist; [frame_addToHistory|]; reflexivity).
Qed.

Lemma afterSuccess_kept st p addToHist d :
  isOnline (afterSuccess st p addToHist d) = isOnline st
  /\ cache (afterSuccess st p addToHist d) = cache st
  /\ apiLog (afterSuccess st p addToHist d) = apiLog st
  /\ searchCache (afterSuccess st p addToHist d) = searchCache st
  /\ isSearchMode (afterSuccess st p addToHist d) = isSearchMode st
  /\ currentView (afterSuccess st p addToHist d) = currentView st
  /\ virtualScrollThreshold (afterSuccess st p addToHist d)
     = virtualScrollThreshold st
  /\ virtualScroll (afterSuccess st p addToHist d) = virtualScroll st.
Proof.
  unfold afterSuccess. frame_queuePrefetch. frame_renderFileList.
  destruct addToHist; [frame_addToHistory|]; repeat split.
Qed.

Lemma afterSuccess_history st p addToHist d :
  history (afterSuccess st p addToHist d)
  = (if addToHist then history (addToHistory st p) else history st)
  /\ historyIndex (afterSuccess st p addToHist d)
     = (if addToHist then historyIndex (addToHistory st p)
        else historyIndex st).
Proof.
  unfold afterSuccess. frame_queuePrefetch. frame_renderFileList.
  destruct addToHist; [|split; reflexivity].
  cbn [showStatus set_prefetchQueue set_display set_currentItems history
       historyIndex].
  unfold addToHistory. cbn [set_currentPath history historyIndex].
  repeat match goal with
         | |- context [if ?b then _ else _] => destruct b
         end; split; reflexivity.
Qed.

Lemma get_evictOldest_set {V} (m : JSMap.t V) k v limit :
  JSMap.has m k = false -> 1 <= limit ->
  JSMap.get (JSMap.evictOldest limit (JSMap.set m k v)) k = Some v.
Proof.
  intros Hk Hl. unfold JSMap.evictOldest.
  destruct (Z.gtb_spec (JSMap.size (JSMap.set m k v)) limit) as [E|E];
    [|apply get_set_same].
  rewrite set_new in * by exact Hk.
  destruct m as [|[k0 v0] m].
  - unfold JSMap.size in E. simpl in E. lia.
  - cbn [app JSMap.firstKey JSMap.keys map hd_error fst].
    simpl in Hk. apply orb_false_iff in Hk as [Hk0 Hk].
    rewrite get_delete_other by (now apply String.eqb_neq).
    change ((k0, v0) :: m ++ [(k, v)])%list
      with (((k0, v0) :: m) ++ [(k, v)])%list.
    rewrite <- (set_new ((k0, v0) :: m) k v); [apply get_set_same|].
    simpl. now rewrite Hk0, Hk.
Qed.

Lemma length_spliceFrom {A} (l : list A) (k : Z) :
  -1 <= k - 1 < jsLen l -> jsLen (spliceFrom l k) = k.
Proof.
  unfold spliceFrom, jsLen. intros Hk.
  destruct (Z.ltb_spec k 0); [lia|].
  rewrite length_firstn. lia.
Qed.

Lemma jsLen_app {A} (l1 l2 : list A) : jsLen (l1 ++ l2) = jsLen l1 + jsLen l2.
Proof. unfold jsLen. rewrite length_app. lia. Qed.

Lemma jsLen_tl {A} (l : list A) : 0 < jsLen l -> jsLen (tl l) = jsLen l - 1.
Proof. destruct l; unfold jsLen; cbn [tl List.length]; lia. Qed.

Lemma addToHistory_bounds st p :
  -1 <= historyIndex st < jsLen (history st) /\ jsLen (history st) <= 50 ->
  -1 <= historyIndex (addToHistory st p) < jsLen (history (addToHistory st p))
  /\ jsLen (history (addToHistory st p)) <= 50.
Proof.
  intros [Hi Hl]. unfold addToHistory.
  destruct (match at_index _ _ with Some q => String.eqb q p | None => false
            end); [now split|].
  pose proof (length_spliceFrom (history st) (historyIndex st + 1)) as Hs.
  pose proof (jsLen_app (spliceFrom (history st) (historyIndex st + 1)) [p])
    as Ha.
  change (jsLen [p]) with 1 in Ha.
  destruct (Z.gtb_spec
              (jsLen (spliceFrom (history st) (historyIndex st + 1) ++ [p]))
              50) as [E|E];
    cbn [set_history history historyIndex].
  - rewrite jsLen_tl by lia. lia.
  - lia.
Qed.

(** ** The invariant of the engine *)

Lemma Invariant_same st st' :
  virtualScrollThreshold st' = virtualScrollThreshold st ->
  itemHeight (virtualScroll st') = itemHeight (virtualScroll st) ->
  bufferItems (virtualScroll st') = bufferItems (virtualScroll st) ->
  visibleItems (virtualScroll st') = visibleItems (virtualScroll st) ->
  cache st' = cache st -> searchCache st' = searchCache st ->
  history st' = history st -> historyIndex st' = historyIndex st ->
  Invariant st -> Invariant st'.
Proof.
  intros E1 E2 E3 E0 E4 E5 E6 E7 [I1 I2 I3 I4 I5 I6 I8].
  constructor; congruence.
Qed.

Lemma Invariant_set_cache st c :
  Forall (fun kv => success (snd kv) = true) c ->
  Invariant st -> Invariant (set_cache st c).
Proof. intros Hc [I1 I2 I3 I4 I5 I6 I8]. now constructor. Qed.

Lemma Invariant_initialState : Invariant initialState.
Proof.
  constructor; try reflexivity; [constructor | | | ]; vm_compute;
    intuition discriminate.
Qed.

Lemma get_In {V} (m : JSMap.t V) k v :
  JSMap.get m k = Some v -> exists k', In (k', v) m.
Proof.
  induction m as [|[k0 v0] m IH]; simpl; [discriminate|].
  destruct (String.eqb k0 k).
  - intros [= ->]. exists k0. now left.
  - intros E. destruct (IH E) as [k' Hin]. exists k'. now right.
Qed.

Lemma Invariant_cached st k d :
  Invariant st -> JSMap.get (cache st) k = Some d -> success d = true.
Proof.
  intros [_ _ _ Hc _ _ _] Hg. apply get_In in Hg as [k' Hin].
  rewrite Forall_forall in Hc. exact (Hc _ Hin).
Qed.

Lemma afterSuccess_invariant st p addToHist d :
  Invariant st -> Invariant (afterSuccess st p addToHist d).
Proof.
  intros Hst.
  destruct (afterSuccess_kept st p addToHist d)
    as (_ & Ec & _ & Es & _ & _ & Et & Ev).
  destruct (afterSuccess_history st p addToHist d) as [Eh Ei].
  pose proof (addToHistory_bounds st p (inv_history st Hst)) as Hb.
  destruct Hst as [I1 I2 I3 I4 I5 I6 I8].
  constructor; rewrite ?Et, ?Ev, ?Ec, ?Es; auto.
  rewrite Eh, Ei. now destruct addToHist.
Qed.

Lemma navigateToPath_invariant st p addToHist answer :
  Invariant st -> Invariant (navigateToPath st p addToHist answer).
Proof.
  intros Hst.
  destruct (truthy p) eqn:Hp;
    [|now rewrite navigateToPath_skipped by now left].
  destruct (isOnline st) eqn:Ho;
    [|now rewrite navigateToPath_skipped by now right].
  destruct (JSMap.get (cache st) (normalizePath p)) as [d|] eqn:Hg.
  - rewrite (navigateToPath_hit st p addToHist answer d Hp Ho Hg)
      by (eapply Invariant_cached; eauto).
    apply afterSuccess_invariant.
    eapply Invariant_same; [..|exact Hst]; reflexivity.
  - destruct (branchFailed answer) eqn:Hf.
    + rewrite navigateToPath_failed by assumption.
      eapply Invariant_same; [..|exact Hst]; reflexivity.
    + destruct answer as [message|d]; [discriminate|].
      simpl in Hf. apply negb_false_iff in Hf.
      rewrite navigateToPath_fetched by assumption.
      apply afterSuccess_invariant, Invariant_set_cache.
      * apply Forall_evictOldest, Forall_set; [|exact Hf].
        exact (inv_cache st Hst).
      * eapply Invariant_same; [..|exact Hst]; reflexivity.
Qed.

Lemma prefetchWork_invariant st answer :
  Invariant st -> Invariant (prefetchWork st answer).
Proof.
  intros Hst. unfold prefetchWork, prefetchDirectory.
  destruct (prefetchQueue st) as [|p rest]; [exact Hst|].
  assert (Invariant (apiCall (set_prefetchQueue st rest) (ReqList p)))
    as Hst' by (eapply Invariant_same; [..|exact Hst]; reflexivity).
  destruct answer as [message|d]; [exact Hst'|].
  destruct (success d) eqn:Hs; [|exact Hst'].
  apply Invariant_set_cache; [|exact Hst'].
  apply Forall_set; [|exact Hs]. exact (inv_cache st Hst).
Qed.

Lemma goBack_invariant st answer :
  Invariant st -> Invariant (goBack st answer).
Proof.
  intros Hst. unfold goBack.
  destruct (Z.gtb_spec (historyIndex st) 0) as [E|E]; [|exact Hst].
  assert (Invariant (set_historyIndex st (historyIndex st - 1))) as Hst'.
  { destruct Hst as [I1 I2 I3 I4 I5 [I6 I7] I8].
    constructor; auto. cbn [set_historyIndex set_history history
                            historyIndex]. lia. }
  destruct (at_index _ _); [now apply navigateToPath_invariant | exact Hst'].
Qed.

Lemma goForward_invariant st answer :
  Invariant st -> Invariant (goForward st answer).
Proof.
  intros Hst. unfold goForward.
  destruct (Z.ltb_spec (historyIndex st) (jsLen (history st) - 1)) as [E|E];
    [|exact Hst].
  assert (Invariant (set_historyIndex st (historyIndex st + 1))) as Hst'.
  { destruct Hst as [I1 I2 I3 I4 I5 [I6 I7] I8].
    constructor; auto. cbn [set_historyIndex set_history history
                            historyIndex]. lia. }
  destruct (at_index _ _); [now apply navigateToPath_invariant | exact Hst'].
Qed.

Lemma refreshTree_invariant st answer :
  Invariant st -> Invariant (refreshTree st answer).
Proof.
  intros Hst. unfold refreshTree.
  assert (Invariant (set_cache st JSMap.empty)) as Hst'
    by (apply Invariant_set_cache; [constructor | exact Hst]).
  cbn [set_cache currentPath].
  destruct (currentPath st);
    [now apply navigateToPath_invariant | exact Hst'].
Qed.

Lemma renderFileList_invariant st items :
  Invariant st -> Invariant (renderFileList st items).
Proof.
  intros Hst. rewrite renderFileList_frame.
  eapply Invariant_same; [..|exact Hst]; reflexivity.
Qed.

Lemma performFastSearch_invariant st query navAnswer answers :
  Invariant st -> Invariant (performFastSearch st query navAnswer answers).
Proof.
  intros Hst. unfold performFastSearch.
  destruct (negb (truthy (trim query))).
  - assert (Invariant (set_searchCache (set_isSearchMode st false)
                         JSMap.empty)) as Hst'.
    { destruct Hst as [I1 I2 I3 I4 I5 I6 I8]. constructor; auto.
      vm_compute. discriminate. }
    cbn [set_searchCache set_isSearchMode currentPath].
    destruct (currentPath st);
      [now apply navigateToPath_invariant | exact Hst'].
  - cbv zeta.
    destruct (JSMap.get _ _) as [cachedResults|].
    + eapply Invariant_same;
        [..|apply (renderFileList_invariant
                     (set_searchQuery (set_isSearchMode st true) query)
                     cachedResults);
            eapply Invariant_same; [..|exact Hst]; reflexivity];
        reflexivity.
    + match goal with
      | |- Invariant (showStatus (renderFileList ?st0 ?items) _ _) =>
          apply (Invariant_same (renderFileList st0 items));
            [reflexivity .. | apply renderFileList_invariant]
      end.
      match goal with
      | |- Invariant (set_searchCache ?st0 ?c) =>
          assert (Invariant st0) as Hst0
      end.
      { generalize (searchRequests
                      (showStatus
                         (set_searchQuery (set_isSearchMode st true) query)
                         (MsgSearching query) SevLoading) query).
        intros requests.
        assert (forall st1, Invariant st1 ->
                            Invariant (fold_left apiCall requests st1)) as Hf.
        { induction requests as [|r requests IH]; intros st1 H1; simpl;
            [exact H1|].
          apply IH. eapply Invariant_same; [..|exact H1]; reflexivity. }
        apply Hf. eapply Invariant_same; [..|exact Hst]; reflexivity. }
      destruct Hst0 as [I1 I2 I3 I4 I5 I6 I8]. constructor; auto.
      cbn [set_searchCache searchCache].
      now apply size_evictOldest_set.
Qed.

Lemma step_invariant st op : Invariant st -> Invariant (step st op).
Proof.
  intros Hst. destruct op; simpl.
  - unfold setConnectionStatus.
    destruct (Bool.eqb _ _); [exact Hst|].
    destruct online;
      (eapply Invariant_same; [..|exact Hst]; reflexivity).
  - now apply navigateToPath_invariant.
  - now apply goBack_invariant.
  - now apply goForward_invariant.
  - now apply refreshTree_invariant.
  - now apply performFastSearch_invariant.
  - now apply prefetchWork_invariant.
  - unfold setView. cbn [set_currentView currentItems].
    assert (Invariant (set_currentView st v)) as Hst'
      by (eapply Invariant_same; [..|exact Hst]; reflexivity).
    destruct (currentItems st);
      [now apply renderFileList_invariant | exact Hst'].
  - unfold handleVirtualScroll, renderVirtualItems.
    destruct (currentItems st); [|exact Hst].
    destruct (negb _); [exact Hst|].
    eapply Invariant_same; [..|exact Hst]; reflexivity.
  - unfold handleResize.
    destruct (currentItems st); [|exact Hst].
    destruct (_ && _); [|exact Hst].
    destruct Hst as [I1 I2 I3 I4 I5 I6 I8]. constructor; auto.
    cbn [set_visibleItems virtualScroll visibleItems]. rewrite I2.
    assert (- Z.of_N clientHeight / 36 <= 0)
      by (apply Z.div_le_upper_bound; lia).
    lia.
Qed.

(** Every run from the initial state keeps the invariant: the search
    cache holds at most 50 entries, the history at most 50 paths with its
    index inside, and every cached listing is a successful answer. *)
Lemma run_invariant ops st : Invariant st -> Invariant (run ops st).
Proof.
  revert st. induction ops as [|op ops IH]; intros st Hst; simpl;
    [exact Hst|].
  apply IH. now apply step_invariant.
Qed.

End NavigationFacts.

(** ** Navigation *)

Section NavigationClaims.
Context `{Collation}.

(** C9.  A navigation whose [list] call fails -- the promise is rejected
    (network error, timeout, HTTP status) or the envelope is unsuccessful
    -- leaves the current path, the history and its index, the directory
    cache, the prefetch queue, the item collection, the pane and the
    search cache as they were; when the call went out (non-empty path,
    client online) the request is logged and the status line shows the
    error, and otherwise nothing at all changes. *)
Theorem failed_navigation_keeps_state st p addToHist answer :
  JSMap.has (cache st) (normalizePath p) = false ->
  branchFailed answer = true ->
  let st' := navigateToPath st p addToHist answer in
  currentPath st' = currentPath st
  /\ history st' = history st
  /\ historyIndex st' = historyIndex st
  /\ cache st' = cache st
  /\ prefetchQueue st' = prefetchQueue st
  /\ currentItems st' = currentItems st
  /\ display st' = display st
  /\ searchCache st' = searchCache st
  /\ (if truthy p && isOnline st
      then apiLog st' = (apiLog st ++ [ReqList (normalizePath p)])%list
           /\ status st'
              = Some (SevError, MsgNavigationError (failureMessage answer))
      else st' = st).
Proof.
  intros Hmiss Hfail st'. subst st'.
  apply has_false_get in Hmiss.
  destruct (truthy p) eqn:Hp; cbn [andb];
    [|rewrite navigateToPath_skipped by (now left); now repeat split].
  destruct (isOnline st) eqn:Ho;
    [|rewrite navigateToPath_skipped by (now right); now repeat split].
  rewrite navigateToPath_failed by assumption. now repeat split.
Qed.

Lemma navigateToPath_cached st p addToHist answer d :
  Invariant st -> truthy p = true -> isOnline st = true ->
  JSMap.get (cache st) (normalizePath p) = Some d ->
  apiLog (navigateToPath st p addToHist answer) = apiLog st
  /\ cache (navigateToPath st p addToHist answer) = cache st
  /\ currentPath (navigateToPath st p addToHist answer)
     = Some (normalizePath p)
  /\ currentItems (navigateToPath st p addToHist answer) = Some (data d)
  /\ display (navigateToPath st p addToHist answer)
     = display (renderFileList st (data d)).
Proof.
  intros Hst Hp Ho Hg.
  rewrite (navigateToPath_hit st p addToHist answer d Hp Ho Hg)
    by (eapply Invariant_cached; eauto).
  match goal with
  | |- context [afterSuccess ?s ?q ?f ?d] =>
      destruct (afterSuccess_shown s q f d) as (E1 & E2 & E3 & _);
      destruct (afterSuccess_kept s q f d) as (_ & E4 & E5 & _)
  end.
  rewrite E1, E2, E3, E4, E5. repeat split.
  now apply renderFileList_display.
Qed.

Lemma navigateToPath_listed st p addToHist d :
  truthy p = true -> isOnline st = true ->
  JSMap.has (cache st) (normalizePath p) = false -> success d = true ->
  apiLog (navigateToPath st p addToHist (Resolved d))
  = (apiLog st ++ [ReqList (normalizePath p)])%list
  /\ JSMap.get (cache (navigateToPath st p addToHist (Resolved d)))
       (normalizePath p) = Some d
  /\ isOnline (navigateToPath st p addToHist (Resolved d)) = true
  /\ currentPath (navigateToPath st p addToHist (Resolved d))
     = Some (normalizePath p)
  /\ currentItems (navigateToPath st p addToHist (Resolved d))
     = Some (data d)
  /\ display (navigateToPath st p addToHist (Resolved d))
     = display (renderFileList st (data d)).
Proof.
  intros Hp Ho Hmiss Hs. pose proof Hmiss as Hg. apply has_false_get in Hg.
  rewrite (navigateToPath_fetched st p addToHist d Hp Ho Hg Hs).
  match goal with
  | |- context [afterSuccess ?s ?q ?f ?d] =>
      destruct (afterSuccess_shown s q f d) as (E1 & E2 & E3 & _);
      destruct (afterSuccess_kept s q f d) as (E0 & E4 & E5 & _)
  end.
  rewrite E0, E1, E2, E3, E4, E5. repeat split; try assumption.
  - cbn [set_cache cache]. apply get_evictOldest_set; [exact Hmiss | lia].
  - now apply renderFileList_display.
Qed.

(** C2, as amended.  A navigation to a path whose normalised form is in
    the directory cache sends no request.  When the path is not empty and
    the client is online it makes the cached listing the item collection
    and shows it as [renderFileList] lays it out; an empty path or an
    offline client makes the call a no-op.  From the online initial state,
    after a [list] of [C:\] that returns three entries, a second
    navigation to [C:\] sends nothing more and shows the same three
    entries. *)
Theorem cached_navigation st p addToHist answer :
  Invariant st ->
  JSMap.has (cache st) (normalizePath p) = true ->
  let st' := navigateToPath st p addToHist answer in
  apiLog st' = apiLog st
  /\ cache st' = cache st
  /\ (if truthy p && isOnline st
      then exists d,
          JSMap.get (cache st) (normalizePath p) = Some d
          /\ currentPath st' = Some (normalizePath p)
          /\ currentItems st' = Some (data d)
          /\ display st' = display (renderFileList st (data d))
      else st' = st)
  /\ forall e1 e2 e3 answer2,
      let st1 :=
        navigateToPath onlineState "C:\" true
          (Resolved (okEnvelope [e1; e2; e3])) in
      let st2 := navigateToPath st1 "C:\" true answer2 in
      apiLog st1 = [ReqList "C:\"]
      /\ apiLog st2 = [ReqList "C:\"]
      /\ currentItems st2 = Some [e1; e2; e3]
      /\ display st2 = display st1
      /\ display st1 = Rows false (sortedItems [e1; e2; e3]).
Proof.
  intros Hst Hhit st'. subst st'.
  assert (forall P Q R S : Prop, (P /\ Q /\ R) -> S -> P /\ Q /\ R /\ S)
    as Hsplit by tauto.
  apply Hsplit; clear Hsplit.
  - apply has_get in Hhit as [d Hg].
    destruct (truthy p) eqn:Hp; cbn [andb];
      [|rewrite navigateToPath_skipped by (now left); now repeat split].
    destruct (isOnline st) eqn:Ho;
      [|rewrite navigateToPath_skipped by (now right); now repeat split].
    destruct (navigateToPath_cached st p addToHist answer d Hst Hp Ho Hg)
      as (E1 & E2 & E3 & E4 & E5).
    repeat split; try assumption. exists d. now repeat split.
  - intros e1 e2 e3 answer2 st1 st2.
    destruct (navigateToPath_listed onlineState "C:\" true
                (okEnvelope [e1; e2; e3]) eq_refl eq_refl eq_refl eq_refl)
      as (L1 & L2 & L3 & L4 & L5 & L6).
    fold st1 in L1, L2, L3, L4, L5, L6.
    assert (Invariant st1) as Hst1.
    { apply navigateToPath_invariant.
      eapply Invariant_same; [..|exact Invariant_initialState]; reflexivity. }
    destruct (navigateToPath_cached st1 "C:\" true answer2
                (okEnvelope [e1; e2; e3]) Hst1 eq_refl L3 L2)
      as (E1 & E2 & E3 & E4 & E5).
    fold st2 in E1, E2, E3, E4, E5.
    assert (display st1 = Rows false (sortedItems [e1; e2; e3])) as Hd
      by (rewrite L6; reflexivity).
    repeat split; try assumption.
    + now rewrite E1.
    + rewrite E5, L6. apply renderFileList_display.
      all: unfold st1;
        destruct (afterSuccess_kept
                    (set_cache
                       (apiCall
                          (showStatus onlineState
                             (MsgLoadingPath (normalizePath "C:\"))
                             SevLoading)
                          (ReqList (normalizePath "C:\")))
                       (JSMap.evictOldest 100
                          (JSMap.set (cache onlineState)
                             (normalizePath "C:\")
                             (okEnvelope [e1; e2; e3]))))
                    (normalizePath "C:\") true (okEnvelope [e1; e2; e3]))
          as (_ & _ & _ & _ & _ & K1 & K2 & K3);
        rewrite (navigateToPath_fetched onlineState "C:\" true
                   (okEnvelope [e1; e2; e3]) eq_refl eq_refl eq_refl eq_refl);
        rewrite ?K1, ?K2, ?K3; reflexivity.
Qed.

Lemma navigateToPath_kept st p addToHist answer :
  Invariant st ->
  let st' := navigateToPath st p addToHist answer in
  isOnline st' = isOnline st
  /\ searchCache st' = searchCache st
  /\ isSearchMode st' = isSearchMode st
  /\ currentView st' = currentView st
  /\ virtualScrollThreshold st' = virtualScrollThreshold st
  /\ virtualScroll st' = virtualScroll st
  /\ (addToHist = false ->
      history st' = history st /\ historyIndex st' = historyIndex st).
Proof.
  intros Hst st'. subst st'.
  destruct (truthy p) eqn:Hp;
    [|rewrite navigateToPath_skipped by (now left); now repeat split].
  destruct (isOnline st) eqn:Ho;
    [|rewrite navigateToPath_skipped by (now right); now repeat split].
  destruct (JSMap.get (cache st) (normalizePath p)) as [d|] eqn:Hg;
    [rewrite (navigateToPath_hit st p addToHist answer d Hp Ho Hg)
        by (eapply Invariant_cached; eauto)
    |destruct (branchFailed answer) eqn:Hf;
     [rewrite navigateToPath_failed by assumption; now repeat split
     |destruct answer as [message|d]; [discriminate|];
      simpl in Hf; apply negb_false_iff in Hf;
      rewrite navigateToPath_fetched by assumption]].
  all: match goal with
       | |- context [afterSuccess ?s ?q ?f ?d] =>
           destruct (afterSuccess_kept s q f d)
             as (E0 & _ & _ & E1 & E2 & E3 & E4 & E5);
           destruct (afterSuccess_history s q f d) as (E6 & E7)
       end;
    rewrite E0, E1, E2, E3, E4, E5, E6, E7;
    cbn [showStatus set_cache apiCall isOnline searchCache isSearchMode
         currentView virtualScrollThreshold virtualScroll history
         historyIndex];
    repeat split; try assumption; subst addToHist; reflexivity.
Qed.

Lemma addToHistory_ext st1 st2 p :
  history st1 = history st2 -> historyIndex st1 = historyIndex st2 ->
  history (addToHistory st1 p) = history (addToHistory st2 p)
  /\ historyIndex (addToHistory st1 p) = historyIndex (addToHistory st2 p).
Proof.
  intros Eh Ei. unfold addToHistory. rewrite Eh, Ei.
  repeat match goal with
         | |- context [if ?b then _ else _] => destruct b
         end; split; simpl; congruence.
Qed.

(** A navigation that is let through and answered well, or served from
    the cache, moves the current path and, when asked to, the history. *)
Lemma navigateToPath_done st p addToHist answer :
  Invariant st -> truthy p = true -> isOnline st = true ->
  branchFailed answer = false ->
  let st' := navigateToPath st p addToHist answer in
  currentPath st' = Some (normalizePath p)
  /\ history st'
     = (if addToHist then history (addToHistory st (normalizePath p))
        else history st)
  /\ historyIndex st'
     = (if addToHist then historyIndex (addToHistory st (normalizePath p))
        else historyIndex st).
Proof.
  intros Hst Hp Ho Hf st'. subst st'.
  destruct (JSMap.get (cache st) (normalizePath p)) as [d|] eqn:Hg;
    [rewrite (navigateToPath_hit st p addToHist answer d Hp Ho Hg)
        by (eapply Invariant_cached; eauto)
    |destruct answer as [message|d]; [discriminate|];
     simpl in Hf; apply negb_false_iff in Hf;
     rewrite navigateToPath_fetched by assumption].
  all: match goal with
       | |- context [afterSuccess ?s ?q ?f ?d] =>
           destruct (afterSuccess_shown s q f d) as (E0 & _);
           destruct (afterSuccess_history s q f d) as (E6 & E7);
           destruct (addToHistory_ext s st q eq_refl eq_refl) as (E8 & E9)
       end;
    rewrite E0, E6, E7, E8, E9; repeat split.
Qed.

(** Reading the history. *)

Lemma at_index_bounds {A} (l : list A) i x :
  at_index l i = Some x -> 0 <= i < jsLen l.
Proof.
  unfold at_index, jsLen. destruct (Z.ltb_spec i 0); [discriminate|].
  intros E. assert (nth_error l (Z.to_nat i) <> None) as N by congruence.
  apply nth_error_Some in N. lia.
Qed.

Lemma at_index_app_last {A} (l : list A) x :
  at_index (l ++ [x]) (jsLen l) = Some x.
Proof.
  unfold at_index, jsLen. destruct (Z.ltb_spec (Z.of_nat (List.length l)) 0);
    [lia|].
  rewrite Nat2Z.id, nth_error_app2, Nat.sub_diag by lia. reflexivity.
Qed.

Lemma at_index_app_left {A} (l r : list A) i :
  i < jsLen l -> at_index (l ++ r) i = at_index l i.
Proof.
  unfold at_index, jsLen. intros Hi. destruct (Z.ltb_spec i 0); [reflexivity|].
  apply nth_error_app1. lia.
Qed.

Lemma at_index_spliceFrom {A} (l : list A) k i :
  0 <= k -> i < k -> at_index (spliceFrom l k) i = at_index l i.
Proof.
  unfold at_index, spliceFrom. intros Hk Hi.
  destruct (Z.ltb_spec i 0); [reflexivity|].
  destruct (Z.ltb_spec k 0); [lia|].
  destruct (Z.le_gt_cases k (jsLen l)).
  - rewrite Z.min_l by lia. rewrite nth_error_firstn.
    destruct (Nat.ltb_spec (Z.to_nat i) (Z.to_nat k)); [reflexivity | lia].
  - rewrite Z.min_r by lia. unfold jsLen. rewrite Nat2Z.id.
    now rewrite firstn_all.
Qed.

Lemma at_index_tl {A} (l : list A) i :
  0 <= i -> at_index (tl l) i = at_index l (i + 1).
Proof.
  unfold at_index. intros Hi.
  destruct (Z.ltb_spec i 0); [lia|]. destruct (Z.ltb_spec (i + 1) 0); [lia|].
  replace (Z.to_nat (i + 1)) with (S (Z.to_nat i)) by lia.
  destruct l; [now destruct (Z.to_nat i) | reflexivity].
Qed.

Lemma addToHistory_pushed st p :
  -1 <= historyIndex st < jsLen (history st) ->
  at_index (history st) (historyIndex st) <> Some p ->
  let st' := addToHistory st p in
  historyIndex st' = jsLen (history st') - 1
  /\ at_index (history st') (historyIndex st') = Some p
  /\ forall k, 1 <= k <= 2 -> 0 <= historyIndex st + 1 - k ->
       at_index (history st') (historyIndex st' - k)
       = at_index (history st) (historyIndex st + 1 - k).
Proof.
  intros Hb Hne st'. subst st'. unfold addToHistory.
  destruct (match at_index _ _ with Some q => String.eqb q p | None => false
            end) eqn:E.
  { exfalso. apply Hne. destruct (at_index _ _); [|discriminate].
    apply String.eqb_eq in E. now subst. }
  clear E.
  set (kept := spliceFrom (history st) (historyIndex st + 1)).
  assert (jsLen kept = historyIndex st + 1) as Hk
    by (apply length_spliceFrom; lia).
  assert (jsLen (kept ++ [p]) = historyIndex st + 2) as Hl
    by (rewrite jsLen_app, Hk; unfold jsLen; simpl; lia).
  assert (at_index (kept ++ [p]) (historyIndex st + 1) = Some p) as Hlast
    by (rewrite <- Hk; apply at_index_app_last).
  assert (forall k, 1 <= k -> 0 <= historyIndex st + 1 - k ->
            at_index (kept ++ [p]) (historyIndex st + 1 - k)
            = at_index (history st) (historyIndex st + 1 - k)) as Hold.
  { intros k H1 H2. rewrite at_index_app_left by lia.
    apply at_index_spliceFrom; lia. }
  destruct (Z.gtb_spec (jsLen (kept ++ [p])) 50) as [G|G];
    cbn [set_history history historyIndex].
  - rewrite jsLen_tl by lia. rewrite Hl. split; [lia | split].
    + rewrite at_index_tl by lia.
      replace (historyIndex st + 2 - 1 - 1 + 1) with (historyIndex st + 1)
        by lia.
      exact Hlast.
    + intros k H1 H2. rewrite at_index_tl by lia.
      replace (historyIndex st + 2 - 1 - 1 - k + 1)
        with (historyIndex st + 1 - k) by lia.
      apply Hold; lia.
  - rewrite Hl. split; [lia | split].
    + replace (historyIndex st + 2 - 1) with (historyIndex st + 1) by lia.
      exact Hlast.
    + intros k H1 H2.
      replace (historyIndex st + 2 - 1 - k) with (historyIndex st + 1 - k)
        by lia.
      apply Hold; lia.
Qed.

Lemma addToHistory_current st p :
  -1 <= historyIndex st < jsLen (history st) ->
  at_index (history (addToHistory st p)) (historyIndex (addToHistory st p))
  = Some p.
Proof.
  intros Hb.
  destruct (at_index (history st) (historyIndex st)) as [q|] eqn:E.
  - destruct (String.eqb q p) eqn:Eq.
    + unfold addToHistory. rewrite E, Eq. apply String.eqb_eq in Eq.
      now subst.
    + apply addToHistory_pushed; [exact Hb|]. rewrite E.
      apply String.eqb_neq in Eq. congruence.
  - apply addToHistory_pushed; [exact Hb|]. rewrite E. discriminate.
Qed.

(** Normalising twice is normalising once: a path read back from the
    history or from [currentPath] names the same directory. *)

Lemma replaceSlashes_idem s : replaceSlashes (replaceSlashes s) = replaceSlashes s.
Proof.
  induction s as [|c s IH]; simpl; [reflexivity|]. rewrite IH.
  destruct (Ascii.eqb c slash) eqn:E; [reflexivity | now rewrite E].
Qed.

Lemma replaceSlashes_strip s :
  replaceSlashes s = s ->
  replaceSlashes (stripTrailingBackslashes s) = stripTrailingBackslashes s.
Proof.
  induction s as [|c s IH]; simpl; [reflexivity|].
  intros E. injection E as Ec Es. specialize (IH Es).
  destruct (stripTrailingBackslashes s) as [|c' s'] eqn:S.
  - destruct (Ascii.eqb c backslash); [reflexivity|]. simpl. now rewrite Ec.
  - cbn [replaceSlashes] in *. now rewrite Ec, IH.
Qed.

Lemma stripTrailingBackslashes_idem s :
  stripTrailingBackslashes (stripTrailingBackslashes s)
  = stripTrailingBackslashes s.
Proof.
  induction s as [|c s IH]; simpl; [reflexivity|].
  destruct (stripTrailingBackslashes s) as [|c' s'] eqn:S.
  - destruct (Ascii.eqb c backslash) eqn:E; [reflexivity|]. simpl.
    now rewrite E.
  - cbn [stripTrailingBackslashes] in *. now rewrite IH.
Qed.

Lemma normalizePath_idem p : normalizePath (normalizePath p) = normalizePath p.
Proof.
  unfold normalizePath.
  set (s := stripTrailingBackslashes (replaceSlashes p)).
  assert (replaceSlashes s = s) as Hr
    by (apply replaceSlashes_strip, replaceSlashes_idem).
  assert (stripTrailingBackslashes s = s) as Hs
    by apply stripTrailingBackslashes_idem.
  destruct ((jsLength s =? 2) && endsWithChar s colon) eqn:C.
  - apply andb_true_iff in C as [C1 C2]. apply Z.eqb_eq in C1.
    unfold jsLength in C1. clearbody s.
    destruct s as [|a [|b [|c s]]]; cbn [String.length] in C1; try lia.
    cbn in C2. apply Ascii.eqb_eq in C2. subst b.
    cbn in Hr. injection Hr as Ha.
    cbn. rewrite Ha. reflexivity.
  - now rewrite Hr, Hs, C.
Qed.

Lemma truthy_normalizePath p : truthy (normalizePath p) = true -> truthy p = true.
Proof. destruct p; [discriminate | reflexivity]. Qed.

Lemma at_index_defined {A} (l : list A) i :
  0 <= i < jsLen l -> exists x, at_index l i = Some x.
Proof.
  unfold at_index, jsLen. intros Hi. destruct (Z.ltb_spec i 0); [lia|].
  destruct (nth_error l (Z.to_nat i)) as [x|] eqn:E; [now exists x|].
  apply nth_error_None in E. lia.
Qed.

Lemma Invariant_set_historyIndex st i :
  -1 <= i < jsLen (history st) ->
  Invariant st -> Invariant (set_historyIndex st i).
Proof.
  intros Hi [I1 I2 I3 I4 I5 [I6 I7] I8]. constructor; auto.
Qed.

Lemma goBack_step st answer p :
  historyIndex st > 0 ->
  at_index (history st) (historyIndex st - 1) = Some p ->
  goBack st answer
  = navigateToPath (set_historyIndex st (historyIndex st - 1)) p false answer.
Proof.
  intros Hi Hp. unfold goBack.
  destruct (Z.gtb_spec (historyIndex st) 0); [|lia].
  cbn [set_historyIndex set_history history historyIndex]. now rewrite Hp.
Qed.

Lemma goForward_step st answer p :
  historyIndex st < jsLen (history st) - 1 ->
  at_index (history st) (historyIndex st + 1) = Some p ->
  goForward st answer
  = navigateToPath (set_historyIndex st (historyIndex st + 1)) p false answer.
Proof.
  intros Hi Hp. unfold goForward.
  destruct (Z.ltb_spec (historyIndex st) (jsLen (history st) - 1)); [|lia].
  cbn [set_historyIndex set_history history historyIndex]. now rewrite Hp.
Qed.

(** A recorded navigation that goes through. *)
Lemma navigateToPath_recorded st p answer :
  Invariant st -> isOnline st = true -> truthy p = true ->
  branchFailed answer = false ->
  let st' := navigateToPath st p true answer in
  Invariant st' /\ isOnline st' = true
  /\ currentPath st' = Some (normalizePath p)
  /\ history st' = history (addToHistory st (normalizePath p))
  /\ historyIndex st' = historyIndex (addToHistory st (normalizePath p)).
Proof.
  intros Hst Ho Hp Hf st'. subst st'.
  destruct (navigateToPath_done st p true answer Hst Hp Ho Hf)
    as (E1 & E2 & E3).
  destruct (navigateToPath_kept st p true answer Hst) as (E0 & _).
  refine (conj _ (conj _ (conj E1 (conj E2 E3)))).
  - now apply navigateToPath_invariant.
  - congruence.
Qed.

(** A move along the history that goes through. *)
Lemma navigateToPath_moved st i p answer :
  Invariant st -> isOnline st = true ->
  at_index (history st) i = Some p -> truthy p = true ->
  normalizePath p = p -> branchFailed answer = false ->
  let st' := navigateToPath (set_historyIndex st i) p false answer in
  Invariant st' /\ isOnline st' = true
  /\ currentPath st' = Some p
  /\ history st' = history st /\ historyIndex st' = i.
Proof.
  intros Hst Ho Hi Hp Hn Hf st'. subst st'.
  assert (Invariant (set_historyIndex st i)) as Hst'.
  { apply Invariant_set_historyIndex; [|exact Hst].
    apply at_index_bounds in Hi. lia. }
  destruct (navigateToPath_done (set_historyIndex st i) p false answer
              Hst' Hp Ho Hf) as (E1 & E2 & E3).
  destruct (navigateToPath_kept (set_historyIndex st i) p false answer Hst')
    as (E0 & _).
  refine (conj _ (conj _ (conj _ (conj E2 E3)))).
  - now apply navigateToPath_invariant.
  - rewrite E0. exact Ho.
  - now rewrite E1, Hn.
Qed.

(** C3.  [goBack] and [goForward] move the history index by one when it
    is not at its bound, leave the list of the history as it is and
    navigate, without recording, to the path found at the new index; at
    the bound ([goBack] at the first entry or on an empty history,
    [goForward] at the last entry) they change nothing.  After three
    navigations that go through, to paths [A], [B], [C] whose normal
    forms differ from one to the next, two [goBack]s that go through make
    [A] the current path and a [goForward] then makes it [B]. *)
Theorem history_navigation st answer :
  Invariant st ->
  (if historyIndex st >? 0
   then exists p,
       at_index (history st) (historyIndex st - 1) = Some p
       /\ goBack st answer
          = navigateToPath (set_historyIndex st (historyIndex st - 1)) p
              false answer
       /\ history (goBack st answer) = history st
       /\ historyIndex (goBack st answer) = historyIndex st - 1
   else goBack st answer = st)
  /\ (if historyIndex st <? jsLen (history st) - 1
      then exists p,
          at_index (history st) (historyIndex st + 1) = Some p
          /\ goForward st answer
             = navigateToPath (set_historyIndex st (historyIndex st + 1)) p
                 false answer
          /\ history (goForward st answer) = history st
          /\ historyIndex (goForward st answer) = historyIndex st + 1
      else goForward st answer = st)
  /\ forall A B C a1 a2 a3 a4 a5 a6,
      isOnline st = true ->
      truthy (normalizePath A) = true ->
      truthy (normalizePath B) = true ->
      truthy C = true ->
      normalizePath A <> normalizePath B ->
      normalizePath B <> normalizePath C ->
      existsb branchFailed [a1; a2; a3; a4; a5; a6] = false ->
      let visited :=
        navigateToPath
          (navigateToPath (navigateToPath st A true a1) B true a2)
          C true a3 in
      let back2 := goBack (goBack visited a4) a5 in
      currentPath visited = Some (normalizePath C)
      /\ currentPath back2 = Some (normalizePath A)
      /\ currentPath (goForward back2 a6) = Some (normalizePath B).
Proof.
  intros Hst. split; [|split].
  - destruct (Z.gtb_spec (historyIndex st) 0) as [E|E].
    + destruct (at_index_defined (history st) (historyIndex st - 1))
        as [p Hp]; [pose proof (inv_history st Hst); lia|].
      exists p. rewrite (goBack_step st answer p) by (assumption || lia).
      split; [exact Hp | split; [reflexivity|]].
      apply (navigateToPath_kept (set_historyIndex st (historyIndex st - 1))
               p false answer); [|reflexivity].
      apply Invariant_set_historyIndex; [|exact Hst].
      pose proof (inv_history st Hst). lia.
    + unfold goBack. destruct (Z.gtb_spec (historyIndex st) 0); [lia|].
      reflexivity.
  - destruct (Z.ltb_spec (historyIndex st) (jsLen (history st) - 1))
      as [E|E].
    + destruct (at_index_defined (history st) (historyIndex st + 1))
        as [p Hp]; [pose proof (inv_history st Hst); lia|].
      exists p. rewrite (goForward_step st answer p) by assumption.
      split; [exact Hp | split; [reflexivity|]].
      apply (navigateToPath_kept (set_historyIndex st (historyIndex st + 1))
               p false answer); [|reflexivity].
      apply Invariant_set_historyIndex; [|exact Hst].
      pose proof (inv_history st Hst). lia.
    + unfold goForward.
      destruct (Z.ltb_spec (historyIndex st) (jsLen (history st) - 1));
        [lia | reflexivity].
  - intros A B C a1 a2 a3 a4 a5 a6 Ho HA HB HC HAB HBC Hok.
    cbn [existsb] in Hok. rewrite !orb_false_iff in Hok.
    destruct Hok as (F1 & F2 & F3 & F4 & F5 & F6 & _).
    (* the three visits *)
    destruct (navigateToPath_recorded st A a1 Hst Ho
                (truthy_normalizePath A HA) F1)
      as (I1 & O1 & _ & H1 & X1).
    set (s1 := navigateToPath st A true a1) in *.
    assert (at_index (history s1) (historyIndex s1) = Some (normalizePath A))
      as C1.
    { rewrite H1, X1. apply addToHistory_current.
      pose proof (inv_history st Hst). lia. }
    destruct (navigateToPath_recorded s1 B a2 I1 O1
                (truthy_normalizePath B HB) F2)
      as (I2 & O2 & _ & H2 & X2).
    set (s2 := navigateToPath s1 B true a2) in *.
    destruct (addToHistory_pushed s1 (normalizePath B))
      as (L2 & C2 & P2);
      [pose proof (inv_history s1 I1); lia | rewrite C1; congruence |].
    rewrite <- H2, <- X2 in L2, C2, P2.
    destruct (navigateToPath_recorded s2 C a3 I2 O2 HC F3)
      as (I3 & O3 & K3 & H3 & X3).
    set (s3 := navigateToPath s2 C true a3) in *.
    destruct (addToHistory_pushed s2 (normalizePath C))
      as (L3 & C3 & P3);
      [pose proof (inv_history s2 I2); lia | rewrite C2; congruence |].
    rewrite <- H3, <- X3 in L3, C3, P3.
    pose proof (at_index_bounds _ _ _ C1) as B1.
    pose proof (at_index_bounds _ _ _ C2) as B2.
    assert (at_index (history s2) (historyIndex s2 - 1)
            = Some (normalizePath A)) as D2.
    { rewrite (P2 1) by lia.
      replace (historyIndex s1 + 1 - 1) with (historyIndex s1) by lia.
      exact C1. }
    pose proof (at_index_bounds _ _ _ D2) as B2'.
    assert (at_index (history s3) (historyIndex s3 - 1)
            = Some (normalizePath B)) as D3.
    { rewrite (P3 1) by lia.
      replace (historyIndex s2 + 1 - 1) with (historyIndex s2) by lia.
      exact C2. }
    assert (at_index (history s3) (historyIndex s3 - 2)
            = Some (normalizePath A)) as E3.
    { rewrite (P3 2) by lia.
      replace (historyIndex s2 + 1 - 2) with (historyIndex s2 - 1) by lia.
      exact D2. }
    pose proof (at_index_bounds _ _ _ E3) as B3.
    (* back, back, forward *)
    intros visited back2. subst visited back2.
    rewrite (goBack_step s3 a4 (normalizePath B)) by (assumption || lia).
    destruct (navigateToPath_moved s3 (historyIndex s3 - 1) (normalizePath B)
                a4 I3 O3 D3 HB (normalizePath_idem B) F4)
      as (I4 & O4 & _ & H4 & X4).
    set (s4 := navigateToPath _ (normalizePath B) false a4) in *.
    assert (at_index (history s4) (historyIndex s4 - 1)
            = Some (normalizePath A)) as D4.
    { rewrite H4, X4.
      replace (historyIndex s3 - 1 - 1) with (historyIndex s3 - 2) by lia.
      exact E3. }
    rewrite (goBack_step s4 a5 (normalizePath A)) by (assumption || lia).
    rewrite X4.
    destruct (navigateToPath_moved s4 (historyIndex s3 - 1 - 1)
                (normalizePath A) a5 I4 O4) as (I5 & O5 & K5 & H5 & X5);
      [rewrite X4 in D4; exact D4 | exact HA | apply normalizePath_idem
      | exact F5 |].
    set (s5 := navigateToPath _ (normalizePath A) false a5) in *.
    split; [exact K3 | split; [exact K5|]].
    assert (at_index (history s5) (historyIndex s5 + 1)
            = Some (normalizePath B)) as D5.
    { rewrite H5, X5, H4.
      replace (historyIndex s3 - 1 - 1 + 1) with (historyIndex s3 - 1) by lia.
      exact D3. }
    rewrite (goForward_step s5 a6 (normalizePath B));
      [|rewrite H5, X5, H4; lia | exact D5].
    rewrite X5.
    destruct (navigateToPath_moved s5 (historyIndex s3 - 1 - 1 + 1)
                (normalizePath B) a6 I5 O5) as (_ & _ & K6 & _);
      [rewrite X5 in D5; exact D5 | exact HB | apply normalizePath_idem
      | exact F6 |].
    exact K6.
Qed.

End NavigationClaims.

(** ** Search *)

Section SearchClaims.
Context `{Collation}.

Lemma apiLog_fold_apiCall requests st :
  apiLog (fold_left apiCall requests st) = (apiLog st ++ requests)%list
  /\ searchCache (fold_left apiCall requests st) = searchCache st
  /\ isSearchMode (fold_left apiCall requests st) = isSearchMode st
  /\ currentView (fold_left apiCall requests st) = currentView st
  /\ virtualScrollThreshold (fold_left apiCall requests st)
     = virtualScrollThreshold st
  /\ virtualScroll (fold_left apiCall requests st) = virtualScroll st.
Proof.
  revert st. induction requests as [|r requests IH]; intros st; simpl.
  - now rewrite app_nil_r.
  - destruct (IH (apiCall st r)) as (E1 & E2 & E3 & E4 & E5 & E6).
    rewrite E1, E2, E3, E4, E5, E6.
    cbn [apiCall apiLog searchCache]. now rewrite <- app_assoc.
Qed.


(** What a search that misses its cache does. *)
Lemma performFastSearch_miss st query navAnswer answers :
  isBlank query = false ->
  JSMap.has (searchCache st) (searchCacheKey st query) = false ->
  let results :=
    if jsLength query >? 2 then [fst answers; snd answers]
    else [fst answers] in
  let finalResults := rankResults query (mergeAnswers results) in
  let st' := performFastSearch st query navAnswer answers in
  apiLog st' = (apiLog st ++ searchRequests st query)%list
  /\ currentItems st' = Some finalResults
  /\ display st'
     = display (renderFileList st finalResults)
  /\ status st' = Some (SevSuccess, MsgFound (jsLen finalResults) false)
  /\ searchCache st'
     = JSMap.evictOldest 50
         (JSMap.set (searchCache st) (searchCacheKey st query) finalResults)
  /\ isSearchMode st' = true.
Proof.
  intros Hq Hmiss results finalResults st'. subst st'.
  unfold performFastSearch. rewrite trim_blank, Hq. cbn [negb].
  apply has_false_get in Hmiss. cbv zeta.
  change (searchCacheKey (set_searchQuery (set_isSearchMode st true) query)
            query) with (searchCacheKey st query).
  cbn [set_searchQuery set_isSearchMode searchCache]. rewrite Hmiss.
  change (searchRequests
            (showStatus (set_searchQuery (set_isSearchMode st true) query)
               (MsgSearching query) SevLoading) query)
    with (searchRequests st query).
  assert (firstn (List.length (searchRequests st query))
            [fst answers; snd answers] = results) as ->.
  { unfold results, searchRequests. now destruct (jsLength query >? 2). }
  fold finalResults.
  set (st0 := fold_left apiCall (searchRequests st query) _).
  destruct (apiLog_fold_apiCall (searchRequests st query)
              (showStatus (set_searchQuery (set_isSearchMode st true) query)
                 (MsgSearching query) SevLoading))
    as (E1 & E2 & E3 & E4 & E5 & E6).
  fold st0 in E1, E2, E3, E4, E5, E6.
  cbn [showStatus set_searchQuery set_isSearchMode apiLog searchCache
       isSearchMode currentView virtualScrollThreshold virtualScroll]
    in E1, E2, E3, E4, E5, E6.
  rewrite renderFileList_frame.
  cbn [showStatus set_display set_currentItems set_searchCache apiLog
       currentItems display status searchCache isSearchMode].
  rewrite E1, E2, E3. repeat split.
  apply renderFileList_display;
    cbn [set_searchCache currentView virtualScrollThreshold virtualScroll];
    assumption.
Qed.



End SearchClaims.

(** ** The list pane *)

Section RenderingClaims.
Context `{Collation}.


(** [slice] on a window inside the array. *)
Lemma slice_window {A} (l : list A) startIndex endIndex :
  0 <= startIndex -> 0 <= endIndex <= jsLen l ->
  slice l startIndex endIndex
  = firstn (Z.to_nat (endIndex - startIndex)) (skipn (Z.to_nat startIndex) l).
Proof.
  intros Hs He. unfold slice.
  destruct (Z.ltb_spec startIndex 0); [lia|].
  destruct (Z.ltb_spec endIndex 0); [lia|].
  rewrite (Z.min_l endIndex) by lia.
  destruct (Z.le_gt_cases startIndex (jsLen l)).
  - rewrite Z.min_l by lia.
    destruct (Z.le_gt_cases startIndex endIndex).
    + now rewrite Z.max_l by lia.
    + rewrite Z.max_r by lia.
      replace (Z.to_nat (endIndex - startIndex)) with 0%nat by lia.
      reflexivity.
  - rewrite Z.min_r by lia. unfold jsLen in *.
    rewrite Nat2Z.id, !skipn_all2 by lia. now rewrite !firstn_nil.
Qed.

(** The first window of a long list, as [renderFileList] draws it: it
    starts at the top and holds [visibleItems] rows, without the buffer. *)
Lemma renderFileList_first_window st items :
  currentView st = ListView -> jsLen items > virtualScrollThreshold st ->
  0 < jsLen items ->
  display (renderFileList st items)
  = VirtualRows 0 (slice items 0 (visibleItems (virtualScroll st)))
      ((jsLen items - visibleItems (virtualScroll st))
       * itemHeight (virtualScroll st)).
Proof.
  intros Hv Ht Hl. unfold renderFileList, renderVirtualItems.
  destruct (Z.eqb_spec (jsLen items) 0); [lia|].
  cbn [set_currentItems currentView virtualScrollThreshold virtualScroll
       currentItems]. rewrite Hv.
  destruct (Z.gtb_spec (jsLen items) (virtualScrollThreshold st)); [|lia].
  reflexivity.
Qed.


End RenderingClaims.

(** ** The properties at concrete inputs

    The examples collate by code units. *)

#[local] Existing Instance codeUnitCollation.

Lemma Invariant_onlineState : Invariant onlineState.
Proof.
  eapply Invariant_same; [..|exact Invariant_initialState]; reflexivity.
Qed.

Lemma failed_navigation_keeps_state_witness :
  JSMap.has (cache onlineState) (normalizePath "C:\") = false
  /\ branchFailed (Rejected "timeout") = true
  /\ cache
       (navigateToPath onlineState "C:\" true
          (Rejected "timeout"))
     = cache onlineState
  /\ currentPath
       (navigateToPath onlineState "C:\" true
          (Rejected "timeout"))
     = currentPath onlineState.
Proof.
  split; [reflexivity|]. split; [reflexivity|].
  destruct (failed_navigation_keeps_state
              onlineState "C:\" true (Rejected "timeout") eq_refl eq_refl)
    as (E1 & _ & _ & E2 & _).
  split; [exact E2 | exact E1].
Defined.

(** C2 as stated fails: [C:\] is in the cache, yet with the client offline
    the navigation shows nothing new; the pane keeps the listing of [D:\]
    and the item collection is not the cached one.  The same happens
    online for the empty path when its normal form, the empty path, is in
    the cache. *)
Lemma cached_navigation_counterexample :
  (JSMap.get (cache offlineAfterTwoVisits) (normalizePath "C:\")
   = Some (okEnvelope threeEntries)
   /\ currentItems
        (navigateToPath offlineAfterTwoVisits "C:\"
           true (Resolved (okEnvelope threeEntries)))
      <> Some threeEntries
   /\ display
        (navigateToPath offlineAfterTwoVisits "C:\"
           true (Resolved (okEnvelope threeEntries)))
      = Rows false [fileItem "D:\" "d.txt"])
  /\ (isOnline emptyPathCached = true
      /\ JSMap.get (cache emptyPathCached) (normalizePath "")
         = Some (okEnvelope threeEntries)
      /\ display
           (navigateToPath emptyPathCached ""
              true (Resolved (okEnvelope threeEntries)))
         = Rows false [fileItem "D:\" "d.txt"]).
Proof.
  split; (split; [reflexivity|]); (split; [|reflexivity]).
  - vm_compute. discriminate.
  - reflexivity.
Qed.

Lemma cached_navigation_witness :
  let st :=
    navigateToPath onlineState "C:\" true
      (Resolved (okEnvelope threeEntries)) in
  Invariant st
  /\ JSMap.has (cache st) (normalizePath "C:\") = true
  /\ apiLog (navigateToPath st "C:\" true
               (Rejected "unused"))
     = apiLog st.
Proof.
  intros st.
  assert (Invariant st) as Hi
    by (apply navigateToPath_invariant, Invariant_onlineState).
  split; [exact Hi|]. split; [reflexivity|].
  exact (proj1 (cached_navigation st "C:\" true
                  (Rejected "unused") Hi eq_refl)).
Defined.

Lemma history_navigation_witness :
  let ok := Resolved (okEnvelope []) in
  let visited :=
    navigateToPath
      (navigateToPath (navigateToPath onlineState "C:\a" true ok)
         "C:\b" true ok)
      "C:\c" true ok in
  let back2 := goBack (goBack visited ok) ok in
  Invariant onlineState
  /\ currentPath back2 = Some "C:\a"
  /\ currentPath (goForward back2 ok) = Some "C:\b".
Proof.
  intros ok visited back2. split; [exact Invariant_onlineState|].
  destruct (history_navigation onlineState ok
              Invariant_onlineState) as (_ & _ & Hs).
  destruct (Hs "C:\a" "C:\b" "C:\c" ok ok ok ok ok ok
              eq_refl eq_refl eq_refl eq_refl
              ltac:(vm_compute; discriminate)
              ltac:(vm_compute; discriminate) eq_refl)
    as (_ & E1 & E2).
  split; [exact E1 | exact E2].
Defined.





(** C5, at the input where the code departs from it.  A search for [log]
    in [C:\logs] finds the file [log.txt] and the folder [catalog]; the
    ranking puts [log.txt] (800) before [catalog] (400) and that is the
    item collection, but the pane, drawn by [renderAllItems], shows the
    folder first.  With two files, [log.txt] (800) and [a-log.txt] (600),
    the pane shows them by name, [a-log.txt] first. *)
Theorem search_results_resorted :
  let answers := (Resolved (okEnvelope [logFile; catalogFolder]),
                  Resolved (okEnvelope [])) in
  let answers2 := (Resolved (okEnvelope [logFile; hyphenLogFile]),
                   Resolved (okEnvelope [])) in
  (forall collation : Collation,
      let st' :=
        performFastSearch (H := collation) inLogs "log" (Rejected "")
          answers in
      isSearchMode st' = true
      /\ currentItems st' = Some [logFile; catalogFolder]
      /\ display st' = Rows false [catalogFolder; logFile])
  /\ (let st' := performFastSearch inLogs "log" (Rejected "") answers2 in
      isSearchMode st' = true
      /\ currentItems st' = Some [logFile; hyphenLogFile]
      /\ display st' = Rows false [hyphenLogFile; logFile]).
Proof.
  intros answers answers2. split.
  - intros collation st'. repeat split.
  - repeat split.
Qed.

(** C1, at the input where the code departs from it.  One hundred
    navigations to distinct directories fill the directory cache to its
    limit of 100; the prefetch of a sub-folder then stores a 101st
    entry and evicts nothing, and a later navigation to a new directory
    evicts one entry for the one it adds, so that the cache stays at 101
    entries. *)
Theorem prefetch_overflows_cache :
  JSMap.size (cache (run hundredVisits onlineState)) = 100
  /\ JSMap.size (cache (run hundredVisitsThenPrefetch onlineState)) = 101
  /\ JSMap.size
       (cache
          (run (hundredVisitsThenPrefetch
                ++ [OpNavigate "C:\new" (Resolved (okEnvelope []))])
             onlineState))
     = 101.
Proof. repeat split; vm_compute; reflexivity. Qed.

(** ** The waveform *)

Section Waveform.
Local Open Scope Q_scope.

Lemma Finite_inj a b : Finite a = Finite b -> a = b.
Proof. congruence. Qed.

Lemma fin_nonneg q : 0 <= q -> nonNegative (fin q).
Proof.
  intros Hq. exists (Qred q). split; [reflexivity|]. now rewrite Qred_correct.
Qed.

Lemma isZero_iff q : isZero q = true <-> q == 0.
Proof. apply Qeq_bool_iff. Qed.

Lemma isZero_false q : isZero q = false <-> ~ q == 0.
Proof.
  rewrite <- isZero_iff. destruct (isZero q); split; congruence.
Qed.

Lemma absAt_nonneg rawData k :
  Forall isFiniteNumber rawData -> (k < List.length rawData)%nat ->
  nonNegative (absAt rawData k).
Proof.
  intros Hf Hk. unfold absAt.
  destruct (nth_error rawData k) as [x|] eqn:E.
  - apply nth_error_In in E. rewrite Forall_forall in Hf.
    destruct (Hf x E) as [q ->]. simpl. apply fin_nonneg, Qabs_nonneg.
  - apply nth_error_None in E. lia.
Qed.

Lemma blockSum_nonneg rawData blockStart (js : list nat) a :
  Forall isFiniteNumber rawData -> 0 <= a ->
  (forall j, In j js -> (blockStart + j < List.length rawData)%nat) ->
  nonNegative
    (fold_left (fun sum j => jsAdd sum (absAt rawData (blockStart + j)))
       js (Finite a)).
Proof.
  intros Hf. revert a. induction js as [|j js IH]; intros a Ha Hj; simpl.
  - now exists a.
  - destruct (absAt_nonneg rawData (blockStart + j) Hf) as (q & -> & Hq);
      [apply Hj; now left|].
    simpl. apply IH.
    + rewrite Qred_correct. lra.
    + intros j' Hj'. apply Hj. now right.
Qed.

Lemma blockMean_nonneg rawData blockSize i :
  Forall isFiniteNumber rawData -> (1 <= blockSize)%nat ->
  (blockSize * S i <= List.length rawData)%nat ->
  nonNegative (blockMean rawData blockSize i).
Proof.
  intros Hf Hb Hi. unfold blockMean.
  destruct (blockSum_nonneg rawData (blockSize * i) (seq 0 blockSize) 0 Hf)
    as (s & -> & Hs); [lra | |].
  { intros j Hj. apply in_seq in Hj. nia. }
  assert (0 < inject_Z (Z.of_nat blockSize)) as Hpos.
  { change 0 with (inject_Z 0). rewrite <- Zlt_Qlt. lia. }
  simpl. destruct (isZero (inject_Z (Z.of_nat blockSize))) eqn:Z.
  - apply isZero_iff in Z. lra.
  - apply fin_nonneg, Qle_shift_div_l; [exact Hpos | lra].
Qed.

Lemma downsample_nonneg rawData blockSize samples :
  Forall isFiniteNumber rawData -> (1 <= blockSize)%nat ->
  (blockSize * samples <= List.length rawData)%nat ->
  Forall nonNegative (downsample rawData blockSize samples).
Proof.
  intros Hf Hb Hs. unfold downsample. apply Forall_map, Forall_forall.
  intros i Hi. apply in_seq in Hi. apply blockMean_nonneg; auto. nia.
Qed.

Lemma fold_jsMax2_finite values a :
  Forall isFiniteNumber values ->
  exists m,
    fold_left jsMax2 values (Finite a) = Finite m
    /\ a <= m
    /\ (m = a \/ In (Finite m) values)
    /\ Forall (atMost m) values.
Proof.
  intros Hv. revert a. induction Hv as [|v values [q ->] Hv IH]; intros a.
  - exists a. repeat split; [lra | now left | constructor].
  - simpl. destruct (Qle_bool a q) eqn:C.
    + apply Qle_bool_iff in C.
      destruct (IH q) as (m & E & Hm & Hin & Hall). exists m.
      repeat split; [exact E | lra | right; simpl; destruct Hin as [->|];
                                    auto |].
      constructor; [now exists q | exact Hall].
    + assert (q <= a) as C'.
      { destruct (Qlt_le_dec a q) as [L|L]; [|exact L].
        apply Qlt_le_weak, Qle_bool_iff in L. congruence. }
      destruct (IH a) as (m & E & Hm & Hin & Hall). exists m.
      repeat split; [exact E | exact Hm | destruct Hin; simpl; auto |].
      constructor; [exists q; split; [reflexivity | lra] | exact Hall].
Qed.

(** [Math.max] of a non-empty series of finite values is one of them and
    bounds them all. *)
Lemma jsMax_finite v values :
  Forall isFiniteNumber (v :: values) ->
  exists m,
    jsMax (v :: values) = Finite m
    /\ In (Finite m) (v :: values)
    /\ Forall (atMost m) (v :: values).
Proof.
  intros Hv. inversion Hv as [|? ? [q ->] Hv']; subst.
  unfold jsMax. cbn [fold_left jsMax2].
  destruct (fold_jsMax2_finite values q Hv') as (m & E & Hm & Hin & Hall).
  exists m. repeat split; [exact E | destruct Hin as [->|]; simpl; auto |].
  constructor; [now exists q | exact Hall].
Qed.

Lemma nonNegative_finite values :
  Forall nonNegative values -> Forall isFiniteNumber values.
Proof.
  apply Forall_impl. intros v (q & -> & _). now exists q.
Qed.

(** A series of non-negative values with a positive maximum is scaled
    into [[0, 1]] and reaches 1. *)
Lemma normalizeSeries_loud values :
  Forall nonNegative values -> existsb nonZero values = true ->
  jsMax (normalizeSeries values) = Finite 1
  /\ Forall (fun v => exists q, v = Finite q /\ 0 <= q <= 1)
       (normalizeSeries values).
Proof.
  intros Hnn Hloud.
  destruct values as [|v0 values0]; [discriminate|].
  set (values := v0 :: values0) in *.
  destruct (jsMax_finite v0 values0 (nonNegative_finite _ Hnn))
    as (m & Em & Hin & Hall). fold values in Em, Hin, Hall.
  assert (0 < m) as Hm.
  { apply existsb_exists in Hloud as (v & Hv & Hnz).
    rewrite Forall_forall in Hnn, Hall.
    destruct (Hnn v Hv) as (q & -> & Hq).
    destruct (Hall _ Hv) as (q' & [= <-] & Hqm).
    simpl in Hnz. apply negb_true_iff, isZero_false in Hnz.
    destruct (Qlt_le_dec 0 q) as [L|L]; [lra|].
    exfalso. apply Hnz. lra. }
  assert (isZero m = false) as Zm by (apply isZero_false; lra).
  assert (forall q, Finite q = Finite q -> 0 <= q -> q <= m ->
                    0 <= Qred (q / m) <= 1) as Hscale.
  { intros q _ H0 H1. rewrite Qred_correct. split.
    - apply Qle_shift_div_l; [exact Hm | lra].
    - apply Qle_shift_div_r; [exact Hm | lra]. }
  assert (Forall (fun v => exists q, v = Finite q /\ 0 <= q <= 1)
            (normalizeSeries values)) as Hunit.
  { unfold normalizeSeries. rewrite Em. apply Forall_map, Forall_forall.
    intros v Hv. rewrite Forall_forall in Hnn, Hall.
    destruct (Hnn v Hv) as (q & -> & Hq).
    destruct (Hall _ Hv) as (q' & [= <-] & Hqm).
    simpl. rewrite Zm. exists (Qred (q / m)). split; [reflexivity|].
    now apply Hscale. }
  split; [|exact Hunit].
  assert (In (Finite 1) (normalizeSeries values)) as Hone.
  { unfold normalizeSeries. rewrite Em. apply in_map_iff.
    exists (Finite m). split; [|exact Hin].
    simpl. rewrite Zm. unfold fin. f_equal.
    change 1 with (Qred 1). apply Qred_complete.
    unfold Qdiv. apply Qmult_inv_r. lra. }
  destruct (normalizeSeries values) as [|w ws] eqn:En; [contradiction|].
  assert (Forall isFiniteNumber (w :: ws)) as Hfin.
  { eapply Forall_impl; [|exact Hunit]. intros v (q & -> & _). now exists q. }
  destruct (jsMax_finite w ws Hfin) as (mx & Ex & Hinx & Hallx).
  rewrite Ex. f_equal.
  rewrite Forall_forall in Hunit, Hallx.
  destruct (Hunit _ Hinx) as (q & [= <-] & Hq01).
  destruct (Hallx _ Hone) as (q1 & [= <-] & H1).
  assert (mx == 1) as Hmx by lra.
  (* every value of the series is in lowest terms *)
  assert (Qred mx = mx) as Hred.
  { rewrite <- En in Hinx. unfold normalizeSeries in Hinx. rewrite Em in Hinx.
    apply in_map_iff in Hinx as (v & Ev & Hv).
    rewrite Forall_forall in Hnn. destruct (Hnn v Hv) as (q & -> & _).
    cbn [jsDiv] in Ev. rewrite Zm in Ev. unfold fin in Ev.
    apply Finite_inj in Ev. rewrite <- Ev.
    apply Qred_complete, Qred_correct. }
  rewrite <- Hred. change 1 with (Qred 1). now apply Qred_complete.
Qed.

(** A series of zeros is divided by its maximum, zero: every quotient is
    [NaN]. *)
Lemma normalizeSeries_silent values :
  Forall nonNegative values -> existsb nonZero values = false ->
  normalizeSeries values = repeat NaN (List.length values).
Proof.
  intros Hnn Hsilent.
  destruct values as [|v0 values0]; [reflexivity|].
  set (values := v0 :: values0) in *.
  destruct (jsMax_finite v0 values0 (nonNegative_finite _ Hnn))
    as (m & Em & Hin & _). fold values in Em, Hin.
  assert (forall v, In v values -> exists q, v = Finite q /\ isZero q = true)
    as Hzero.
  { intros v Hv. rewrite Forall_forall in Hnn.
    destruct (Hnn v Hv) as (q & -> & _). exists q. split; [reflexivity|].
    destruct (isZero q) eqn:Z; [reflexivity|].
    assert (existsb nonZero values = true) as C
      by (apply existsb_exists; exists (Finite q); simpl; now rewrite Z).
    congruence. }
  destruct (Hzero _ Hin) as (m' & [= <-] & Zm).
  unfold normalizeSeries. rewrite Em. clearbody values. clear Em Hin Hnn.
  induction values as [|v values IH]; [reflexivity|].
  simpl. destruct (Hzero v (or_introl eq_refl)) as (q & -> & Zq).
  simpl. rewrite Zm, Zq. f_equal. apply IH.
  - simpl in Hsilent. now apply orb_false_iff in Hsilent.
  - intros v' Hv'. apply Hzero. now right.
Qed.

End Waveform.

(** C8, as amended.  [generateRealWaveform] draws, for the left channel
    and for the right one when there is one, the block means of the
    channel divided by their maximum, with the block size of the left
    channel.  For a channel of finite samples that fills its [samples]
    blocks of [blockSize >= 1] samples: when some block mean is not zero,
    the normalised series lies in [[0, 1]] and its maximum is exactly 1;
    when every block mean is zero, the maximum is zero and the division
    is made all the same, so that every value of the series is [NaN] --
    there is no guard and no fallback to zeros.  (Finite values are exact
    rationals here.) *)
Theorem waveform_normalization rawData blockSize samples :
  (1 <= blockSize)%nat ->
  (blockSize * samples <= List.length rawData)%nat ->
  Forall isFiniteNumber rawData ->
  let filteredData := downsample rawData blockSize samples in
  let normalizedData := normalizeSeries filteredData in
  (forall rightData width,
      generateRealWaveform [rawData] width
      = [normalizeSeries
           (downsample rawData (List.length rawData / width) width)]
      /\ generateRealWaveform [rawData; rightData] width
         = [normalizeSeries
              (downsample rawData (List.length rawData / width) width);
            normalizeSeries
              (downsample rightData (List.length rawData / width) width)])
  /\ (if existsb nonZero filteredData
      then jsMax normalizedData = Finite 1
           /\ Forall (fun v => exists q, v = Finite q /\ (0 <= q <= 1)%Q)
                normalizedData
      else normalizedData = repeat NaN samples).
Proof.
  intros Hb Hs Hf filteredData normalizedData.
  split; [intros; split; reflexivity|].
  pose proof (downsample_nonneg rawData blockSize samples Hf Hb Hs) as Hnn.
  fold filteredData in Hnn.
  destruct (existsb nonZero filteredData) eqn:E.
  - now apply normalizeSeries_loud.
  - unfold normalizedData. rewrite normalizeSeries_silent by assumption.
    unfold filteredData, downsample. now rewrite length_map, length_seq.
Qed.

(** C8 as stated fails on silence: four samples of zero drawn on a
    surface two wide give two block means of zero, and the normalised
    series is [NaN], [NaN] rather than two zeros.  It also fails for a
    channel shorter than the surface is wide, whose blocks are empty: one
    sample of one half on a surface two wide gives [NaN], [NaN] as well. *)
Lemma waveform_normalization_counterexample :
  downsample [Finite 0; Finite 0; Finite 0; Finite 0] 2 2
  = [Finite 0; Finite 0]
  /\ generateRealWaveform [[Finite 0; Finite 0; Finite 0; Finite 0]] 2
     = [[NaN; NaN]]
  /\ generateRealWaveform [[Finite 0; Finite 0; Finite 0; Finite 0]] 2
     <> [[Finite 0; Finite 0]]
  /\ generateRealWaveform [[Finite (1 # 2)]] 2 = [[NaN; NaN]].
Proof. repeat split. discriminate. Qed.

Lemma waveform_normalization_witness :
  let rawData :=
    [Finite (1 # 2); Finite (- 1 # 4); Finite 0; Finite (1 # 8)] in
  (1 <= 2)%nat /\ (2 * 2 <= List.length rawData)%nat
  /\ Forall isFiniteNumber rawData
  /\ jsMax (normalizeSeries (downsample rawData 2 2)) = Finite 1.
Proof.
  intros rawData.
  assert (Forall isFiniteNumber rawData) as Hf
    by (repeat constructor; eexists; reflexivity).
  split; [lia|]. split; [simpl; lia|]. split; [exact Hf|].
  exact (proj1 (proj2 (waveform_normalization rawData 2 2
                         ltac:(lia) ltac:(simpl; lia) Hf))).
Defined.

(** * Properties of the rest of the file manager *)

(** ** Canonical paths *)

Lemma lastIndexOfChar_range s c : -1 <= lastIndexOfChar s c < jsLength s.
Proof.
  unfold jsLength. induction s as [|a s IH]; cbn [lastIndexOfChar String.length];
    [lia|].
  cbv zeta. destruct (Z.geb_spec (lastIndexOfChar s c) 0); [lia|].
  destruct (Ascii.eqb a c); lia.
Qed.

Lemma lastIndexOfChar_cons a s c :
  lastIndexOfChar (String a s) c = -1
  <-> Ascii.eqb a c = false /\ lastIndexOfChar s c = -1.
Proof.
  pose proof (lastIndexOfChar_range s c) as R.
  cbn [lastIndexOfChar]. cbv zeta.
  destruct (Z.geb_spec (lastIndexOfChar s c) 0);
    destruct (Ascii.eqb a c); split; try lia; intros [? ?];
    try discriminate; lia.
Qed.

Lemma replaceSlashes_no_slash s : lastIndexOfChar (replaceSlashes s) slash = -1.
Proof.
  induction s as [|c s IH]; simpl; [reflexivity|]. rewrite IH. simpl.
  destruct (Ascii.eqb c slash) eqn:E; [reflexivity | now rewrite E].
Qed.

Lemma strip_no_char s c :
  lastIndexOfChar s c = -1 ->
  lastIndexOfChar (stripTrailingBackslashes s) c = -1.
Proof.
  induction s as [|a s IH]; [reflexivity|].
  intros [E Hs]%lastIndexOfChar_cons. specialize (IH Hs).
  cbn [stripTrailingBackslashes].
  destruct (stripTrailingBackslashes s) as [|b r].
  - destruct (Ascii.eqb a backslash); [reflexivity|].
    now apply lastIndexOfChar_cons.
  - now apply lastIndexOfChar_cons.
Qed.

Lemma lastIndexOfChar_app_absent s c :
  lastIndexOfChar s c = -1 ->
  lastIndexOfChar (s ++ String backslash "") c
  = if Ascii.eqb backslash c then jsLength s else -1.
Proof.
  unfold jsLength.
  induction s as [|a s IH];
    [intros _; simpl; now destruct (Ascii.eqb backslash c)|].
  intros [E Hs]%lastIndexOfChar_cons.
  cbn [append lastIndexOfChar String.length]. cbv zeta.
  rewrite (IH Hs), E. destruct (Ascii.eqb backslash c).
  - destruct (Z.geb_spec (Z.of_nat (String.length s)) 0); lia.
  - reflexivity.
Qed.

Lemma strip_not_trailing s :
  endsWithChar (stripTrailingBackslashes s) backslash = false.
Proof.
  induction s as [|a s IH]; simpl; [reflexivity|].
  destruct (stripTrailingBackslashes s) as [|b r] eqn:S.
  - destruct (Ascii.eqb a backslash) eqn:E; simpl; [reflexivity | exact E].
  - exact IH.
Qed.

Lemma endsWithChar_app s c d :
  endsWithChar (s ++ String c "") d = Ascii.eqb c d.
Proof.
  induction s as [|a s IH]; simpl; [reflexivity|].
  rewrite IH. now destruct s.
Qed.

(** X1.  The normal form of a path that [navigateToPath] computes is
    canonical: normalising twice changes nothing, the result holds no
    forward slash, and it ends with a backslash only when it is a drive
    root of three units. *)
Theorem normalizePath_canonical (p : string) :
  normalizePath (normalizePath p) = normalizePath p
  /\ lastIndexOfChar (normalizePath p) slash = -1
  /\ (endsWithChar (normalizePath p) backslash = true ->
      jsLength (normalizePath p) = 3
      /\ endsWithChar (substringTo (normalizePath p) 2) colon = true).
Proof.
  split; [apply normalizePath_idem|].
  unfold normalizePath.
  set (s := stripTrailingBackslashes (replaceSlashes p)).
  assert (lastIndexOfChar s slash = -1) as Hs
    by apply strip_no_char, replaceSlashes_no_slash.
  assert (endsWithChar s backslash = false) as Ht by apply strip_not_trailing.
  destruct ((jsLength s =? 2) && endsWithChar s colon) eqn:C.
  - apply andb_true_iff in C as [C1 C2]. apply Z.eqb_eq in C1.
    split.
    + rewrite lastIndexOfChar_app_absent by exact Hs. reflexivity.
    + intros _. clearbody s. unfold jsLength in *.
      destruct s as [|a [|b [|c s]]]; cbn [String.length] in C1; try lia.
      split; [reflexivity | exact C2].
  - split; [exact Hs|]. rewrite Ht. discriminate.
Qed.

Section Spelling.
Context `{Collation}.

(** X2.  Two spellings of a directory are one directory to the engine:
    navigating to a path and navigating to its normal form give the same
    state (same request, same cache key, same history entry), as long as
    the normal form is not the empty string. *)
Theorem navigation_respects_spelling (st : State) (p : string)
  (addToHist : bool) (answer : ApiResult)
  (Hp : truthy (normalizePath p) = true) :
  navigateToPath st p addToHist answer
  = navigateToPath st (normalizePath p) addToHist answer.
Proof.
  unfold navigateToPath.
  rewrite Hp, (truthy_normalizePath p Hp), normalizePath_idem. reflexivity.
Qed.

End Spelling.

Lemma navigation_respects_spelling_witness :
  truthy (normalizePath "C:/music//") = true
  /\ navigateToPath onlineState "C:/music//" true
       (Resolved (okEnvelope threeEntries))
     = navigateToPath onlineState "C:\music" true
         (Resolved (okEnvelope threeEntries)).
Proof.
  split; [reflexivity|].
  exact (navigation_respects_spelling onlineState "C:/music//" true
           (Resolved (okEnvelope threeEntries)) eq_refl).
Defined.

(** ** Parent paths *)

Lemma substring_prefix (n : nat) (s : string) :
  (n <= String.length s)%nat ->
  exists r, s = String.substring 0 n s ++ r
            /\ String.length (String.substring 0 n s) = n.
Proof.
  revert s. induction n as [|n IH]; intros s Hn.
  - exists s. now destruct s.
  - destruct s as [|a s]; cbn [String.length] in Hn; [lia|].
    destruct (IH s) as (r & E & L); [lia|].
    exists r. cbn [String.substring append String.length].
    now rewrite <- E, L.
Qed.

Lemma substringTo_prefix (s : string) (n : Z) :
  0 <= n <= jsLength s ->
  jsLength (substringTo s n) = n /\ exists rest, s = substringTo s n ++ rest.
Proof.
  unfold jsLength, substringTo. intros Hn.
  destruct (substring_prefix (Z.to_nat n) s) as (r & E & L); [lia|].
  split; [rewrite L; lia | now exists r].
Qed.

Lemma substring_app_left (s r : string) :
  String.substring 0 (String.length s) (s ++ r) = s.
Proof.
  induction s as [|a s IH]; simpl; [now destruct r|]. now rewrite IH.
Qed.

Lemma length_append (s r : string) :
  String.length (s ++ r) = (String.length s + String.length r)%nat.
Proof. induction s as [|a s IH]; simpl; [reflexivity | now rewrite IH]. Qed.

Lemma lastIndexOfChar_app (s r : string) (c : ascii) :
  lastIndexOfChar (s ++ r) c
  = if lastIndexOfChar r c >=? 0 then jsLength s + lastIndexOfChar r c
    else lastIndexOfChar s c.
Proof.
  unfold jsLength. induction s as [|a s IH].
  - simpl. destruct (Z.geb_spec (lastIndexOfChar r c) 0); [reflexivity|].
    pose proof (lastIndexOfChar_range r c). lia.
  - cbn [append lastIndexOfChar String.length]. cbv zeta. rewrite IH.
    pose proof (lastIndexOfChar_range s c).
    destruct (Z.geb_spec (lastIndexOfChar r c) 0).
    + destruct (Z.geb_spec (Z.of_nat (String.length s) + lastIndexOfChar r c) 0);
        lia.
    + reflexivity.
Qed.

Lemma getParentPath_inside (dir name : string) :
  3 <= jsLength dir ->
  lastIndexOfChar name backslash = -1 -> lastIndexOfChar name slash = -1 ->
  getParentPath (dir ++ String backslash "" ++ name) = Some dir.
Proof.
  intros Hd Hb Hs. unfold getParentPath, jsLength in *.
  assert (truthy (dir ++ String backslash "" ++ name) = true) as ->
    by (destruct dir; [simpl in Hd; lia | reflexivity]).
  rewrite length_append. cbn [append String.length negb orb].
  destruct (Z.leb_spec (Z.of_nat (String.length dir + S (String.length name))) 3);
    [lia|].
  rewrite !lastIndexOfChar_app. unfold jsLength.
  assert (lastIndexOfChar (String backslash name) backslash = 0) as ->
    by (cbn [lastIndexOfChar]; cbv zeta; rewrite Hb; reflexivity).
  assert (lastIndexOfChar (String backslash name) slash = -1) as ->
    by (now apply lastIndexOfChar_cons).
  cbn [Z.geb Z.compare].
  pose proof (lastIndexOfChar_range dir slash) as R. unfold jsLength in R.
  rewrite Z.max_l by lia. rewrite Z.add_0_r.
  destruct (Z.leb_spec (Z.of_nat (String.length dir)) 2); [lia|].
  unfold substringTo. rewrite Nat2Z.id.
  now rewrite (substring_app_left dir (String backslash name)).
Qed.

(** X3.  [getParentPath] gives no parent exactly to the paths of at most
    three units (a drive root, the empty path), and otherwise a proper
    prefix of the path that still holds a drive root: at least three units,
    strictly fewer than the path. *)
Theorem getParentPath_proper_prefix (p : string) :
  (getParentPath p = None <-> jsLength p <= 3)
  /\ forall parent, getParentPath p = Some parent ->
       3 <= jsLength parent < jsLength p
       /\ exists rest, p = parent ++ rest.
Proof.
  unfold getParentPath, jsLength.
  destruct p as [|a p]; [split; [split; [cbn; lia | reflexivity] | discriminate]|].
  cbn [truthy negb orb].
  set (s := String a p).
  destruct (Z.leb_spec (Z.of_nat (String.length s)) 3) as [L|L].
  - split; [tauto | discriminate].
  - pose proof (lastIndexOfChar_range s backslash) as Rb.
    pose proof (lastIndexOfChar_range s slash) as Rs.
    unfold jsLength in *.
    set (lastSlash := Z.max (lastIndexOfChar s backslash)
                        (lastIndexOfChar s slash)) in *.
    assert (lastSlash < Z.of_nat (String.length s)) as Hl
      by (unfold lastSlash; lia).
    clearbody s lastSlash.
    split.
    + split; [|lia]. destruct (lastSlash <=? 2); discriminate.
    + intros parent Hp.
      destruct (Z.leb_spec lastSlash 2) as [E|E]; injection Hp as <-.
      * destruct (substringTo_prefix s 3) as [El Es];
          [unfold jsLength; lia|].
        unfold jsLength in El. split; [lia | exact Es].
      * destruct (substringTo_prefix s lastSlash) as [El Es];
          [unfold jsLength; lia|].
        unfold jsLength in El. split; [lia | exact Es].
Qed.

(** X4.  The parent of a path that names an entry directly inside a
    directory is that directory: [dir\name], for a directory of at least
    three units and a name without separators (the form of the targets
    that [createNewFolder] and [createNewFile] build). *)
Theorem getParentPath_of_child (dir name : string)
  (Hdir : 3 <= jsLength dir)
  (Hname : lastIndexOfChar name backslash = -1
           /\ lastIndexOfChar name slash = -1) :
  getParentPath (dir ++ String backslash "" ++ name) = Some dir.
Proof. destruct Hname. now apply getParentPath_inside. Qed.

Lemma getParentPath_of_child_witness :
  getParentPath ("C:\music" ++ String backslash "" ++ "album.2024")
  = Some "C:\music".
Proof.
  apply (getParentPath_of_child "C:\music" "album.2024");
    [vm_compute; discriminate | split; reflexivity].
Defined.

(** ** Going up *)

Lemma length_replaceSlashes s :
  String.length (replaceSlashes s) = String.length s.
Proof. induction s as [|c s IH]; simpl; [reflexivity | now rewrite IH]. Qed.

Lemma length_stripTrailingBackslashes s :
  (String.length (stripTrailingBackslashes s) <= String.length s)%nat.
Proof.
  induction s as [|c s IH]; simpl; [lia|].
  destruct (stripTrailingBackslashes s) as [|b r].
  - destruct (Ascii.eqb c backslash); simpl; lia.
  - cbn [String.length] in *. lia.
Qed.

Lemma length_normalizePath p :
  3 <= jsLength p -> jsLength (normalizePath p) <= jsLength p.
Proof.
  unfold normalizePath, jsLength. intros Hp.
  pose proof (length_stripTrailingBackslashes (replaceSlashes p)) as L.
  rewrite length_replaceSlashes in L.
  destruct ((_ =? 2) && _) eqn:C; [|lia].
  apply andb_true_iff in C as [C _]. apply Z.eqb_eq in C.
  rewrite length_append. cbn [String.length]. lia.
Qed.

Section GoingUp.
Context `{Collation}.

Lemma navigateToPath_lands st p addToHist answer :
  currentPath (navigateToPath st p addToHist answer) = currentPath st
  \/ currentPath (navigateToPath st p addToHist answer)
     = Some (normalizePath p).
Proof.
  unfold navigateToPath.
  destruct (negb (truthy p) || negb (isOnline st)); [now left|]. cbv zeta.
  assert (forall st0 d,
            currentPath
              (showStatus
                 (queuePrefetch
                    (renderFileList
                       (if addToHist
                        then addToHistory
                               (set_currentPath st0 (Some (normalizePath p)))
                               (normalizePath p)
                        else set_currentPath st0 (Some (normalizePath p)))
                       (data d)) (data d))
                 (MsgItemCount (jsLen (data d))) SevSuccess)
            = Some (normalizePath p)) as Hok.
  { intros st0 d. frame_queuePrefetch. frame_renderFileList.
    destruct addToHist; [frame_addToHistory|]; reflexivity. }
  cbn [showStatus cache].
  destruct (JSMap.get (cache st) (normalizePath p)) as [cached|].
  - destruct (success cached); [right; apply Hok | now left].
  - destruct answer as [message|d]; [now left|].
    destruct (success d) eqn:Hs; [|rewrite Hs; now left].
    rewrite Hs. right. apply Hok.
Qed.

(** X5.  [goUp] never leads to a longer path: from a current path of at
    most three units (a drive root) it does nothing at all, and otherwise
    the current path afterwards is either the one before (the parent could
    not be listed, or the client is offline) or strictly shorter.  So Up can
    succeed at most as many times in a row as the path has units. *)
Theorem goUp_shortens (st : State) (answer : ApiResult) (current : string)
  (Hcurrent : currentPath st = Some current) :
  (jsLength current <= 3 -> goUp st answer = st)
  /\ (currentPath (goUp st answer) = Some current
      \/ exists shorter, currentPath (goUp st answer) = Some shorter
                         /\ jsLength shorter < jsLength current).
Proof.
  unfold goUp. rewrite Hcurrent.
  destruct (getParentPath_proper_prefix current) as [Hnone Hsome].
  destruct (truthy current); cbn [negb]; [|split; [reflexivity | now left]].
  destruct (getParentPath current) as [parent|] eqn:Hp.
  - destruct (Hsome parent eq_refl) as [Hl _].
    split.
    + intros Hc. lia.
    + destruct (_ && _); [|now left].
      destruct (navigateToPath_lands st parent true answer) as [E|E].
      * left. now rewrite E.
      * right. exists (normalizePath parent). split; [exact E|].
        pose proof (length_normalizePath parent). lia.
  - split; [reflexivity | now left].
Qed.

End GoingUp.

Lemma goUp_shortens_witness :
  (jsLength "C:\logs" <= 3 ->
   goUp inLogs (Resolved (okEnvelope [])) = inLogs)
  /\ (currentPath (goUp inLogs (Resolved (okEnvelope []))) = Some "C:\logs"
      \/ exists shorter,
           currentPath (goUp inLogs (Resolved (okEnvelope []))) = Some shorter
           /\ jsLength shorter < jsLength "C:\logs").
Proof.
  exact (goUp_shortens inLogs (Resolved (okEnvelope [])) "C:\logs" eq_refl).
Defined.

(** ** The history *)

Section HistoryFacts.
Context `{Collation}.

Lemma addToHistory_revisit st p :
  at_index (history st) (historyIndex st) = Some p -> addToHistory st p = st.
Proof.
  intros E. unfold addToHistory. rewrite E, String.eqb_refl. reflexivity.
Qed.

Lemma addToHistory_fresh st p :
  at_index (history st) (historyIndex st) <> Some p ->
  addToHistory st p
  = let h := (spliceFrom (history st) (historyIndex st + 1) ++ [p])%list in
    if jsLen h >? 50 then set_history st (tl h) (jsLen h - 1 - 1)
    else set_history st h (jsLen h - 1).
Proof.
  intros E. unfold addToHistory.
  destruct (at_index (history st) (historyIndex st)) as [q|]; [|reflexivity].
  destruct (String.eqb_spec q p); [congruence | reflexivity].
Qed.

(** X6.  A recorded navigation to a directory other than the current
    history entry makes that directory the last entry of the history: the
    entries that Forward could reach are dropped, and [goForward] after it
    does nothing. *)
Theorem navigation_drops_forward_history (st : State) (p : string)
  (answer : ApiResult)
  (Hinv : Invariant st) (Honline : isOnline st = true)
  (Hp : truthy p = true) (Hanswer : branchFailed answer = false)
  (Hnew : at_index (history st) (historyIndex st) <> Some (normalizePath p)) :
  let st' := navigateToPath st p true answer in
  historyIndex st' = jsLen (history st') - 1
  /\ at_index (history st') (historyIndex st') = Some (normalizePath p)
  /\ forall answer', goForward st' answer' = st'.
Proof.
  intros st'.
  destruct (navigateToPath_recorded st p answer Hinv Honline Hp Hanswer)
    as (_ & _ & _ & Eh & Ei).
  fold st' in Eh, Ei.
  destruct (addToHistory_pushed st (normalizePath p)
              (proj1 (inv_history st Hinv)) Hnew) as (E1 & E2 & _).
  rewrite <- Eh, <- Ei in E1, E2.
  split; [exact E1|]. split; [exact E2|].
  intros answer'. unfold goForward. rewrite E1.
  destruct (Z.ltb_spec (jsLen (history st') - 1) (jsLen (history st') - 1));
    [lia | reflexivity].
Qed.

(** X7.  A recorded navigation to the directory of the current history
    entry records nothing: the history and its index stay as they are
    (so reloading a directory by its address does not grow the history). *)
Theorem revisit_is_not_recorded (st : State) (p : string) (answer : ApiResult)
  (Hinv : Invariant st) (Honline : isOnline st = true)
  (Hp : truthy p = true) (Hanswer : branchFailed answer = false)
  (Hsame : at_index (history st) (historyIndex st) = Some (normalizePath p)) :
  let st' := navigateToPath st p true answer in
  history st' = history st /\ historyIndex st' = historyIndex st
  /\ currentPath st' = Some (normalizePath p).
Proof.
  intros st'.
  destruct (navigateToPath_recorded st p answer Hinv Honline Hp Hanswer)
    as (_ & _ & Ec & Eh & Ei).
  fold st' in Ec, Eh, Ei.
  rewrite (addToHistory_revisit st _ Hsame) in Eh, Ei. auto.
Qed.

(** X8.  The history is a window of the last fifty directories: when it
    holds fifty entries and the index is at its end, a recorded navigation
    to a new directory drops the oldest entry, appends the new one and
    leaves the index at 49. *)
Theorem history_drops_oldest (st : State) (p : string) (answer : ApiResult)
  (Hinv : Invariant st) (Honline : isOnline st = true)
  (Hp : truthy p = true) (Hanswer : branchFailed answer = false)
  (Hfull : jsLen (history st) = 50 /\ historyIndex st = 49)
  (Hnew : at_index (history st) (historyIndex st) <> Some (normalizePath p)) :
  let st' := navigateToPath st p true answer in
  history st' = (tl (history st) ++ [normalizePath p])%list
  /\ historyIndex st' = 49.
Proof.
  intros st'. destruct Hfull as [Hlen Hidx].
  destruct (navigateToPath_recorded st p answer Hinv Honline Hp Hanswer)
    as (_ & _ & _ & Eh & Ei).
  fold st' in Eh, Ei. rewrite Eh, Ei.
  rewrite (addToHistory_fresh st _ Hnew). cbv zeta.
  assert (spliceFrom (history st) (historyIndex st + 1) = history st) as ->.
  { unfold spliceFrom. rewrite Hidx, Hlen. cbn. unfold jsLen in Hlen.
    apply firstn_all2. lia. }
  rewrite jsLen_app. change (jsLen [normalizePath p]) with 1. rewrite Hlen.
  cbn [Z.add Z.gtb Z.compare Pos.add Pos.succ Pos.compare Pos.compare_cont].
  cbn [set_history history historyIndex]. split; [|reflexivity].
  destruct (history st); [discriminate | reflexivity].
Qed.

(** X9.  A Back that fails is not undone: when the entry before the
    current one is not in the cache and cannot be listed, [goBack] leaves
    the current path, the item collection and the pane as they are, yet
    the history index has moved back by one, so the index no longer points
    at the directory on display. *)
Theorem failed_back_moves_index (st : State) (p : string) (answer : ApiResult)
  (Honline : isOnline st = true)
  (Hindex : historyIndex st > 0)
  (Hentry : at_index (history st) (historyIndex st - 1) = Some p)
  (Hp : truthy p = true)
  (Hmiss : JSMap.get (cache st) (normalizePath p) = None)
  (Hfailed : branchFailed answer = true) :
  let st' := goBack st answer in
  historyIndex st' = historyIndex st - 1
  /\ history st' = history st
  /\ currentPath st' = currentPath st
  /\ currentItems st' = currentItems st
  /\ display st' = display st
  /\ status st'
     = Some (SevError, MsgNavigationError (failureMessage answer)).
Proof.
  intros st'. unfold st'.
  rewrite (goBack_step st answer p Hindex Hentry).
  rewrite navigateToPath_failed by assumption.
  repeat split.
Qed.

End HistoryFacts.

Lemma Invariant_run_onlineState ops : Invariant (run ops onlineState).
Proof. apply run_invariant, Invariant_onlineState. Qed.

Lemma navigation_drops_forward_history_witness :
  let st := goBack twoVisitsForgotten (Resolved (okEnvelope [])) in
  let st' := navigateToPath st "C:\c" true (Resolved (okEnvelope [])) in
  history st = ["C:\a"; "C:\b"] /\ historyIndex st = 0
  /\ history st' = ["C:\a"; "C:\c"]
  /\ goForward st' (Resolved (okEnvelope [])) = st'.
Proof.
  intros st st'.
  split; [reflexivity|]. split; [reflexivity|]. split; [reflexivity|].
  assert (Invariant st) as Hi
    by (apply goBack_invariant, Invariant_run_onlineState).
  refine (proj2 (proj2 (navigation_drops_forward_history st "C:\c"
                         (Resolved (okEnvelope [])) Hi eq_refl eq_refl eq_refl _))
            (Resolved (okEnvelope []))).
  vm_compute. discriminate.
Defined.

Lemma revisit_is_not_recorded_witness :
  let st' :=
    navigateToPath fiftyVisits "C:/d49/" true (Resolved (okEnvelope [])) in
  history st' = history fiftyVisits
  /\ historyIndex st' = historyIndex fiftyVisits
  /\ currentPath st' = Some (normalizePath "C:/d49/").
Proof.
  apply (revisit_is_not_recorded fiftyVisits "C:/d49/" (Resolved (okEnvelope [])));
    try reflexivity.
  apply Invariant_run_onlineState.
Defined.

Lemma history_drops_oldest_witness :
  let st' :=
    navigateToPath fiftyVisits "C:\d50" true (Resolved (okEnvelope [])) in
  history st' = (tl (history fiftyVisits) ++ [normalizePath "C:\d50"])%list
  /\ historyIndex st' = 49.
Proof.
  apply (history_drops_oldest fiftyVisits "C:\d50" (Resolved (okEnvelope [])));
    try reflexivity.
  - apply Invariant_run_onlineState.
  - split; reflexivity.
  - vm_compute. discriminate.
Defined.

Lemma failed_back_moves_index_witness :
  let st' := goBack twoVisitsForgotten (Rejected "timeout") in
  historyIndex st' = historyIndex twoVisitsForgotten - 1
  /\ history st' = history twoVisitsForgotten
  /\ currentPath st' = currentPath twoVisitsForgotten
  /\ currentItems st' = currentItems twoVisitsForgotten
  /\ display st' = display twoVisitsForgotten
  /\ status st'
     = Some (SevError, MsgNavigationError (failureMessage (Rejected "timeout"))).
Proof.
  apply (failed_back_moves_index twoVisitsForgotten "C:\a" (Rejected "timeout"));
    reflexivity.
Defined.

(** ** Prefetching and refreshing *)

Section PrefetchFacts.
Context `{Collation}.

Lemma slice_prefix {A} (l : list A) (n : Z) :
  0 <= n -> slice l 0 n = firstn (Z.to_nat n) l.
Proof.
  intros Hn. unfold slice. cbn [Z.ltb Z.compare].
  destruct (Z.ltb_spec n 0); [lia|].
  rewrite (Z.min_l 0) by (unfold jsLen; lia). cbn [Z.to_nat skipn].
  rewrite Z.sub_0_r.
  destruct (Z.le_gt_cases n (jsLen l)).
  - rewrite (Z.min_l n), Z.max_l by lia. reflexivity.
  - rewrite (Z.min_r n), Z.max_l by (unfold jsLen in *; lia).
    unfold jsLen. rewrite Nat2Z.id, firstn_all.
    symmetry. apply firstn_all2. unfold jsLen in *. lia.
Qed.

Lemma In_firstn {A} (n : nat) (l : list A) (x : A) :
  In x (firstn n l) -> In x l.
Proof.
  intros Hin. rewrite <- (firstn_skipn n l). apply in_or_app. now left.
Qed.

Lemma queuePrefetch_loop (folders : list Item) (st : State) :
  fold_left
    (fun st folder =>
       if JSMap.has (cache st) (path folder) then st
       else set_prefetchQueue st (prefetchQueue st ++ [path folder])%list)
    folders st
  = set_prefetchQueue st
      (prefetchQueue st
       ++ map path
            (filter (fun folder => negb (JSMap.has (cache st) (path folder)))
               folders))%list.
Proof.
  revert st. induction folders as [|folder folders IH]; intros st;
    cbn [fold_left filter map].
  - rewrite app_nil_r. symmetry. apply set_prefetchQueue_same.
  - rewrite IH. destruct (JSMap.has (cache st) (path folder)); cbn [negb];
      [reflexivity|].
    cbn [set_prefetchQueue cache prefetchQueue map].
    now rewrite <- app_assoc.
Qed.

(** X10.  What [queuePrefetch] adds to the prefetch queue: the paths of
    the first five folders of the listing, in the order of the listing,
    without those that the directory cache already holds; files are never
    queued, at most five paths are added per listing, the paths queued
    before stay in front, and nothing else of the state changes. *)
Theorem queuePrefetch_adds_uncached_folders (st : State) (items : list Item) :
  let folders := firstn 5 (filter (fun item => negb (is_file item)) items) in
  let added :=
    filter (fun folder => negb (JSMap.has (cache st) (path folder))) folders in
  queuePrefetch st items
  = set_prefetchQueue st (prefetchQueue st ++ map path added)%list
  /\ jsLen added <= 5
  /\ Forall (fun folder => In folder items /\ is_file folder = false
                           /\ JSMap.has (cache st) (path folder) = false)
       added.
Proof.
  intros folders added. split; [|split].
  - unfold queuePrefetch. rewrite slice_prefix by lia. apply queuePrefetch_loop.
  - unfold added, folders, jsLen.
    pose proof (filter_length_le
                  (fun folder => negb (JSMap.has (cache st) (path folder)))
                  (firstn 5 (filter (fun item => negb (is_file item)) items))).
    pose proof (firstn_le_length 5
                  (filter (fun item => negb (is_file item)) items)).
    lia.
  - apply Forall_forall. intros folder Hin.
    apply filter_In in Hin as [Hin Hc].
    apply In_firstn, filter_In in Hin as [Hin Hf].
    apply negb_true_iff in Hc, Hf. auto.
Qed.

(** X11.  A directory that an idle turn has prefetched is shown without
    a request: when the head of the queue is listed successfully during
    [prefetchWork], nothing the user sees changes in that turn, and a later
    navigation to a path whose normal form is the queued path sends no
    request and shows the prefetched listing. *)
Theorem prefetched_directory_needs_no_request (st : State)
  (queued : string) (rest : list string) (d : Envelope)
  (p : string) (answer : ApiResult)
  (Hinv : Invariant st) (Honline : isOnline st = true)
  (Hqueue : prefetchQueue st = queued :: rest)
  (Hd : success d = true)
  (Hp : truthy p = true) (Hnormal : normalizePath p = queued) :
  let st1 := prefetchWork st (Resolved d) in
  let st2 := navigateToPath st1 p true answer in
  (apiLog st1 = (apiLog st ++ [ReqList queued])%list
   /\ prefetchQueue st1 = rest
   /\ display st1 = display st /\ status st1 = status st
   /\ currentPath st1 = currentPath st /\ currentItems st1 = currentItems st)
  /\ apiLog st2 = apiLog st1
  /\ currentPath st2 = Some queued
  /\ currentItems st2 = Some (data d).
Proof.
  intros st1 st2.
  assert (st1 = set_cache (apiCall (set_prefetchQueue st rest) (ReqList queued))
                  (JSMap.set (cache st) queued d)) as E1.
  { unfold st1, prefetchWork, prefetchDirectory. rewrite Hqueue.
    cbn [apiCall set_prefetchQueue cache]. now rewrite Hd. }
  split; [rewrite E1; repeat split|].
  assert (Invariant st1) as Hi1 by now apply prefetchWork_invariant.
  assert (isOnline st1 = true) as Ho1 by (rewrite E1; exact Honline).
  assert (JSMap.get (cache st1) (normalizePath p) = Some d) as Hg.
  { rewrite E1, Hnormal. cbn [set_cache cache]. apply get_set_same. }
  destruct (navigateToPath_cached st1 p true answer d Hi1 Hp Ho1 Hg)
    as (El & _ & Ec & Ei & _).
  fold st2 in El, Ec, Ei. rewrite Hnormal in Ec. auto.
Qed.

(** X12.  Refresh forgets every cached listing and asks for the current
    directory again: one [list] request for its normal form leaves; when
    it succeeds the cache holds this one listing and the pane's items are
    the fresh ones; when it fails the cache stays empty while the current
    path, the items and the pane stay as they were.  The history is not
    touched either way. *)
Theorem refresh_lists_again (st : State) (p : string) (answer : ApiResult)
  (Honline : isOnline st = true)
  (Hcurrent : currentPath st = Some p) (Hp : truthy p = true) :
  let st' := refreshTree st answer in
  apiLog st' = (apiLog st ++ [ReqList (normalizePath p)])%list
  /\ history st' = history st /\ historyIndex st' = historyIndex st
  /\ (forall d, answer = Resolved d -> success d = true ->
        cache st' = [(normalizePath p, d)]
        /\ currentItems st' = Some (data d)
        /\ currentPath st' = Some (normalizePath p))
  /\ (branchFailed answer = true ->
        cache st' = []
        /\ currentPath st' = Some p
        /\ currentItems st' = currentItems st
        /\ display st' = display st).
Proof.
  intros st'.
  assert (st' = navigateToPath (set_cache st JSMap.empty) p false answer) as E
    by (unfold st', refreshTree; cbn [set_cache currentPath];
        now rewrite Hcurrent).
  destruct (branchFailed answer) eqn:Hf.
  - rewrite navigateToPath_failed in E by (assumption || reflexivity).
    rewrite E. cbn. rewrite Hcurrent.
    refine (conj eq_refl (conj eq_refl (conj eq_refl (conj _ _)))).
    + intros d -> Hs. simpl in Hf. now rewrite Hs in Hf.
    + intros _. repeat split.
  - destruct answer as [message|d]; [discriminate|].
    simpl in Hf. apply negb_false_iff in Hf.
    rewrite navigateToPath_fetched in E by (assumption || reflexivity).
    match type of E with
    | _ = afterSuccess ?st0 ?q ?b ?d0 =>
        destruct (afterSuccess_kept st0 q b d0) as (_ & Ec & El & _);
        destruct (afterSuccess_shown st0 q b d0) as (Ep & Ei & _);
        destruct (afterSuccess_history st0 q b d0) as (Eh & Ex)
    end.
    rewrite <- E in *.
    split; [exact El|]. split; [exact Eh|]. split; [exact Ex|].
    split; [|discriminate].
    intros d' [= <-] _. auto.
Qed.

End PrefetchFacts.

Lemma prefetched_directory_needs_no_request_witness :
  let st :=
    navigateToPath onlineState "C:\" true
      (Resolved (okEnvelope threeEntries)) in
  let st1 := prefetchWork st (Resolved (okEnvelope [])) in
  let st2 := navigateToPath st1 "C:/Users/" true (Rejected "unused") in
  prefetchQueue st = ["C:\Users"]
  /\ apiLog st2 = apiLog st1
  /\ currentPath st2 = Some "C:\Users"
  /\ currentItems st2 = Some [].
Proof.
  intros st st1 st2. split; [reflexivity|].
  assert (Invariant st) as Hi
    by (apply navigateToPath_invariant, Invariant_onlineState).
  exact (proj2 (prefetched_directory_needs_no_request st "C:\Users" []
                  (okEnvelope []) "C:/Users/" (Rejected "unused")
                  Hi eq_refl eq_refl eq_refl eq_refl eq_refl)).
Defined.

Lemma refresh_lists_again_witness :
  let st := twoVisitsForgotten in
  let st' := refreshTree st (Resolved (okEnvelope threeEntries)) in
  apiLog st' = (apiLog st ++ [ReqList "C:\b"])%list
  /\ cache st' = [("C:\b", okEnvelope threeEntries)]
  /\ currentItems st' = Some threeEntries.
Proof.
  intros st st'.
  destruct (refresh_lists_again st "C:\b" (Resolved (okEnvelope threeEntries))
              eq_refl eq_refl eq_refl) as (El & _ & _ & Hok & _).
  destruct (Hok _ eq_refl eq_refl) as (Ec & Ei & _).
  split; [exact El|]. split; [exact Ec | exact Ei].
Defined.

(** ** The window and the pane *)

Section WindowFacts.
Context `{Collation}.

(** X13.  After a resize the window of a long list covers the pane: for
    a list of more than 1000 items in the list view, once [handleResize]
    has seen a pane of height [clientHeight], every scroll event at an
    offset inside the content renders rows that start at or above the
    offset and reach the lower edge of the pane (or the end of the list),
    and the two spacers and the rows together are as high as the whole
    list. *)
Theorem window_covers_pane (st : State) (all : list Item)
  (clientHeight scrollTop : Z)
  (Hinv : Invariant st)
  (Hview : currentView st = ListView)
  (Hitems : currentItems st = Some all)
  (Hlong : jsLen all > 1000)
  (Hheight : 0 <= clientHeight)
  (Hscroll : 0 <= scrollTop <= 36 * jsLen all) :
  exists topPadding rows bottomPadding,
    display (handleVirtualScroll (handleResize st clientHeight) scrollTop)
    = VirtualRows topPadding rows bottomPadding
    /\ topPadding <= scrollTop
    /\ Z.min (scrollTop + clientHeight) (36 * jsLen all)
       <= topPadding + 36 * jsLen rows
    /\ topPadding + 36 * jsLen rows + bottomPadding = 36 * jsLen all.
Proof.
  destruct Hinv as [I1 I2 I3 _ _ _ I8].
  unfold handleResize. rewrite Hitems, Hview, I1, I2.
  destruct (Z.gtb_spec (jsLen all) 1000) as [_|]; [|lia].
  cbn [View_eqb andb].
  unfold handleVirtualScroll, renderVirtualItems.
  cbn [set_visibleItems currentItems currentView virtualScroll
       visibleItems itemHeight bufferItems].
  rewrite Hitems, Hview, I2, I3. cbn [View_eqb negb set_display display].
  set (visible := - (- clientHeight / 36)).
  set (startIndex := scrollTop / 36).
  set (endIndex := Z.min (startIndex + visible + 10) (jsLen all)).
  assert (36 * (visible - 1) < clientHeight <= 36 * visible) as Hv.
  { unfold visible.
    pose proof (Z.div_mod (- clientHeight) 36 ltac:(lia)).
    pose proof (Z.mod_pos_bound (- clientHeight) 36 ltac:(lia)). lia. }
  assert (36 * startIndex <= scrollTop < 36 * startIndex + 36) as Hs.
  { unfold startIndex.
    pose proof (Z.div_mod scrollTop 36 ltac:(lia)).
    pose proof (Z.mod_pos_bound scrollTop 36 ltac:(lia)). lia. }
  assert (0 <= startIndex <= endIndex /\ endIndex <= jsLen all) as He
    by (unfold endIndex; lia).
  eexists _, _, _. split; [reflexivity|].
  rewrite slice_window by lia.
  assert (jsLen (firstn (Z.to_nat (endIndex - startIndex))
                   (skipn (Z.to_nat startIndex) all))
          = endIndex - startIndex) as ->.
  { unfold jsLen in *. rewrite length_firstn, length_skipn. lia. }
  unfold endIndex in *. lia.
Qed.

End WindowFacts.

Lemma window_covers_pane_witness :
  exists topPadding rows bottomPadding,
    display (handleVirtualScroll (handleResize bigListState 700) 3610)
    = VirtualRows topPadding rows bottomPadding
    /\ topPadding <= 3610
    /\ Z.min (3610 + 700) (36 * jsLen (numberedFiles 5000))
       <= topPadding + 36 * jsLen rows
    /\ topPadding + 36 * jsLen rows + bottomPadding
       = 36 * jsLen (numberedFiles 5000).
Proof.
  apply (window_covers_pane bigListState (numberedFiles 5000) 700 3610);
    try reflexivity;
    [apply run_invariant, Invariant_initialState | ..];
    vm_compute; intuition discriminate.
Defined.

(** ** File operations *)

Lemma fold_fileCall (requests : list FileRequest) (m : Manager) :
  fold_left fileCall requests m
  = mkManager (engine m) (drives m) (activeDrive m) (selectedItems m)
      (clipboardItems m) (clipboardOperation m) (audio m) (isPlaying m)
      (currentFile m) (fileLog m ++ requests) (notices m).
Proof.
  revert m. induction requests as [|r requests IH]; intros m; simpl.
  - rewrite app_nil_r. now destruct m.
  - rewrite IH. cbn [fileCall engine drives activeDrive selectedItems
                     clipboardItems clipboardOperation audio isPlaying
                     currentFile fileLog notices].
    now rewrite <- app_assoc.
Qed.

Lemma awaitEach_resolved (requests : list FileRequest)
  (answers : nat -> ApiResult) (i : nat) (m : Manager) :
  (forall j, (j < List.length requests)%nat ->
             exists env, answers (i + j)%nat = Resolved env) ->
  awaitEach m requests answers i = (fold_left fileCall requests m, None).
Proof.
  revert i m. induction requests as [|r requests IH]; intros i m Ha;
    [reflexivity|].
  cbn [awaitEach fold_left].
  destruct (Ha 0%nat) as [env E]; [simpl; lia|].
  rewrite Nat.add_0_r in E. rewrite E. apply IH.
  intros j Hj. replace (S i + j)%nat with (i + S j)%nat by lia.
  apply Ha. simpl. lia.
Qed.

Lemma awaitEach_rejected (requests : list FileRequest)
  (answers : nat -> ApiResult) (i k : nat) (message : string) (m : Manager) :
  (k < List.length requests)%nat ->
  (forall j, (j < k)%nat -> exists env, answers (i + j)%nat = Resolved env) ->
  answers (i + k)%nat = Rejected message ->
  awaitEach m requests answers i
  = (fold_left fileCall (firstn (S k) requests) m, Some message).
Proof.
  revert i k m. induction requests as [|r requests IH]; intros i k m Hk Ha Hr;
    [simpl in Hk; lia|].
  cbn [awaitEach]. destruct k as [|k].
  - rewrite Nat.add_0_r in Hr. rewrite Hr. reflexivity.
  - destruct (Ha 0%nat) as [env E]; [lia|].
    rewrite Nat.add_0_r in E. rewrite E.
    change (firstn (S (S k)) (r :: requests))
      with (r :: firstn (S k) requests).
    cbn [fold_left]. apply IH.
    + simpl in Hk. lia.
    + intros j Hj. replace (S i + j)%nat with (i + S j)%nat by lia.
      apply Ha. lia.
    + replace (S i + k)%nat with (i + S k)%nat by lia. exact Hr.
Qed.

Lemma length_pasteRequests (operation : ClipboardOperation) current sources :
  List.length (pasteRequests (Some operation) current sources)
  = List.length sources.
Proof. destruct operation; simpl; apply length_map. Qed.

Lemma lastSegment_cons sep a s :
  lastSegment sep (String a s)
  = if Ascii.eqb a sep then lastSegment sep s
    else match splitOn sep s with
         | [_] => String a (lastSegment sep s)
         | _ => lastSegment sep s
         end.
Proof.
  unfold lastSegment. cbn [splitOn].
  assert (splitOn sep s <> []) as Hne
    by (destruct s as [|b s]; simpl; [discriminate|];
        destruct (Ascii.eqb b sep); [discriminate|];
        destruct (splitOn sep s); discriminate).
  destruct (Ascii.eqb a sep).
  - destruct (splitOn sep s) as [|x l]; [congruence | reflexivity].
  - destruct (splitOn sep s) as [|x [|y l]]; [congruence | reflexivity..].
Qed.

Lemma splitOn_single sep s x :
  splitOn sep s = [x] -> x = s /\ lastIndexOfChar s sep = -1.
Proof.
  revert x. induction s as [|a s IH]; intros x; cbn [splitOn].
  - intros [= <-]. split; reflexivity.
  - destruct (Ascii.eqb a sep) eqn:E.
    + intros [= _ E2]. destruct s as [|b s]; simpl in E2; [discriminate|].
      destruct (Ascii.eqb b sep); [discriminate|].
      destruct (splitOn sep s); discriminate.
    + destruct (splitOn sep s) as [|y l] eqn:S; [intros [= <-]|].
      * destruct s as [|b s]; simpl in S; [discriminate|].
        destruct (Ascii.eqb b sep); [discriminate|].
        destruct (splitOn sep s); discriminate.
      * intros [= <- ->]. destruct (IH y eq_refl) as [-> Hs].
        split; [reflexivity|]. now apply lastIndexOfChar_cons.
Qed.

Lemma lastSegment_no_separator sep s :
  lastIndexOfChar (lastSegment sep s) sep = -1.
Proof.
  induction s as [|a s IH]; [reflexivity|].
  rewrite lastSegment_cons. destruct (Ascii.eqb a sep) eqn:E; [exact IH|].
  destruct (splitOn sep s) as [|x [|y l]] eqn:S; try exact IH.
  now apply lastIndexOfChar_cons.
Qed.

Lemma lastSegment_keeps_absent sep c s :
  lastIndexOfChar s c = -1 -> lastIndexOfChar (lastSegment sep s) c = -1.
Proof.
  induction s as [|a s IH]; [reflexivity|].
  intros [E Hs]%lastIndexOfChar_cons. specialize (IH Hs).
  rewrite lastSegment_cons. destruct (Ascii.eqb a sep); [exact IH|].
  destruct (splitOn sep s) as [|x [|y l]]; try exact IH.
  now apply lastIndexOfChar_cons.
Qed.

Section FileOperations.
Context `{Collation}.

(** X14.  A paste whose calls all resolve: one request per clipboard
    item leaves, in the order of the clipboard, a [copy] or a [move] from
    the item to the entry of the same base name in the current directory;
    then the current directory is navigated to again without recording,
    and the status line reads that the paste is complete.  The envelopes of
    the answers are not looked at, so this is also what happens when the
    backend answers every call with [success = false].  After a cut the
    clipboard is empty, and a second paste does nothing; after a copy the
    clipboard is kept. *)
Theorem paste_sends_one_request_per_item (m : Manager)
  (answers : nat -> ApiResult) (navAnswer : ApiResult) (current : string)
  (Hcurrent : currentPath (engine m) = Some current)
  (Htruthy : truthy current = true)
  (Hclipboard : clipboardItems m <> [])
  (Hanswers : allResolved answers (List.length (clipboardItems m))) :
  let m' := pasteItems m answers navAnswer in
  fileLog m'
  = (fileLog m
     ++ pasteRequests (clipboardOperation m) current (clipboardItems m))%list
  /\ engine m' = navigateToPath (engine m) current false navAnswer
  /\ notices m'
     = (notices m
        ++ [(SevLoading, NoticePasting); (SevSuccess, NoticePasted)])%list
  /\ clipboardOperation m' = clipboardOperation m
  /\ selectedItems m' = selectedItems m
  /\ match clipboardOperation m with
     | Some OperationCut =>
         clipboardItems m' = []
         /\ forall answers' navAnswer',
              pasteItems m' answers' navAnswer' = m'
     | _ => clipboardItems m' = clipboardItems m
     end.
Proof.
  intros m'.
  assert ((jsLen (clipboardItems m) =? 0) = false) as Hlen.
  { apply Z.eqb_neq. unfold jsLen.
    destruct (clipboardItems m); [congruence | simpl; lia]. }
  assert (m'
          = let m1 :=
              fold_left fileCall
                (pasteRequests (clipboardOperation m) current
                   (clipboardItems m))
                (showNotice m NoticePasting SevLoading) in
            showNotice
              (navigate
                 match clipboardOperation m1 with
                 | Some OperationCut =>
                     set_clipboard m1 [] (clipboardOperation m1)
                 | _ => m1
                 end current false navAnswer)
              NoticePasted SevSuccess) as E.
  { unfold m', pasteItems. rewrite Hcurrent, Hlen, Htruthy.
    cbn [negb orb]. cbv zeta.
    cbn [showNotice clipboardOperation clipboardItems].
    rewrite awaitEach_resolved; [reflexivity|].
    intros j Hj. apply Hanswers.
    destruct (clipboardOperation m) as [[|]|]; simpl in Hj;
      rewrite ?length_map in Hj; lia. }
  cbv zeta in E. rewrite fold_fileCall in E.
  cbn [showNotice engine drives activeDrive selectedItems clipboardItems
       clipboardOperation audio isPlaying currentFile fileLog notices] in E.
  destruct (clipboardOperation m) as [[|]|] eqn:Hop; rewrite E;
    cbn [showNotice navigate set_engine set_clipboard engine drives
         activeDrive selectedItems clipboardItems clipboardOperation audio
         isPlaying currentFile fileLog notices];
    rewrite <- ?app_assoc; repeat split.
  intros answers' navAnswer'. unfold pasteItems.
  cbn [showNotice navigate set_engine set_clipboard engine clipboardItems].
  destruct (currentPath (navigateToPath (engine m) current false navAnswer));
    reflexivity.
Qed.

(** X15.  A paste that fails stops at once and undoes nothing: when the
    call for the item of turn [k] is the first that is rejected, the
    requests for the items up to that one have left and none for the later
    items, the status line reads the error, the clipboard still holds every
    item (also the ones a cut has already moved), and the engine is left as
    it is: the directory is not listed again. *)
Theorem paste_stops_at_first_rejection (m : Manager)
  (answers : nat -> ApiResult) (navAnswer : ApiResult) (current : string)
  (operation : ClipboardOperation) (k : nat) (message : string)
  (Hcurrent : currentPath (engine m) = Some current)
  (Htruthy : truthy current = true)
  (Hoperation : clipboardOperation m = Some operation)
  (Hk : (k < List.length (clipboardItems m))%nat)
  (Hanswers : firstRejected answers k message) :
  let m' := pasteItems m answers navAnswer in
  fileLog m'
  = (fileLog m
     ++ firstn (S k)
          (pasteRequests (Some operation) current (clipboardItems m)))%list
  /\ engine m' = engine m
  /\ clipboardItems m' = clipboardItems m
  /\ clipboardOperation m' = clipboardOperation m
  /\ notices m'
     = (notices m
        ++ [(SevLoading, NoticePasting);
            (SevError, NoticePasteError message)])%list.
Proof.
  intros m'. destruct Hanswers as [Hbefore Hat].
  assert ((jsLen (clipboardItems m) =? 0) = false) as Hlen.
  { apply Z.eqb_neq. unfold jsLen. lia. }
  assert (m'
          = showNotice
              (fold_left fileCall
                 (firstn (S k)
                    (pasteRequests (Some operation) current
                       (clipboardItems m)))
                 (showNotice m NoticePasting SevLoading))
              (NoticePasteError message) SevError) as E.
  { unfold m', pasteItems. rewrite Hcurrent, Hlen, Htruthy.
    cbn [negb orb]. cbv zeta.
    cbn [showNotice clipboardOperation clipboardItems]. rewrite Hoperation.
    rewrite (awaitEach_rejected _ answers 0 k message); try assumption;
      [reflexivity|].
    rewrite length_pasteRequests. exact Hk. }
  rewrite fold_fileCall in E.
  cbn [showNotice engine drives activeDrive selectedItems clipboardItems
       clipboardOperation audio isPlaying currentFile fileLog notices] in E.
  rewrite E.
  cbn [showNotice engine clipboardItems clipboardOperation fileLog notices].
  rewrite <- ?app_assoc. repeat split.
Qed.

(** X16.  Every request of a paste names a destination directly inside
    the current directory: for a current path of at least three units and
    sources without forward slashes, the parent of each destination is the
    current path, whatever directory the source lies in. *)
Theorem paste_destinations_lie_in_current_directory
  (operation : option ClipboardOperation) (current : string)
  (sources : list string) (r : FileRequest)
  (Hcurrent : 3 <= jsLength current)
  (Hsources : Forall (fun s => lastIndexOfChar s slash = -1) sources)
  (Hr : In r (pasteRequests operation current sources)) :
  exists source destination,
    In source sources
    /\ (r = ReqCopy source destination \/ r = ReqMove source destination)
    /\ getParentPath destination = Some current.
Proof.
  rewrite Forall_forall in Hsources.
  assert (forall s, In s sources ->
                    getParentPath (destinationOf current s) = Some current)
    as Hd.
  { intros s Hs. unfold destinationOf.
    apply getParentPath_inside; [exact Hcurrent | |].
    - apply lastSegment_no_separator.
    - apply lastSegment_keeps_absent, Hsources, Hs. }
  destruct operation as [[|]|]; simpl in Hr; [| |contradiction];
    apply in_map_iff in Hr as (s & <- & Hs);
    exists s, (destinationOf current s); auto.
Qed.

(** X17.  A new folder or file does not show up by itself: when the
    [create] call resolves and the listing of the current directory is in
    the cache (where every successful visit puts it), the navigation that
    follows sends no [list] request and shows the cached listing again,
    while the status line reads that the entry was created.  Only a
    refresh, which empties the cache, lists the directory anew. *)
Theorem created_entry_is_not_listed (isDirectory : bool) (m : Manager)
  (name current : string) (env d : Envelope) (navAnswer : ApiResult)
  (Hinv : Invariant (engine m))
  (Honline : isOnline (engine m) = true)
  (Hcurrent : currentPath (engine m) = Some current)
  (Htruthy : truthy current = true) (Hname : truthy name = true)
  (Hcached : JSMap.get (cache (engine m)) (normalizePath current) = Some d) :
  let m' := createNew isDirectory m (Some name) (Resolved env) navAnswer in
  fileLog m'
  = (fileLog m
     ++ [ReqCreate (current ++ String backslash "" ++ name) isDirectory])%list
  /\ apiLog (engine m') = apiLog (engine m)
  /\ cache (engine m') = cache (engine m)
  /\ currentItems (engine m') = Some (data d)
  /\ notices m'
     = (notices m
        ++ [(SevSuccess,
             if isDirectory then NoticeFolderCreated
             else NoticeFileCreated)])%list.
Proof.
  intros m'.
  destruct (navigateToPath_cached (engine m) current false navAnswer d
              Hinv Htruthy Honline Hcached) as (El & Ec & _ & Ei & _).
  unfold m', createNew. rewrite Hcurrent, Hname, Htruthy.
  cbn [negb orb navigate showNotice fileCall set_engine engine fileLog
       notices].
  auto.
Qed.

(** X18.  Delete acts on the selection as it stands, in the order in
    which the items were selected.  A declined confirmation changes
    nothing.  When every call resolves, one [delete] request per selected
    path has left, the selection is empty and the status line reads the
    count, whatever the envelopes say.  When the call of turn [k] is the
    first that is rejected, the later paths are not requested, the
    selection keeps every path (also the deleted ones) and the engine is
    left as it is. *)
Theorem delete_sends_the_selection (m : Manager)
  (answers : nat -> ApiResult) (navAnswer : ApiResult)
  (Hselected : selectedItems m <> []) :
  deleteSelectedItems m false answers navAnswer = m
  /\ (allResolved answers (List.length (selectedItems m)) ->
      let m' := deleteSelectedItems m true answers navAnswer in
      fileLog m' = (fileLog m ++ map ReqDelete (selectedItems m))%list
      /\ selectedItems m' = []
      /\ engine m'
         = match currentPath (engine m) with
           | Some current =>
               navigateToPath (engine m) current false navAnswer
           | None => engine m
           end
      /\ notices m'
         = (notices m
            ++ [(SevLoading, NoticeDeleting);
                (SevSuccess, NoticeDeleted (jsLen (selectedItems m)))])%list)
  /\ (forall k message,
        (k < List.length (selectedItems m))%nat ->
        firstRejected answers k message ->
        let m' := deleteSelectedItems m true answers navAnswer in
        fileLog m'
        = (fileLog m ++ map ReqDelete (firstn (S k) (selectedItems m)))%list
        /\ selectedItems m' = selectedItems m
        /\ engine m' = engine m
        /\ notices m'
           = (notices m
              ++ [(SevLoading, NoticeDeleting);
                  (SevError, NoticeDeleteError message)])%list).
Proof.
  assert ((jsLen (selectedItems m) =? 0) = false) as Hlen.
  { apply Z.eqb_neq. unfold jsLen.
    destruct (selectedItems m); [congruence | simpl; lia]. }
  split; [unfold deleteSelectedItems; now rewrite Hlen|]. split.
  - intros Hanswers m'. unfold m', deleteSelectedItems. rewrite Hlen.
    cbn [negb]. cbv zeta. cbn [showNotice selectedItems].
    rewrite awaitEach_resolved
      by (intros j Hj; rewrite length_map in Hj; now apply Hanswers).
    rewrite fold_fileCall.
    cbn [showNotice set_selectedItems engine drives activeDrive selectedItems
         clipboardItems clipboardOperation audio isPlaying currentFile
         fileLog notices].
    destruct (currentPath (engine m));
      cbn [navigate set_engine set_selectedItems showNotice engine drives
           activeDrive selectedItems clipboardItems clipboardOperation audio
           isPlaying currentFile fileLog notices];
      rewrite <- ?app_assoc; repeat split.
  - intros k message Hk [Hbefore Hat] m'.
    unfold m', deleteSelectedItems. rewrite Hlen.
    cbn [negb]. cbv zeta. cbn [showNotice selectedItems].
    rewrite (awaitEach_rejected _ answers 0 k message);
      [|rewrite length_map; exact Hk | exact Hbefore | exact Hat].
    rewrite fold_fileCall.
    cbn [showNotice engine drives activeDrive selectedItems
         clipboardItems clipboardOperation audio isPlaying currentFile
         fileLog notices].
    rewrite <- ?app_assoc, firstn_map. repeat split.
Qed.

End FileOperations.

Lemma paste_sends_one_request_per_item_witness :
  let m' := pasteItems cutTwo (fun _ => refused) (Rejected "unused") in
  fileLog m'
  = [ReqMove "C:\a\x.txt" "C:\logs\x.txt";
     ReqMove "C:\a\y.txt" "C:\logs\y.txt"]
  /\ notices m'
     = [(SevSuccess, NoticeCut 2); (SevLoading, NoticePasting);
        (SevSuccess, NoticePasted)]
  /\ clipboardItems m' = []
  /\ pasteItems m' (fun _ => refused) (Rejected "unused") = m'.
Proof.
  intros m'.
  assert (allResolved (fun _ => refused) (List.length (clipboardItems cutTwo)))
    as Ha by (intros i _; eexists; reflexivity).
  destruct (paste_sends_one_request_per_item cutTwo (fun _ => refused)
              (Rejected "unused") "C:\logs" eq_refl eq_refl
              ltac:(discriminate) Ha)
    as (El & _ & En & _ & _ & Ec & Eagain).
  split; [exact El|]. split; [exact En|]. split; [exact Ec|].
  apply Eagain.
Defined.

Lemma paste_stops_at_first_rejection_witness :
  let answers := fun i => if Nat.eqb i 1 then Rejected "timeout" else refused in
  let m' := pasteItems cutTwo answers (Rejected "unused") in
  fileLog m'
  = [ReqMove "C:\a\x.txt" "C:\logs\x.txt";
     ReqMove "C:\a\y.txt" "C:\logs\y.txt"]
  /\ engine m' = engine cutTwo
  /\ clipboardItems m' = ["C:\a\x.txt"; "C:\a\y.txt"]
  /\ clipboardOperation m' = Some OperationCut
  /\ notices m'
     = [(SevSuccess, NoticeCut 2); (SevLoading, NoticePasting);
        (SevError, NoticePasteError "timeout")].
Proof.
  intros answers m'.
  apply (paste_stops_at_first_rejection cutTwo answers (Rejected "unused")
           "C:\logs" OperationCut 1 "timeout" eq_refl eq_refl eq_refl).
  - simpl. lia.
  - split; [|reflexivity].
    intros i Hi. assert (i = 0%nat) as -> by lia. eexists. reflexivity.
Defined.

Lemma paste_destinations_lie_in_current_directory_witness :
  exists source destination,
    In source ["C:\a\x.txt"; "D:\y.txt"]
    /\ (ReqCopy "D:\y.txt" "C:\logs\y.txt" = ReqCopy source destination
        \/ ReqCopy "D:\y.txt" "C:\logs\y.txt" = ReqMove source destination)
    /\ getParentPath destination = Some "C:\logs".
Proof.
  apply (paste_destinations_lie_in_current_directory (Some OperationCopy)
           "C:\logs" ["C:\a\x.txt"; "D:\y.txt"]).
  - vm_compute. discriminate.
  - repeat constructor.
  - simpl. right. left. reflexivity.
Defined.

Lemma created_entry_is_not_listed_witness :
  let m' :=
    createNew true visitedRoot (Some "music") (Resolved (okEnvelope []))
      (Resolved (okEnvelope [folderItem "C:\music"])) in
  fileLog m'
  = (fileLog visitedRoot
     ++ [ReqCreate ("C:\" ++ String backslash "" ++ "music") true])%list
  /\ apiLog (engine m') = apiLog (engine visitedRoot)
  /\ cache (engine m') = cache (engine visitedRoot)
  /\ currentItems (engine m') = Some (data (okEnvelope threeEntries))
  /\ notices m'
     = (notices visitedRoot ++ [(SevSuccess, NoticeFolderCreated)])%list.
Proof.
  refine (created_entry_is_not_listed true visitedRoot "music" "C:\"
            (okEnvelope []) (okEnvelope threeEntries)
            (Resolved (okEnvelope [folderItem "C:\music"])) _ _ _ _ _ _);
    try (vm_compute; reflexivity).
  apply navigateToPath_invariant, Invariant_onlineState.
Defined.

Lemma delete_sends_the_selection_witness :
  let m' := deleteSelectedItems twoSelected true (fun _ => refused)
              (Rejected "unused") in
  deleteSelectedItems twoSelected false (fun _ => refused) (Rejected "unused")
  = twoSelected
  /\ fileLog m' = [ReqDelete "C:\a\x.txt"; ReqDelete "C:\a\y.txt"]
  /\ selectedItems m' = [].
Proof.
  intros m'.
  destruct (delete_sends_the_selection twoSelected (fun _ => refused)
              (Rejected "unused") ltac:(discriminate)) as (E0 & Hok & _).
  split; [exact E0|].
  destruct Hok as (El & Es & _); [intros i _; eexists; reflexivity|].
  split; [exact El | exact Es].
Defined.

(** ** Start-up and the drives *)

Section Startup.
Context `{Collation}.

Lemma apiLog_probed st :
  fold_left apiCall driveProbes st
  = mkState (isOnline st) (cache st) (prefetchQueue st)
      (virtualScrollThreshold st) (history st) (historyIndex st)
      (currentPath st) (currentView st) (searchQuery st) (isSearchMode st)
      (searchCache st) (virtualScroll st) (currentItems st) (display st)
      (status st) (apiLog st ++ driveProbes).
Proof.
  generalize driveProbes. intros requests. revert st.
  induction requests as [|r requests IH]; intros st; simpl.
  - rewrite app_nil_r. now destruct st.
  - rewrite IH. cbn [apiCall isOnline cache prefetchQueue
                     virtualScrollThreshold history historyIndex currentPath
                     currentView searchQuery isSearchMode searchCache
                     virtualScroll currentItems display status apiLog].
    now rewrite <- app_assoc.
Qed.

(** X19.  What start-up shows.  All six drive letters are probed, in
    order, whether the backend is reachable or not.  When the health check
    passed and [l] is the first letter whose probe succeeded, its root is
    made the active drive and listed once more (the answer of the probe is
    not reused); if that listing succeeds the root is the current path and
    the one entry of the history.  When the health check failed, nothing
    is listed and no path is current, although the drives found are
    recorded and counted in the status line. *)
Theorem startup_opens_first_drive (probe : string -> ApiResult)
  (d : Envelope) (l : string) (others : list string)
  (Hfound : filter (fun l => negb (branchFailed (probe l))) driveLetters
            = l :: others)
  (Hd : success d = true) :
  let root := l ++ ":" ++ String backslash "" in
  let m' := init true probe (Resolved d) in
  let off := init false probe (Resolved d) in
  (drives m' = map driveOf (l :: others)
   /\ activeDrive m' = Some (driveOf l)
   /\ apiLog (engine m') = (driveProbes ++ [ReqList root])%list
   /\ currentPath (engine m') = Some root
   /\ currentItems (engine m') = Some (data d)
   /\ history (engine m') = [root] /\ historyIndex (engine m') = 0)
  /\ (drives off = map driveOf (l :: others)
      /\ apiLog (engine off) = driveProbes
      /\ currentPath (engine off) = None
      /\ currentItems (engine off) = None
      /\ notices off
         = [(SevLoading, NoticeSearchingDrives);
            (SevSuccess, NoticeDrivesFound (jsLen (l :: others)))]).
Proof.
  intros root m' off.
  assert (In l driveLetters) as Hin.
  { assert (In l (l :: others)) as Hl by now left.
    rewrite <- Hfound in Hl. now apply filter_In in Hl. }
  assert (truthy root = true /\ normalizePath root = root) as [Ht Hn].
  { unfold root. simpl in Hin.
    repeat destruct Hin as [<- | Hin]; try contradiction; split; reflexivity. }
  split.
  - assert (m'
            = showNotice
                (navigate
                   (set_activeDrive
                      (set_drives
                         (set_engine
                            (showNotice
                               (set_engine initialManager
                                  (setConnectionStatus initialState true))
                               NoticeSearchingDrives SevLoading)
                            (fold_left apiCall driveProbes
                               (setConnectionStatus initialState true)))
                         (map driveOf (l :: others)))
                      (Some (driveOf l)))
                   root true (Resolved d))
                (NoticeDrivesFound (jsLen (map driveOf (l :: others))))
                SevSuccess) as E.
    { unfold m', init, loadDrives. cbv zeta. rewrite Hfound. reflexivity. }
    rewrite E.
    cbn [showNotice navigate set_activeDrive set_drives set_engine engine
         drives activeDrive].
    set (st := fold_left apiCall driveProbes
                 (setConnectionStatus initialState true)).
    assert (Invariant st) as Hi.
    { unfold st. rewrite apiLog_probed.
      eapply Invariant_same; [..|exact Invariant_initialState]; reflexivity. }
    assert (isOnline st = true) as Ho
      by (unfold st; now rewrite apiLog_probed).
    assert (JSMap.has (cache st) (normalizePath root) = false) as Hc
      by (unfold st; now rewrite apiLog_probed).
    destruct (navigateToPath_listed st root true d Ht Ho Hc Hd)
      as (El & _ & _ & Ep & Ei & _).
    destruct (navigateToPath_done st root true (Resolved d) Hi Ht Ho)
      as (_ & Eh & Ex); [simpl; now rewrite Hd|].
    rewrite Hn in *.
    split; [reflexivity|]. split; [reflexivity|].
    split; [rewrite El; unfold st; now rewrite apiLog_probed|].
    split; [exact Ep|]. split; [exact Ei|].
    rewrite Eh, Ex. unfold st. rewrite apiLog_probed. split; reflexivity.
  - assert (off
            = showNotice
                (navigate
                   (set_activeDrive
                      (set_drives
                         (set_engine
                            (showNotice
                               (set_engine initialManager
                                  (setConnectionStatus initialState false))
                               NoticeSearchingDrives SevLoading)
                            (fold_left apiCall driveProbes
                               (setConnectionStatus initialState false)))
                         (map driveOf (l :: others)))
                      (Some (driveOf l)))
                   root true (Resolved d))
                (NoticeDrivesFound (jsLen (map driveOf (l :: others))))
                SevSuccess) as E.
    { unfold off, init, loadDrives. cbv zeta. rewrite Hfound. reflexivity. }
    rewrite E.
    cbn [showNotice navigate set_activeDrive set_drives set_engine engine
         drives activeDrive notices].
    rewrite navigateToPath_skipped
      by (right; now rewrite apiLog_probed).
    rewrite apiLog_probed. unfold jsLen. rewrite length_map.
    repeat split.
Qed.

End Startup.

Lemma startup_opens_first_drive_witness :
  let m' := init true onlyD (Resolved (okEnvelope threeEntries)) in
  activeDrive m' = Some (driveOf "D")
  /\ apiLog (engine m')
     = [ReqList "C:\"; ReqList "D:\"; ReqList "E:\"; ReqList "F:\";
        ReqList "G:\"; ReqList "H:\"; ReqList "D:\"]
  /\ currentPath (engine m') = Some "D:\"
  /\ history (engine m') = ["D:\"].
Proof.
  intros m'.
  destruct (startup_opens_first_drive onlyD (okEnvelope threeEntries) "D" []
              eq_refl eq_refl) as ((_ & Ea & El & Ep & _ & Eh & _) & _).
  split; [exact Ea|]. split; [exact El|]. split; [exact Ep | exact Eh].
Defined.

(** ** Audio files and the player *)

Lemma toLowerCaseChar_idem c :
  toLowerCaseChar (toLowerCaseChar c) = toLowerCaseChar c.
Proof. destruct c as [[] [] [] [] [] [] [] []]; reflexivity. Qed.

Lemma toLowerCaseChar_dot c : Ascii.eqb (toLowerCaseChar c) dot = Ascii.eqb c dot.
Proof. destruct c as [[] [] [] [] [] [] [] []]; reflexivity. Qed.

Lemma toLowerCase_idem s : toLowerCase (toLowerCase s) = toLowerCase s.
Proof.
  induction s as [|c s IH]; simpl; [reflexivity|].
  now rewrite toLowerCaseChar_idem, IH.
Qed.

Lemma splitOn_toLowerCase s :
  splitOn dot (toLowerCase s) = map toLowerCase (splitOn dot s).
Proof.
  induction s as [|c s IH]; [reflexivity|].
  cbn [toLowerCase splitOn]. rewrite toLowerCaseChar_dot, IH.
  destruct (Ascii.eqb c dot); [reflexivity|].
  now destruct (splitOn dot s).
Qed.

Lemma last_map_toLowerCase (l : list string) :
  List.last (map toLowerCase l) EmptyString
  = toLowerCase (List.last l EmptyString).
Proof.
  induction l as [|x [|y l] IH]; [reflexivity..|].
  change (map toLowerCase (x :: y :: l))
    with (toLowerCase x :: map toLowerCase (y :: l)).
  cbn [List.last] in *. destruct (map toLowerCase (y :: l)) eqn:E;
    [discriminate | exact IH].
Qed.

Lemma extensionOf_toLowerCase p : extensionOf (toLowerCase p) = extensionOf p.
Proof.
  unfold extensionOf, lastSegment.
  now rewrite splitOn_toLowerCase, last_map_toLowerCase, toLowerCase_idem.
Qed.

Lemma audio_extension_has_mime_type (ext : string) :
  existsb (String.eqb ext) audioExtensions = true ->
  exists mime,
    lookupLiteral mimeTypes ext = OwnEntry mime
    /\ getMimeTypeFromExtension ext = OwnEntry mime
    /\ startsWith mime "audio/" = true.
Proof.
  intros Hin. apply existsb_exists in Hin as (x & Hx & E).
  apply String.eqb_eq in E. subst x.
  simpl in Hx.
  repeat destruct Hx as [<- | Hx]; try contradiction;
    eexists; repeat split; reflexivity.
Qed.

Lemma accepted_file_mime_type (p : string) :
  isAudioFile p = true ->
  exists mime,
    getMimeTypeFromExtension (extensionOf p) = OwnEntry mime
    /\ startsWith mime "audio/" = true.
Proof.
  unfold isAudioFile. intros Hin.
  destruct (audio_extension_has_mime_type _ Hin) as (mime & _ & E).
  now exists mime.
Qed.

(** X20.  The two tables of audio file types agree: a path is an audio
    file for [isAudioFile] exactly when [getMimeTypeFromExtension] finds an
    entry of its own for the extension, so the fallback type and the
    members that the table inherits from [Object.prototype] are never
    what an audio file is played as; the type found starts with [audio/].
    Upper and lower case in the path make no difference. *)
Theorem audio_files_have_a_mime_type (p : string) :
  (isAudioFile p = true
   <-> exists mime, lookupLiteral mimeTypes (extensionOf p) = OwnEntry mime)
  /\ (isAudioFile p = true ->
      exists mime,
        getMimeTypeFromExtension (extensionOf p) = OwnEntry mime
        /\ startsWith mime "audio/" = true)
  /\ isAudioFile (toLowerCase p) = isAudioFile p.
Proof.
  split; [|split].
  - unfold isAudioFile. generalize (extensionOf p). intros ext. split.
    + intros Hin.
      destruct (audio_extension_has_mime_type ext Hin) as (mime & E & _).
      now exists mime.
    + intros [mime E]. unfold lookupLiteral in E.
      destruct (JSMap.get mimeTypes ext) as [value|] eqn:G;
        [|destruct (existsb _ _); discriminate].
      clear E. unfold mimeTypes in G. cbn [JSMap.get] in G.
      unfold audioExtensions. cbn [existsb].
      repeat match type of G with
             | (if String.eqb ?k ext then _ else _) = _ =>
                 rewrite (String.eqb_sym ext k);
                 destruct (String.eqb k ext); [reflexivity|]
             end.
      discriminate.
  - apply accepted_file_mime_type.
  - unfold isAudioFile. now rewrite extensionOf_toLowerCase.
Qed.

(** ** Sizes *)

Section Sizes.
Local Open Scope Q_scope.






End Sizes.


(** ** What holds in every run of the manager *)

Lemma fold_apiCall (requests : list Request) (st : State) :
  fold_left apiCall requests st
  = mkState (isOnline st) (cache st) (prefetchQueue st)
      (virtualScrollThreshold st) (history st) (historyIndex st)
      (currentPath st) (currentView st) (searchQuery st) (isSearchMode st)
      (searchCache st) (virtualScroll st) (currentItems st) (display st)
      (status st) (apiLog st ++ requests).
Proof.
  revert st. induction requests as [|r requests IH]; intros st; simpl.
  - rewrite app_nil_r. now destruct st.
  - rewrite IH. cbn [apiCall isOnline cache prefetchQueue
                     virtualScrollThreshold history historyIndex currentPath
                     currentView searchQuery isSearchMode searchCache
                     virtualScroll currentItems display status apiLog].
    now rewrite <- app_assoc.
Qed.

Lemma awaitEach_sent (requests : list FileRequest)
  (answers : nat -> ApiResult) (i : nat) (m : Manager) :
  exists n,
    fst (awaitEach m requests answers i)
    = fold_left fileCall (firstn n requests) m.
Proof.
  revert i m. induction requests as [|r requests IH]; intros i m.
  - now exists 0%nat.
  - cbn [awaitEach]. destruct (answers i).
    + now exists 1%nat.
    + destruct (IH (S i) (fileCall m r)) as [n E]. now exists (S n).
Qed.

Lemma awaitEach_frame (requests : list FileRequest)
  (answers : nat -> ApiResult) (i : nat) (m : Manager) :
  exists log,
    fst (awaitEach m requests answers i)
    = mkManager (engine m) (drives m) (activeDrive m) (selectedItems m)
        (clipboardItems m) (clipboardOperation m) (audio m) (isPlaying m)
        (currentFile m) log (notices m).
Proof.
  destruct (awaitEach_sent requests answers i m) as [n E].
  rewrite E, fold_fileCall. now eexists.
Qed.

Section RunFacts.
Context `{Collation}.

Lemma addToHistory_Forall (Q : string -> Prop) st p :
  Forall Q (history st) -> Q p -> Forall Q (history (addToHistory st p)).
Proof.
  intros Hh Hp. unfold addToHistory.
  destruct (match at_index _ _ with Some q => String.eqb q p | None => false
            end); [exact Hh|].
  assert (Forall Q (spliceFrom (history st) (historyIndex st + 1) ++ [p]))
    as Hq.
  { apply Forall_app. split; [|now constructor].
    unfold spliceFrom. rewrite Forall_forall in *.
    intros q Hq. eapply Hh, In_firstn, Hq. }
  destruct (_ >? 50); cbn [set_history history]; [|exact Hq].
  destruct (spliceFrom (history st) (historyIndex st + 1) ++ [p])%list;
    [constructor | now inversion Hq].
Qed.

Lemma canonicalPaths_same st st' :
  currentPath st' = currentPath st -> history st' = history st ->
  canonicalPaths st -> canonicalPaths st'.
Proof. unfold canonicalPaths. intros -> ->. trivial. Qed.

Lemma afterSuccess_canonical st p addToHist d :
  normalizePath p = p -> Forall (fun q => normalizePath q = q) (history st) ->
  canonicalPaths (afterSuccess st p addToHist d).
Proof.
  intros Hp Hh.
  destruct (afterSuccess_shown st p addToHist d) as (Ec & _).
  destruct (afterSuccess_history st p addToHist d) as (Eh & _).
  split.
  - intros q. rewrite Ec. now intros [= <-].
  - rewrite Eh. destruct addToHist; [|exact Hh].
    now apply addToHistory_Forall.
Qed.

Lemma navigateToPath_canonical st p addToHist answer :
  Invariant st -> canonicalPaths st ->
  canonicalPaths (navigateToPath st p addToHist answer).
Proof.
  intros Hst Hc.
  destruct (truthy p) eqn:Hp;
    [|now rewrite navigateToPath_skipped by now left].
  destruct (isOnline st) eqn:Ho;
    [|now rewrite navigateToPath_skipped by now right].
  destruct (JSMap.get (cache st) (normalizePath p)) as [d|] eqn:Hg.
  - rewrite (navigateToPath_hit st p addToHist answer d Hp Ho Hg)
      by (eapply Invariant_cached; eauto).
    apply afterSuccess_canonical; [apply normalizePath_idem | apply Hc].
  - destruct (branchFailed answer) eqn:Hf.
    + rewrite navigateToPath_failed by assumption.
      eapply canonicalPaths_same; [..|exact Hc]; reflexivity.
    + destruct answer as [message|d]; [discriminate|].
      simpl in Hf. apply negb_false_iff in Hf.
      rewrite navigateToPath_fetched by assumption.
      apply afterSuccess_canonical; [apply normalizePath_idem | apply Hc].
Qed.

Lemma step_canonical st op :
  Invariant st -> canonicalPaths st -> canonicalPaths (step st op).
Proof.
  intros Hst Hc. destruct op; simpl.
  - unfold setConnectionStatus.
    destruct (Bool.eqb _ _); [exact Hc|].
    destruct online;
      (eapply canonicalPaths_same; [..|exact Hc]; reflexivity).
  - now apply navigateToPath_canonical.
  - unfold goBack.
    destruct (Z.gtb_spec (historyIndex st) 0) as [E|E]; [|exact Hc].
    assert (Invariant (set_historyIndex st (historyIndex st - 1))) as Hst'.
    { destruct Hst as [I1 I2 I3 I4 I5 [I6 I7] I8].
      constructor; auto. cbn [set_historyIndex set_history history
                              historyIndex]. lia. }
    destruct (at_index _ _); [now apply navigateToPath_canonical | exact Hc].
  - unfold goForward.
    destruct (Z.ltb_spec (historyIndex st) (jsLen (history st) - 1)) as [E|E];
      [|exact Hc].
    assert (Invariant (set_historyIndex st (historyIndex st + 1))) as Hst'.
    { destruct Hst as [I1 I2 I3 I4 I5 [I6 I7] I8].
      constructor; auto. cbn [set_historyIndex set_history history
                              historyIndex]. lia. }
    destruct (at_index _ _); [now apply navigateToPath_canonical | exact Hc].
  - unfold refreshTree. cbn [set_cache currentPath].
    destruct (currentPath st) eqn:Ep; [|exact Hc].
    apply navigateToPath_canonical.
    + apply Invariant_set_cache; [constructor | exact Hst].
    + eapply canonicalPaths_same; [..|exact Hc]; reflexivity.
  - unfold performFastSearch.
    destruct (negb (truthy (trim query))).
    + cbn [set_searchCache set_isSearchMode currentPath].
      destruct (currentPath st) eqn:Ep; [|exact Hc].
      apply navigateToPath_canonical.
      * destruct Hst as [I1 I2 I3 I4 I5 I6 I8]. constructor; auto.
        vm_compute. discriminate.
      * eapply canonicalPaths_same; [..|exact Hc]; reflexivity.
    + cbv zeta. destruct (JSMap.get _ _) as [cachedResults|].
      * frame_renderFileList.
        eapply canonicalPaths_same; [..|exact Hc]; reflexivity.
      * frame_renderFileList. rewrite fold_apiCall.
        eapply canonicalPaths_same; [..|exact Hc]; reflexivity.
  - unfold prefetchWork, prefetchDirectory.
    destruct (prefetchQueue st) as [|p rest]; [exact Hc|].
    destruct answer as [message|d];
      [eapply canonicalPaths_same; [..|exact Hc]; reflexivity|].
    destruct (success d);
      (eapply canonicalPaths_same; [..|exact Hc]; reflexivity).
  - unfold setView. cbn [set_currentView currentItems].
    destruct (currentItems st); [frame_renderFileList|];
      (eapply canonicalPaths_same; [..|exact Hc]; reflexivity).
  - unfold handleVirtualScroll, renderVirtualItems.
    destruct (currentItems st); [|exact Hc].
    destruct (negb _); [exact Hc|].
    eapply canonicalPaths_same; [..|exact Hc]; reflexivity.
  - unfold handleResize.
    destruct (currentItems st); [|exact Hc].
    destruct (_ && _); [|exact Hc].
    eapply canonicalPaths_same; [..|exact Hc]; reflexivity.
Qed.

(** The engine inside the manager moves by steps of the engine, by
    navigations and by requests only. *)
Lemma managerStep_engine (P : State -> Prop)
  (Hstep : forall st op, P st -> P (step st op))
  (Hnavigate :
     forall st p addToHist answer,
       P st -> P (navigateToPath st p addToHist answer))
  (Hcall : forall st r, P st -> P (apiCall st r))
  (m : Manager) (op : ManagerOp) :
  P (engine m) -> P (engine (managerStep m op)).
Proof.
  intros Hm.
  assert (forall requests st, P st -> P (fold_left apiCall requests st))
    as Hcalls.
  { induction requests as [|r requests IH]; intros st Hs; simpl; auto. }
  destruct op as
    [op|answer|answer|probe answer|drive answer|p|p| | |answers navAnswer
    |confirmed answers navAnswer|entry answer navAnswer
    |entry answer navAnswer|answer|p isFile answer binary| | | | ];
    cbn [managerStep].
  - now apply Hstep.
  - cbn [set_engine engine]. unfold goUp.
    destruct (currentPath (engine m)) as [current|]; [|exact Hm].
    destruct (negb (truthy current)); [exact Hm|].
    destruct (getParentPath current) as [parentPath|]; [|exact Hm].
    destruct (_ && _); [now apply Hnavigate | exact Hm].
  - unfold goHome. destruct (activeDrive m); [now apply Hnavigate | exact Hm].
  - unfold loadDrives. cbv zeta.
    destruct (map driveOf _) as [|first others];
      cbn [showNotice selectDrive navigate set_activeDrive set_drives
           set_engine engine];
      [|apply Hnavigate]; now apply Hcalls.
  - now apply Hnavigate.
  - exact Hm.
  - unfold toggleSelection. now destruct (setHas _ _).
  - exact Hm.
  - exact Hm.
  - unfold pasteItems.
    destruct (currentPath (engine m)) as [current|]; [|exact Hm].
    destruct (_ || _); [exact Hm|]. cbv zeta.
    destruct (awaitEach_frame
                (pasteRequests
                   (clipboardOperation (showNotice m NoticePasting SevLoading))
                   current
                   (clipboardItems (showNotice m NoticePasting SevLoading)))
                answers 0 (showNotice m NoticePasting SevLoading))
      as [log E].
    destruct (awaitEach _ _ _ _) as [m1 failure]. cbn [fst] in E. subst m1.
    destruct failure; [exact Hm|].
    cbn [clipboardOperation showNotice].
    destruct (clipboardOperation m) as [[|]|]; now apply Hnavigate.
  - unfold deleteSelectedItems.
    destruct (_ =? 0); [exact Hm|]. destruct (negb confirmed); [exact Hm|].
    cbv zeta.
    destruct (awaitEach_frame
                (map ReqDelete
                   (selectedItems (showNotice m NoticeDeleting SevLoading)))
                answers 0 (showNotice m NoticeDeleting SevLoading))
      as [log E].
    destruct (awaitEach _ _ _ _) as [m1 failure]. cbn [fst] in E. subst m1.
    destruct failure; [exact Hm|].
    cbn [set_selectedItems showNotice engine].
    destruct (currentPath (engine m)); [now apply Hnavigate | exact Hm].
  - unfold createNewFolder, createNew.
    destruct entry as [entry|]; [|exact Hm].
    destruct (currentPath (engine m)) as [current|]; [|exact Hm].
    destruct (_ || _); [exact Hm|].
    destruct answer; [exact Hm | now apply Hnavigate].
  - unfold createNewFile, createNew.
    destruct entry as [entry|]; [|exact Hm].
    destruct (currentPath (engine m)) as [current|]; [|exact Hm].
    destruct (_ || _); [exact Hm|].
    destruct answer; [exact Hm | now apply Hnavigate].
  - unfold contextMenuOpen.
    destruct (selectedItems m) as [|selectedPath others]; [exact Hm|].
    destruct (negb (truthy selectedPath)); [exact Hm|].
    destruct (currentItems (engine m)) as [items|]; [|exact Hm].
    destruct (find _ items) as [item|]; [|exact Hm].
    destruct (negb (is_file item)); [now apply Hnavigate | exact Hm].
  - unfold doubleClick. destruct isFile; [|now apply Hnavigate].
    destruct (isAudioFile p); [|exact Hm].
    unfold loadAudioFile. destruct binary as [message|fileData]; [exact Hm|].
    destruct (negb (binarySuccess fileData)); [exact Hm|].
    now destruct (binaryData fileData).
  - unfold togglePlayPause. now destruct (audio m).
  - unfold stopAudio. now destruct (audio m).
  - exact Hm.
  - exact Hm.
Qed.

Lemma managerRun_engine (ops : list ManagerOp) (m : Manager) :
  Invariant (engine m) /\ canonicalPaths (engine m) ->
  Invariant (engine (managerRun ops m))
  /\ canonicalPaths (engine (managerRun ops m)).
Proof.
  revert m. induction ops as [|op ops IH]; intros m Hm; [exact Hm|].
  apply IH.
  apply (managerStep_engine (fun st => Invariant st /\ canonicalPaths st));
    [| | |exact Hm].
  - intros st o [Hi Hc]. split; [now apply step_invariant|].
    now apply step_canonical.
  - intros st p b a [Hi Hc]. split; [now apply navigateToPath_invariant|].
    now apply navigateToPath_canonical.
  - intros st r [Hi Hc]. split.
    + eapply Invariant_same; [..|exact Hi]; reflexivity.
    + eapply canonicalPaths_same; [..|exact Hc]; reflexivity.
Qed.

(** X22.  The bounds of the engine hold in every run of the whole
    manager, whatever the user does and the backend answers: the history
    holds at most fifty paths and its index lies between -1 and its last
    position, the search cache holds at most fifty entries, and the
    directory cache holds answers with [success = true] only. *)
Theorem every_run_stays_bounded (ops : list ManagerOp) :
  let st := engine (managerRun ops initialManager) in
  jsLen (history st) <= 50
  /\ -1 <= historyIndex st < jsLen (history st)
  /\ JSMap.size (searchCache st) <= 50
  /\ Forall (fun entry => success (snd entry) = true) (cache st).
Proof.
  intros st.
  destruct (managerRun_engine ops initialManager) as [[_ _ _ Hc Hs [Hi Hl] _] _].
  - split; [exact Invariant_initialState|].
    split; [discriminate | constructor].
  - auto.
Qed.

(** X23.  The paths that the engine keeps are normal forms in every run:
    the current path and every entry of the history is a fixed point of
    the normalisation, so none of them holds a forward slash or ends with
    a backslash unless it is a drive root, however the paths were
    spelled by the user or by the backend. *)
Theorem every_run_keeps_canonical_paths (ops : list ManagerOp) :
  let st := engine (managerRun ops initialManager) in
  (forall p, currentPath st = Some p -> normalizePath p = p)
  /\ Forall (fun q => normalizePath q = q) (history st).
Proof.
  intros st.
  destruct (managerRun_engine ops initialManager) as [_ Hc]; [|exact Hc].
  split; [exact Invariant_initialState|].
  split; [discriminate | constructor].
Qed.

End RunFacts.

Ltac settle_frame :=
  repeat (split || intro);
  (discriminate || reflexivity || assumption || congruence).

Section FrameFacts.
Context `{Collation}.

Lemma pasteItems_frame m answers navAnswer :
  selectedItems (pasteItems m answers navAnswer) = selectedItems m
  /\ audio (pasteItems m answers navAnswer) = audio m
  /\ isPlaying (pasteItems m answers navAnswer) = isPlaying m
  /\ currentFile (pasteItems m answers navAnswer) = currentFile m.
Proof.
  unfold pasteItems.
  destruct (currentPath (engine m)) as [current|]; [|settle_frame].
  destruct (_ || _); [settle_frame|]. cbv zeta.
  destruct (awaitEach_frame
              (pasteRequests
                 (clipboardOperation (showNotice m NoticePasting SevLoading))
                 current
                 (clipboardItems (showNotice m NoticePasting SevLoading)))
              answers 0 (showNotice m NoticePasting SevLoading))
    as [log E].
  destruct (awaitEach _ _ _ _) as [m1 failure]. cbn [fst] in E. subst m1.
  destruct failure; [settle_frame|].
  cbn [clipboardOperation showNotice].
  destruct (clipboardOperation m) as [[|]|]; settle_frame.
Qed.

Lemma deleteSelectedItems_frame m confirmed answers navAnswer :
  clipboardItems (deleteSelectedItems m confirmed answers navAnswer)
  = clipboardItems m
  /\ clipboardOperation (deleteSelectedItems m confirmed answers navAnswer)
     = clipboardOperation m
  /\ audio (deleteSelectedItems m confirmed answers navAnswer) = audio m
  /\ isPlaying (deleteSelectedItems m confirmed answers navAnswer)
     = isPlaying m
  /\ currentFile (deleteSelectedItems m confirmed answers navAnswer)
     = currentFile m.
Proof.
  unfold deleteSelectedItems.
  destruct (_ =? 0); [settle_frame|].
  destruct (negb confirmed); [settle_frame|]. cbv zeta.
  destruct (awaitEach_frame
              (map ReqDelete
                 (selectedItems (showNotice m NoticeDeleting SevLoading)))
              answers 0 (showNotice m NoticeDeleting SevLoading))
    as [log E].
  destruct (awaitEach _ _ _ _) as [m1 failure]. cbn [fst] in E. subst m1.
  destruct failure; [settle_frame|].
  cbn [set_selectedItems showNotice engine].
  destruct (currentPath (engine m)); settle_frame.
Qed.

Lemma managerStep_frame (m : Manager) (op : ManagerOp) :
  (actsOnSelection op = false ->
   selectedItems (managerStep m op) = selectedItems m)
  /\ (actsOnClipboard op = false ->
      clipboardItems (managerStep m op) = clipboardItems m
      /\ clipboardOperation (managerStep m op) = clipboardOperation m)
  /\ (actsOnPlayer op = false ->
      audio (managerStep m op) = audio m
      /\ isPlaying (managerStep m op) = isPlaying m
      /\ currentFile (managerStep m op) = currentFile m).
Proof.
  destruct op as
    [op|answer|answer|probe answer|drive answer|p|p| | |answers navAnswer
    |confirmed answers navAnswer|entry answer navAnswer
    |entry answer navAnswer|answer|p isFile answer binary| | | | ];
    cbn [managerStep actsOnSelection actsOnClipboard actsOnPlayer].
  - settle_frame.
  - settle_frame.
  - unfold goHome. destruct (activeDrive m); settle_frame.
  - unfold loadDrives. cbv zeta. destruct (map driveOf _); settle_frame.
  - settle_frame.
  - settle_frame.
  - unfold toggleSelection. destruct (setHas _ _); settle_frame.
  - settle_frame.
  - settle_frame.
  - destruct (pasteItems_frame m answers navAnswer) as (E1 & E2 & E3 & E4).
    settle_frame.
  - destruct (deleteSelectedItems_frame m confirmed answers navAnswer)
      as (E1 & E2 & E3 & E4 & E5).
    settle_frame.
  - unfold createNewFolder, createNew.
    destruct entry; [|settle_frame].
    destruct (currentPath (engine m)); [|settle_frame].
    destruct (_ || _); [settle_frame|]. destruct answer; settle_frame.
  - unfold createNewFile, createNew.
    destruct entry; [|settle_frame].
    destruct (currentPath (engine m)); [|settle_frame].
    destruct (_ || _); [settle_frame|]. destruct answer; settle_frame.
  - unfold contextMenuOpen.
    destruct (selectedItems m) as [|selectedPath others] eqn:Es;
      [settle_frame|].
    destruct (negb (truthy selectedPath)); [settle_frame|].
    destruct (currentItems (engine m)) as [items|]; [|settle_frame].
    destruct (find _ items) as [item|]; [|settle_frame].
    destruct (negb (is_file item)); settle_frame.
  - unfold doubleClick, loadAudioFile. destruct isFile; [|settle_frame].
    destruct (isAudioFile p); [|settle_frame].
    destruct binary as [message|fileData]; [settle_frame|].
    destruct (negb (binarySuccess fileData)); [settle_frame|].
    destruct (binaryData fileData); settle_frame.
  - unfold togglePlayPause. destruct (audio m); settle_frame.
  - unfold stopAudio. destruct (audio m); settle_frame.
  - settle_frame.
  - settle_frame.
Qed.

(** X24.  Navigation never touches the selection.  The selection
    changes only by a click, a Ctrl-click or a delete, the clipboard only
    by copy, cut and paste, and the player only by a double click and its
    own buttons: every other operation (navigating, going back, forward,
    up or home, refreshing, searching, scrolling, creating entries) leaves
    them as they are.  So a selection made in one directory is still the
    selection after moving to another one, and it is what Delete acts
    on there. *)
Theorem selection_survives_navigation (m : Manager) (op : ManagerOp) :
  (actsOnSelection op = false ->
   selectedItems (managerStep m op) = selectedItems m)
  /\ (actsOnClipboard op = false ->
      clipboardItems (managerStep m op) = clipboardItems m
      /\ clipboardOperation (managerStep m op) = clipboardOperation m)
  /\ (actsOnPlayer op = false ->
      audio (managerStep m op) = audio m
      /\ isPlaying (managerStep m op) = isPlaying m
      /\ currentFile (managerStep m op) = currentFile m)
  /\ forall p answer answers navAnswer,
       selectedItems m <> [] ->
       allResolved answers (List.length (selectedItems m)) ->
       let elsewhere := managerStep m (OpEngine (OpNavigate p answer)) in
       fileLog (deleteSelectedItems elsewhere true answers navAnswer)
       = (fileLog m ++ map ReqDelete (selectedItems m))%list.
Proof.
  destruct (managerStep_frame m op) as (E1 & E2 & E3).
  split; [exact E1|]. split; [exact E2|]. split; [exact E3|].
  intros p answer answers navAnswer Hs Ha elsewhere.
  unfold elsewhere, deleteSelectedItems.
  cbn [managerStep set_engine selectedItems showNotice].
  destruct (Z.eqb_spec (jsLen (selectedItems m)) 0) as [E|_].
  { unfold jsLen in E. destruct (selectedItems m); [congruence|simpl in E; lia]. }
  cbn [negb]. cbv zeta.
  cbn [showNotice selectedItems].
  rewrite awaitEach_resolved
    by (intros j Hj; rewrite length_map in Hj; now apply Ha).
  rewrite fold_fileCall.
  match goal with
  | |- context [match ?current with Some _ => _ | None => _ end] =>
      destruct current
  end; reflexivity.
Qed.




End FrameFacts.

(** ** The breadcrumb *)

Lemma splitOn_nonempty sep s : splitOn sep s <> [].
Proof.
  destruct s as [|a s]; simpl; [discriminate|].
  destruct (Ascii.eqb a sep); [discriminate|].
  destruct (splitOn sep s); discriminate.
Qed.

Lemma splitOn_absent sep s :
  lastIndexOfChar s sep = -1 -> splitOn sep s = [s].
Proof.
  induction s as [|a s IH]; [reflexivity|].
  intros [E Hs]%lastIndexOfChar_cons. cbn [splitOn].
  now rewrite E, (IH Hs).
Qed.

Lemma splitOn_app sep s r :
  lastIndexOfChar s sep = -1 ->
  splitOn sep (s ++ String sep r) = s :: splitOn sep r.
Proof.
  induction s as [|a s IH].
  - intros _. cbn [append splitOn]. now rewrite Ascii.eqb_refl.
  - intros [E Hs]%lastIndexOfChar_cons. cbn [append splitOn].
    now rewrite E, (IH Hs).
Qed.

Lemma splitOn_concat (segments : list string) :
  segments <> [] ->
  Forall (fun s => lastIndexOfChar s backslash = -1) segments ->
  splitOn backslash (String.concat (String backslash "") segments) = segments.
Proof.
  induction segments as [|s [|s' segments] IH]; intros Hne Hs.
  - congruence.
  - inversion Hs; subst. now apply splitOn_absent.
  - inversion Hs; subst.
    change (String.concat (String backslash "") (s :: s' :: segments))
      with (s ++ String backslash
                   (String.concat (String backslash "") (s' :: segments))).
    rewrite splitOn_app by assumption.
    now rewrite IH by (assumption || discriminate).
Qed.

Lemma breadcrumb_loop (parts : list string) (acc : string)
  (out : list string) :
  snd (fold_left
         (fun acc part =>
            let currentPath := fst acc ++ part ++ String backslash "" in
            (currentPath, (snd acc ++ [currentPath])%list))
         parts (acc, out))
  = (out
     ++ map (fun k =>
               (acc ++ String.concat (String backslash "") (firstn k parts)
                ++ String backslash "")%string)
          (seq 1 (List.length parts)))%list.
Proof.
  revert acc out. induction parts as [|part parts IH]; intros acc out.
  - simpl. now rewrite app_nil_r.
  - cbn [fold_left fst snd List.length]. cbv zeta. rewrite IH.
    rewrite <- app_assoc. f_equal.
    cbn [seq map app]. f_equal.
    rewrite <- (seq_shift (List.length parts) 1), map_map.
    apply map_ext_in.
    intros k Hk. apply in_seq in Hk.
    destruct k as [|k]; [lia|].
    change (firstn (S (S k)) (part :: parts))
      with (part :: firstn (S k) parts).
    destruct parts as [|part' parts]; [simpl in Hk; lia|].
    change (firstn (S k) (part' :: parts))
      with (part' :: firstn k parts).
    change (String.concat (String backslash "")
              (part :: part' :: firstn k parts))
      with (part ++ String backslash ""
            ++ String.concat (String backslash "") (part' :: firstn k parts)).
    now rewrite !append_assoc.
Qed.

Lemma strip_app_backslash s :
  stripTrailingBackslashes (s ++ String backslash "")
  = stripTrailingBackslashes s.
Proof.
  induction s as [|c s IH]; [reflexivity|].
  cbn [append stripTrailingBackslashes]. now rewrite IH.
Qed.

Lemma replaceSlashes_app s r :
  replaceSlashes (s ++ r) = replaceSlashes s ++ replaceSlashes r.
Proof. induction s as [|c s IH]; simpl; [reflexivity | now rewrite IH]. Qed.

Lemma normalizePath_trailing s :
  normalizePath (s ++ String backslash "") = normalizePath s.
Proof.
  unfold normalizePath. rewrite replaceSlashes_app.
  change (replaceSlashes (String backslash "")) with (String backslash "").
  now rewrite strip_app_backslash.
Qed.

(** X26.  The breadcrumb leads to the ancestors: for a path made of
    segments joined by single backslashes (none of them empty), the
    breadcrumb has one item per segment, the item of place [k] carries the
    first [k] segments followed by a backslash, and navigating to it
    (which normalises the path) leads to the directory that the first [k]
    segments name; the last item names the path itself. *)
Theorem breadcrumb_leads_to_ancestors (segments : list string)
  (Hsegments :
     Forall (fun s => truthy s = true /\ lastIndexOfChar s backslash = -1)
       segments) :
  let p := String.concat (String backslash "") segments in
  breadcrumbPaths p
  = map (fun k =>
           String.concat (String backslash "") (firstn k segments)
           ++ String backslash "")
      (seq 1 (List.length segments))
  /\ map normalizePath (breadcrumbPaths p)
     = map (fun k =>
              normalizePath
                (String.concat (String backslash "") (firstn k segments)))
         (seq 1 (List.length segments))
  /\ (segments <> [] ->
      normalizePath (List.last (breadcrumbPaths p) "") = normalizePath p).
Proof.
  intros p.
  assert (breadcrumbPaths p
          = map (fun k =>
                   String.concat (String backslash "") (firstn k segments)
                   ++ String backslash "")
              (seq 1 (List.length segments))) as E.
  { unfold breadcrumbPaths, p.
    destruct segments as [|s segments]; [reflexivity|].
    rewrite splitOn_concat;
      [|discriminate
       |eapply Forall_impl; [|exact Hsegments]; now intros a [_ Ha]].
    assert (filter truthy (s :: segments) = s :: segments) as ->.
    { apply forallb_filter_id, forallb_forall. intros x Hx.
      rewrite Forall_forall in Hsegments. now apply Hsegments. }
    rewrite breadcrumb_loop. reflexivity. }
  split; [exact E|]. split.
  - rewrite E, map_map. apply map_ext. intros k. apply normalizePath_trailing.
  - intros Hne. rewrite E.
    destruct (List.length segments) as [|n] eqn:L;
      [destruct segments; [congruence | discriminate]|].
    rewrite seq_S, map_app. cbn [map]. rewrite last_last.
    rewrite normalizePath_trailing.
    replace (1 + n)%nat with (List.length segments) by lia.
    now rewrite firstn_all.
Qed.

Lemma breadcrumb_leads_to_ancestors_witness :
  breadcrumbPaths "C:\music\album"
  = ["C:\"; "C:\music\"; "C:\music\album\"]
  /\ map normalizePath (breadcrumbPaths "C:\music\album")
     = ["C:\"; "C:\music"; "C:\music\album"].
Proof.
  destruct (breadcrumb_leads_to_ancestors ["C:"; "music"; "album"])
    as (E1 & E2 & _).
  - repeat constructor.
  - split; [exact E1 | exact E2].
Defined.

(** ** Searching again *)

Section SearchAgain.
Context `{Collation}.

Lemma performFastSearch_kept st query navAnswer answers :
  isBlank query = false ->
  let st' := performFastSearch st query navAnswer answers in
  currentPath st' = currentPath st
  /\ currentView st' = currentView st
  /\ virtualScrollThreshold st' = virtualScrollThreshold st
  /\ virtualScroll st' = virtualScroll st.
Proof.
  intros Hq st'. unfold st', performFastSearch.
  rewrite trim_blank, Hq. cbn [negb]. cbv zeta.
  destruct (JSMap.get _ _) as [cachedResults|].
  - frame_renderFileList. repeat split.
  - frame_renderFileList. rewrite fold_apiCall. repeat split.
Qed.

(** X27.  A search is answered from the search cache when it is
    repeated: after a search for a non-blank query that missed the cache,
    a second search in the same directory for a query that differs at most
    in letter case sends no request, shows the same results and pane, and
    reports the count as coming from the cache.  This holds whatever the
    first search got, so a search whose requests all failed is remembered
    as an empty result and is not tried again. *)
Theorem repeated_search_needs_no_request (st : State) (query again : string)
  (navAnswer navAnswer' : ApiResult) (answers answers' : ApiResult * ApiResult)
  (Hquery : isBlank query = false) (Hagain : isBlank again = false)
  (Hcase : toLowerCase again = toLowerCase query)
  (Hmiss : JSMap.has (searchCache st) (searchCacheKey st query) = false) :
  let st1 := performFastSearch st query navAnswer answers in
  let st2 := performFastSearch st1 again navAnswer' answers' in
  apiLog st2 = apiLog st1
  /\ searchCache st2 = searchCache st1
  /\ currentItems st2 = currentItems st1
  /\ display st2 = display st1
  /\ exists results,
       currentItems st1 = Some results
       /\ status st2 = Some (SevSuccess, MsgFound (jsLen results) true).
Proof.
  intros st1 st2.
  destruct (performFastSearch_miss st query navAnswer answers Hquery Hmiss)
    as (_ & Ei & Ed & _ & Ec & _).
  destruct (performFastSearch_kept st query navAnswer answers Hquery)
    as (Ep & Ev & Et & Es).
  fold st1 in Ei, Ed, Ec, Ep, Ev, Et, Es.
  set (finalResults :=
         rankResults query
           (mergeAnswers
              (if jsLength query >? 2 then [fst answers; snd answers]
               else [fst answers]))) in *.
  assert (JSMap.get (searchCache st1) (searchCacheKey st1 again)
          = Some finalResults) as Hg.
  { assert (searchCacheKey st1 again = searchCacheKey st query) as ->
      by (unfold searchCacheKey, currentPathOr; now rewrite Ep, Hcase).
    rewrite Ec. apply get_evictOldest_set; [exact Hmiss | lia]. }
  assert (st2
          = showStatus
              (renderFileList
                 (set_searchQuery (set_isSearchMode st1 true) again)
                 finalResults)
              (MsgFound (jsLen finalResults) true) SevSuccess) as E2.
  { unfold st2, performFastSearch. rewrite trim_blank, Hagain.
    cbn [negb]. cbv zeta.
    change (searchCacheKey
              (set_searchQuery (set_isSearchMode st1 true) again) again)
      with (searchCacheKey st1 again).
    cbn [set_searchQuery set_isSearchMode searchCache]. now rewrite Hg. }
  rewrite E2, renderFileList_frame.
  cbn [showStatus set_display set_currentItems set_searchQuery
       set_isSearchMode apiLog searchCache currentItems display status].
  split; [reflexivity|]. split; [reflexivity|].
  split; [now rewrite Ei|]. split.
  - rewrite Ed. apply renderFileList_display;
      cbn [set_searchQuery set_isSearchMode currentView
           virtualScrollThreshold virtualScroll]; assumption.
  - exists finalResults. split; [exact Ei | reflexivity].
Qed.

End SearchAgain.

Lemma repeated_search_needs_no_request_witness :
  let failed := (Rejected "timeout", Rejected "timeout") in
  let st1 := performFastSearch inLogs "Log" (Rejected "unused") failed in
  let st2 :=
    performFastSearch st1 "LOG" (Rejected "unused")
      (Resolved (okEnvelope [logFile]), Resolved (okEnvelope [logFile])) in
  apiLog st2 = apiLog st1
  /\ searchCache st2 = searchCache st1
  /\ currentItems st2 = currentItems st1
  /\ display st2 = display st1
  /\ exists results,
       currentItems st1 = Some results
       /\ status st2 = Some (SevSuccess, MsgFound (jsLen results) true).
Proof.
  intros failed.
  refine (repeated_search_needs_no_request inLogs "Log" "LOG"
            (Rejected "unused") (Rejected "unused") failed
            (Resolved (okEnvelope [logFile]), Resolved (okEnvelope [logFile]))
            _ _ _ _); vm_compute; reflexivity.
Defined.
